(** * Rule-based document classification: the scoring engine of classify2.py

    A shallow embedding of the classifier (text normalisation, rule loading,
    per-term matching, ranking of categories and the AUTO/REVIEW policy)
    together with the properties stated about it.

    Python strings are sequences of Unicode code points, so a string is a
    list of code points here.  The parts of the Python library the program
    calls but does not define (the Unicode database and the regex engine)
    are an interface, [PyLib]; everything the program itself does is
    written out. *)

From Stdlib Require Import List NArith ZArith Bool Lia String Ascii.
From Stdlib Require Import Sorting.Sorted Sorting.Permutation.
From Stdlib Require Import DecimalString.
Import ListNotations.

Set Implicit Arguments.

(** ** Python strings *)

Definition char := N.
Definition str := list char.

(** Code points of an ASCII literal. *)
Definition lit (s : string) : str :=
  map N_of_ascii (list_ascii_of_string s).

Definition char_eqb (a b : char) : bool := N.eqb a b.

Fixpoint str_eqb (a b : str) : bool :=
  match a, b with
  | [], [] => true
  | x :: a', y :: b' => char_eqb x y && str_eqb a' b'
  | _, _ => false
  end.

(** [bool(s)] of a string: true unless it is empty. *)
Definition truthy (s : str) : bool :=
  match s with [] => false | _ :: _ => true end.

(** [str.isspace] on one code point; the regex class [\s] of a [str]
    pattern is the same set. *)
Definition is_space (c : char) : bool :=
  ((9 <=? c) && (c <=? 13) || (28 <=? c) && (c <=? 32)
   || (c =? 133) || (c =? 160) || (c =? 5760)
   || (8192 <=? c) && (c <=? 8202)
   || (c =? 8232) || (c =? 8233) || (c =? 8239) || (c =? 8287)
   || (c =? 12288))%N.

Fixpoint lstrip (s : str) : str :=
  match s with
  | [] => []
  | c :: r => if is_space c then lstrip r else s
  end.

Definition rstrip (s : str) : str := rev (lstrip (rev s)).

(** [s.strip()] *)
Definition strip (s : str) : str := rstrip (lstrip s).

(** [s.startswith(p)] *)
Fixpoint startswith (s p : str) : bool :=
  match p, s with
  | [], _ => true
  | x :: p', y :: s' => char_eqb x y && startswith s' p'
  | _ :: _, [] => false
  end.

(** [s.endswith(p)] *)
Definition endswith (s p : str) : bool := startswith (rev s) (rev p).

(** [c in s] for a one-character [c]. *)
Definition contains (c : char) (s : str) : bool := existsb (char_eqb c) s.

(** [s[1:-1]] *)
Definition slice_1_m1 (s : str) : str := removelast (tl s).

(** [s.split(sep)] for a one-character separator. *)
Fixpoint split (sep : char) (s : str) : list str :=
  match s with
  | [] => [[]]
  | c :: r =>
      if char_eqb c sep then [] :: split sep r
      else match split sep r with
           | w :: ws => (c :: w) :: ws
           | [] => [[c]]
           end
  end.

(** [s.split(sep, 1)] on a string that contains [sep]: the text before the
    first separator and the text after it. *)
Fixpoint split1 (sep : char) (s : str) : str * str :=
  match s with
  | [] => ([], [])
  | c :: r =>
      if char_eqb c sep then ([], r)
      else let (a, b) := split1 sep r in (c :: a, b)
  end.

(** Line boundaries of [str.splitlines]. *)
Definition is_linebreak (c : char) : bool :=
  ((10 <=? c) && (c <=? 13) || (28 <=? c) && (c <=? 30)
   || (c =? 133) || (c =? 8232) || (c =? 8233))%N.

(** [cur] is the line being read, last character first. *)
Fixpoint splitlines_go (cur : str) (s : str) : list str :=
  match s with
  | [] => match cur with [] => [] | _ => [rev cur] end
  | c :: r =>
      if is_linebreak c then
        rev cur ::
          match r with
          | d :: r' =>
              if (c =? 13)%N && (d =? 10)%N then splitlines_go [] r'
              else splitlines_go [] r
          | [] => splitlines_go [] r
          end
      else splitlines_go (c :: cur) r
  end.

Definition splitlines (s : str) : list str := splitlines_go [] s.

(** *** Scanning for non-overlapping matches

    [str.replace], [str.count] and [re.sub] all walk the text from the left
    and, wherever the pattern matches, consume the match and go on after it.
    [m s] is the length of the match that starts at the head of [s], 0 when
    there is none; [skip] counts the characters of the current match that
    are still to be consumed. *)

Fixpoint sub_go (m : str -> nat) (repl : str) (skip : nat) (s : str) : str :=
  match s with
  | [] => []
  | c :: r =>
      match skip with
      | S k => sub_go m repl k r
      | O =>
          match m s with
          | O => c :: sub_go m repl 0 r
          | S k => repl ++ sub_go m repl k r
          end
      end
  end.

Fixpoint count_go (m : str -> nat) (skip : nat) (s : str) : nat :=
  match s with
  | [] => 0
  | _ :: r =>
      match skip with
      | S k => count_go m k r
      | O =>
          match m s with
          | O => count_go m 0 r
          | S k => S (count_go m k r)
          end
      end
  end.

(** A literal pattern matches where the text starts with it. *)
Definition m_literal (p : str) (s : str) : nat :=
  if startswith s p then List.length p else 0.

(** [s.replace(old, new)], [old] not empty. *)
Definition replace (old new : str) (s : str) : str :=
  sub_go (m_literal old) new 0 s.

(** [s.count(p)], [p] not empty (the callers test it). *)
Definition count (s p : str) : nat := count_go (m_literal p) 0 s.

(** Length of the run of whitespace at the head of [s]: the greedy [\s+]. *)
Fixpoint span_space (s : str) : nat :=
  match s with
  | [] => 0
  | c :: r => if is_space c then S (span_space r) else 0
  end.

Definition HYPHEN : char := 45%N.
Definition SPACE : char := 32%N.

(** The pattern [-\s+] *)
Definition m_hyphen_ws (s : str) : nat :=
  match s with
  | c :: r =>
      if char_eqb c HYPHEN then
        match span_space r with O => O | S n => S (S n) end
      else 0
  | [] => 0
  end.

(** The pattern [\s+] *)
Definition m_ws (s : str) : nat := span_space s.

(** [re.sub(pattern, repl, s)] for a pattern given by its matcher. *)
Definition re_sub (m : str -> nat) (repl : str) (s : str) : str :=
  sub_go m repl 0 s.

(** [str(n)] of an integer. *)
Definition str_of_int (z : Z) : str :=
  lit (NilZero.string_of_int (Z.to_int z)).

(** [sep.join(parts)] *)
Fixpoint join (sep : str) (parts : list str) : str :=
  match parts with
  | [] => []
  | [p] => p
  | p :: ps => p ++ sep ++ join sep ps
  end.

(** ** Results of fallible calls *)

Inductive exn : Type :=
| re_error          (* re.error: the pattern is not a valid regular expression *)
| OverflowError     (* raised by the regex parser on a repetition count too large *)
| ValueError        (* raised by the regex parser on flags that exclude each
                       other, and by csv.DictWriter on a field it has no
                       column for *)
| KeyError
| AttributeError    (* a method of [str] called on a value that is not one *)
| TypeError         (* a path made from a value that is not a string *)
| OSError.          (* the operating system refused a file operation *)

Inductive pyres (A : Type) : Type :=
| Ok (a : A)
| Raise (e : exn).

Arguments Ok {A} a.
Arguments Raise {A} e.

Definition bind {A B} (x : pyres A) (k : A -> pyres B) : pyres B :=
  match x with
  | Ok a => k a
  | Raise e => Raise e
  end.

Notation "x <- c ;; k" := (bind c (fun x => k))
  (at level 61, c at next level, right associativity).

(** ** The library the program runs on *)

Record re_flags := { MULTILINE : bool; IGNORECASE : bool }.

Class PyLib := {
  (** [unicodedata.normalize("NFKC", s)] *)
  nfkc : str -> str;
  (** [unicodedata.normalize("NFKD", s)] *)
  nfkd : str -> str;
  (** [unicodedata.combining(c)] *)
  combining : char -> N;
  (** [s.casefold()] *)
  casefold : str -> str;
  (** [re.findall(pattern, text, flags)]: the matched pieces, or the
      exception raised while compiling the pattern *)
  re_findall : str -> str -> re_flags -> pyres (list str)
}.

(** ** Dictionaries

    A Python [dict] keeps its keys in the order of their first insertion;
    assigning to a key that is present replaces the value where it stands. *)

Definition pydict (V : Type) := list (str * V).

Fixpoint dict_set {V} (d : pydict V) (k : str) (v : V) : pydict V :=
  match d with
  | [] => [(k, v)]
  | (k', v') :: d' =>
      if str_eqb k' k then (k', v) :: d' else (k', v') :: dict_set d' k v
  end.

Fixpoint dict_get {V} (d : pydict V) (k : str) : option V :=
  match d with
  | [] => None
  | (k', v') :: d' => if str_eqb k' k then Some v' else dict_get d' k
  end.

Definition keys {V} (d : pydict V) : list str := map fst d.

(** ** Rows of a CSV file

    The dictionaries [csv.DictReader] gives.  A key is a column name of the
    header, or [None], under which the reader files the fields a line has
    beyond the header; a value is the string of the field, [None] where
    the line is shorter than the header, or the list of the fields beyond
    the header. *)

Definition key := option str.

Inductive value :=
| Str (s : str)
| NoneValue
| Fields (l : list str).

Definition key_eqb (a b : key) : bool :=
  match a, b with
  | Some x, Some y => str_eqb x y
  | None, None => true
  | _, _ => false
  end.

Definition row := list (key * value).

(** [r[k] = v] *)
Fixpoint row_set (r : row) (k : key) (v : value) : row :=
  match r with
  | [] => [(k, v)]
  | (k', v') :: r' =>
      if key_eqb k' k then (k', v) :: r' else (k', v') :: row_set r' k v
  end.

(** [r[k]], [None] where Python raises KeyError. *)
Fixpoint row_get (r : row) (k : key) : option value :=
  match r with
  | [] => None
  | (k', v') :: r' => if key_eqb k' k then Some v' else row_get r' k
  end.

(** [v == s] for a string [s] *)
Definition is_str (v : value) (s : str) : bool :=
  match v with
  | Str t => str_eqb t s
  | _ => false
  end.

(** [k in names] *)
Definition key_mem (k : key) (names : list key) : bool :=
  existsb (key_eqb k) names.

(** ** Rules *)

Definition rules_t := pydict (list str).

Definition COLON : char := 58%N.
Definition SEMICOLON : char := 59%N.

(** The body of the loop of [load_rules], on one line of the file. *)
Definition load_rules_line (rules : rules_t) (line : str) : rules_t :=
  let line := strip line in
  if negb (truthy line) || startswith line (lit "#") then rules
  else if negb (contains COLON line) then rules
  else
    let (cat, rest) := split1 COLON line in
    let cat := strip cat in
    let terms :=
      map strip (filter (fun t => truthy (strip t)) (split SEMICOLON rest)) in
    dict_set rules cat terms.

Definition load_rules_lines (lines : list str) : rules_t :=
  fold_left load_rules_line lines [].

(** [load_rules], on the decoded text of the rules file. *)
Definition load_rules (text : str) : rules_t :=
  load_rules_lines (splitlines text).

Definition safe_name (relpath : str) : str :=
  replace (lit "\") (lit "__") (replace (lit "/") (lit "__") relpath)
    ++ lit ".txt".

(** ** Matching modes *)

Inductive mode := m_lit | m_ci | m_na | m_re | m_re_i.

Definition parse_term (term : str) : mode * str :=
  let term := strip term in
  if startswith term (lit "re/i:") then (m_re_i, strip (skipn 5 term))
  else if startswith term (lit "re:") then (m_re, strip (skipn 3 term))
  else if startswith term (lit "ci:") then (m_ci, strip (skipn 3 term))
  else if startswith term (lit "na:") then (m_na, strip (skipn 3 term))
  else if startswith term (lit "lit:") then (m_lit, strip (skipn 4 term))
  else (m_lit, term).

Definition DQUOTE : str := [34%N].
Definition SQUOTE : str := [39%N].

Definition unquote_if_needed (t : str) : str :=
  let t := strip t in
  if (startswith t DQUOTE && endswith t DQUOTE)
     || (startswith t SQUOTE && endswith t SQUOTE)
  then slice_1_m1 t
  else t.

Section Classifier.

Context {L : PyLib}.

(** *** Normalisation *)

Definition _clean_unicode_common (s : str) : str :=
  let s := nfkc s in
  let s := replace [65279%N] [] s in   (* U+FEFF, byte order mark *)
  let s := replace [173%N] [] s in     (* U+00AD, soft hyphen *)
  let s := replace [8203%N] [] s in    (* U+200B *)
  let s := replace [8204%N] [] s in    (* U+200C *)
  let s := replace [8205%N] [] s in    (* U+200D *)
  let s := replace [160%N] [SPACE] s in (* U+00A0 *)
  let s := re_sub m_hyphen_ws [] s in
  strip (re_sub m_ws [SPACE] s).

Definition _strip_accents (s : str) : str :=
  filter (fun c => (combining c =? 0)%N) (nfkd s).

Definition normalize (s : str) (cf strip_accents : bool) : str :=
  let s := _clean_unicode_common s in
  let s := if cf then casefold s else s in
  if strip_accents then _strip_accents s else s.

(** *** Matching one term *)

Definition count_literal (text needle : str) (cf strip_acc : bool) : Z :=
  let tn := normalize text cf strip_acc in
  let nn := normalize needle cf strip_acc in
  if negb (truthy nn) then 0%Z
  else Z.of_nat (count tn nn).

Definition count_regex (text pattern : str) (ignore_case : bool) : pyres Z :=
  if negb (truthy pattern) then Ok 0%Z
  else
    let flags := {| MULTILINE := true; IGNORECASE := ignore_case |} in
    match re_findall pattern text flags with
    | Ok found => Ok (Z.of_nat (List.length found))
    | Raise re_error => Ok 0%Z
    | Raise e => Raise e
    end.

Definition term_match_count (text term : str) : pyres Z :=
  let (mode, payload) := parse_term term in
  let payload := unquote_if_needed payload in
  match mode with
  | m_re =>
      let t := _clean_unicode_common text in
      count_regex t payload false
  | m_re_i =>
      let t := _clean_unicode_common text in
      count_regex t payload true
  | m_ci => Ok (count_literal text payload true false)
  | m_na => Ok (count_literal text payload true true)
  | m_lit =>
      let t := _clean_unicode_common text in
      let n := _clean_unicode_common payload in
      if negb (truthy n) then Ok 0%Z
      else Ok (Z.of_nat (count t n))
  end.

(** *** Scoring and ranking *)

Definition scored_t := (str * Z * str)%type.

Definition score_of (x : scored_t) : Z := snd (fst x).
Definition cat_of (x : scored_t) : str := fst (fst x).
Definition hits_of (x : scored_t) : str := snd x.

(** The inner loop over the terms of one category: the running score and
    the parts of the hits string. *)
Fixpoint score_terms (text : str) (terms : list str)
    (score : Z) (hits_parts : list str) : pyres (Z * list str) :=
  match terms with
  | [] => Ok (score, hits_parts)
  | term :: rest =>
      c <- term_match_count text term ;;
      if (c >? 0)%Z then
        score_terms text rest (score + c)%Z
          (hits_parts ++ [term ++ lit "(" ++ str_of_int c ++ lit ")"])
      else score_terms text rest score hits_parts
  end.

(** The outer loop, over the categories in their order in the rules. *)
Fixpoint score_all (text : str) (rules : rules_t) : pyres (list scored_t) :=
  match rules with
  | [] => Ok []
  | (cat, terms) :: rest =>
      sh <- score_terms text terms 0%Z [] ;;
      tl <- score_all text rest ;;
      Ok ((cat, fst sh, join (lit ", ") (snd sh)) :: tl)
  end.

(** [list.sort(key=lambda x: x[1], reverse=True)].  The sort is stable: an
    entry stays ahead of the later entries of the same score, so it goes in
    before the first entry whose score is not greater than its own. *)
Fixpoint insert_desc (x : scored_t) (l : list scored_t) : list scored_t :=
  match l with
  | [] => [x]
  | y :: l' =>
      if (score_of x >=? score_of y)%Z then x :: l
      else y :: insert_desc x l'
  end.

Definition sort_desc (l : list scored_t) : list scored_t :=
  fold_right insert_desc [] l.

Definition UNKNOWN : str := lit "UNKNOWN".

Definition default_entry : scored_t := (UNKNOWN, 0%Z, []).

(** The sorted list [scored] of [best_two_categories]. *)
Definition ranking (text : str) (rules : rules_t) : pyres (list scored_t) :=
  scored <- score_all text rules ;;
  Ok (sort_desc scored).

Definition best_two_categories (text : str) (rules : rules_t)
    : pyres (scored_t * scored_t) :=
  scored <- ranking text rules ;;
  let top1 := match scored with x :: _ => x | [] => default_entry end in
  let top2 := match scored with _ :: y :: _ => y | _ => default_entry end in
  Ok (top1, top2).

(** *** The decision, per document *)

Definition DEFAULT_AUTO_THRESHOLD : Z := 2.
Definition DEFAULT_REVIEW_GAP : Z := 1.

Record counters := {
  out_rows : list row;
  auto : Z;
  review : Z;
  no_text : Z
}.

(** [{**r, name: s, ...}] for names and strings [fields]. *)
Definition set_fields (r : row) (fields : list (str * str)) : row :=
  fold_left (fun d kv => row_set d (Some (fst kv)) (Str (snd kv))) fields r.

(** The body of the loop of [main] once the text of the document is read. *)
Definition classify_text (rules : rules_t) (st : counters) (r : row)
    (text : str) : pyres counters :=
  if negb (truthy (strip text)) then
    Ok {| out_rows := out_rows st ++
            [set_fields r
               [(lit "label", lit "NO_TEXT");
                (lit "score", lit "0");
                (lit "hits", []);
                (lit "top2_label", []);
                (lit "top2_score", []);
                (lit "decision", lit "NEEDS_OCR_OR_BETTER_EXTRACT")]];
          auto := auto st;
          review := review st;
          no_text := (no_text st + 1)%Z |}
  else
    tops <- best_two_categories text rules ;;
    let '((c1, s1, h1), (c2, s2, h2)) := tops in
    let is_auto :=
      (s1 >=? DEFAULT_AUTO_THRESHOLD)%Z
      && (s1 - s2 >? DEFAULT_REVIEW_GAP)%Z
      && negb (str_eqb c1 UNKNOWN) in
    let decision := if is_auto then lit "AUTO" else lit "REVIEW" in
    Ok {| out_rows := out_rows st ++
            [set_fields r
               [(lit "label", c1);
                (lit "score", str_of_int s1);
                (lit "hits", h1);
                (lit "top2_label", c2);
                (lit "top2_score", str_of_int s2);
                (lit "decision", decision)]];
          auto := if is_auto then (auto st + 1)%Z else auto st;
          review := if is_auto then review st else (review st + 1)%Z;
          no_text := no_text st |}.

(** The directory of the text files.  For a file name, what
    [text_path.exists()] and [read_text_auto(text_path)] come to: the
    exception one of them raises (the operating system refuses a name that
    is too long, or a file that cannot be read), [None] where there is no
    such file, or the decoded text of the file. *)
Definition text_dir := str -> pyres (option str).

(** The body of the loop of [main].  [safe_name] calls [replace] on the
    value of the relpath column, which only a string has. *)
Definition process_row (texts : text_dir) (rules : rules_t) (st : counters)
    (r : row) : pyres counters :=
  match row_get r (Some (lit "relpath")), row_get r (Some (lit "kind")) with
  | Some rel, Some _ =>
      match rel with
      | Str rel =>
          found <- texts (safe_name rel) ;;
          let text := match found with
                      | Some t => t
                      | None => []
                      end in
          classify_text rules st r text
      | _ => Raise AttributeError
      end
  | _, _ => Raise KeyError
  end.

Fixpoint process_rows (texts : text_dir) (rules : rules_t) (st : counters)
    (rows : list row) : pyres counters :=
  match rows with
  | [] => Ok st
  | r :: rest =>
      st' <- process_row texts rules st r ;;
      process_rows texts rules st' rest
  end.

(** [csv.DictWriter.writerows] with the keys of the first row as field
    names: a row with a key that is not among them raises ValueError. *)
Definition fieldnames (out : list row) : list key :=
  match out with
  | first :: _ => map fst first
  | [] => []
  end.

Definition wrong_fields (names : list key) (r : row) : list key :=
  filter (fun k => negb (key_mem k names)) (map fst r).

Definition writerows (out : list row) : pyres unit :=
  if forallb (fun r => match wrong_fields (fieldnames out) r with
                       | [] => true
                       | _ :: _ => false
                       end) out
  then Ok tt
  else Raise ValueError.

Inductive run_result :=
| SystemExit (message : str)
| Crashed (e : exn)
| Finished (st : counters).

(** [main], from the loaded rules on.  [rows] is the list the reader gave
    for the manifest; the output file is taken to open. *)
Definition run (texts : text_dir) (rules_text : str) (rows : list row)
    : run_result :=
  let rules := load_rules rules_text in
  match rules with
  | [] => SystemExit (lit "rules.txt sem regras v" ++ [225%N] ++ lit "lidas.")
  | _ :: _ =>
      match process_rows texts rules
              {| out_rows := []; auto := 0; review := 0; no_text := 0 |} rows
      with
      | Ok st =>
          match writerows (out_rows st) with
          | Ok _ => Finished st
          | Raise e => Crashed e
          end
      | Raise e => Crashed e
      end
  end.

End Classifier.

(** ** A small instance of the library

    The fragment of the Unicode database and of the regex engine that the
    examples below run on.  It agrees with Python on ASCII text, on the
    accented Latin-1 letters of its tables and on the patterns it
    recognises; it is not a model of the rest. *)

Module Small.

#[local] Open Scope N_scope.

Definition ACUTE : char := 769%N.    (* U+0301 *)
Definition TILDE : char := 771%N.    (* U+0303 *)
Definition CEDILLA : char := 807%N.  (* U+0327 *)

(** Canonical compositions of a base letter and a mark. *)
Definition compose (b m : char) : option char :=
  if char_eqb m ACUTE then
    if char_eqb b 97 then Some 225%N          (* a, á *)
    else if char_eqb b 101 then Some 233%N    (* e, é *)
    else if char_eqb b 105 then Some 237%N    (* i, í *)
    else if char_eqb b 111 then Some 243%N    (* o, ó *)
    else if char_eqb b 117 then Some 250%N    (* u, ú *)
    else None
  else if char_eqb m TILDE then
    if char_eqb b 97 then Some 227%N          (* a, ã *)
    else if char_eqb b 111 then Some 245%N    (* o, õ *)
    else None
  else if char_eqb m CEDILLA then
    if char_eqb b 99 then Some 231%N          (* c, ç *)
    else None
  else None.

(** The decompositions, canonical and compatibility. *)
Definition decompose (c : char) : str :=
  if char_eqb c 225 then [97; ACUTE]
  else if char_eqb c 233 then [101; ACUTE]
  else if char_eqb c 237 then [105; ACUTE]
  else if char_eqb c 243 then [111; ACUTE]
  else if char_eqb c 250 then [117; ACUTE]
  else if char_eqb c 227 then [97; TILDE]
  else if char_eqb c 245 then [111; TILDE]
  else if char_eqb c 231 then [99; CEDILLA]
  else if char_eqb c 160 then [SPACE]          (* no-break space *)
  else if char_eqb c 64257 then [102; 105]     (* the ligature fi *)
  else [c].

Fixpoint compose_all (s : str) : str :=
  match s with
  | b :: ((m :: r) as t) =>
      match compose b m with
      | Some c => c :: compose_all r
      | None => b :: compose_all t
      end
  | _ => s
  end%N.

Definition nfkd (s : str) : str := flat_map decompose s.

Definition nfkc (s : str) : str := compose_all (nfkd s).

Definition combining (c : char) : N :=
  if char_eqb c ACUTE || char_eqb c TILDE then 230%N
  else if char_eqb c CEDILLA then 202%N
  else 0%N.

Definition fold_char (c : char) : str :=
  if ((65 <=? c) && (c <=? 90))%N then [(c + 32)%N]
  else if ((192 <=? c) && (c <=? 222) && negb (c =? 215))%N then [(c + 32)%N]
  else if (c =? 223)%N then [115; 115]%N     (* sharp s *)
  else [c].

Definition casefold (s : str) : str := flat_map fold_char s.

Fixpoint digits_value (acc : N) (s : str) : option N :=
  match s with
  | [] => Some acc
  | c :: r =>
      if ((48 <=? c) && (c <=? 57))%N
      then digits_value (acc * 10 + (c - 48))%N r
      else None
  end.

Definition MAXREPEAT : N := 4294967295%N.

(** The repetition count of a pattern of the shape [x{n}]. *)
Definition repeat_count (p : str) : option N :=
  match p with
  | _ :: 123%N :: r =>
      match rev r with
      | 125%N :: ds => match ds with [] => None | _ => digits_value 0 (rev ds) end
      | _ => None
      end
  | _ => None
  end.

(** Every occurrence of the literal [p], as [re.findall] lists them. *)
Definition occurrences (p text : str) : list str :=
  repeat p (count text p).

(** The patterns recognised: the pattern [(?a)(?u)a], whose flags exclude
    each other, a character set left open and a repetition count too large
    are rejected as Python rejects them; a pattern is otherwise read as
    literal text. *)
Definition re_findall (p text : str) (flags : re_flags) : pyres (list str) :=
  if str_eqb p (lit "(?a)(?u)a") then Raise ValueError
  else if startswith p [91%N] && negb (contains 93%N p) then Raise re_error
  else
    match repeat_count p with
    | Some n =>
        if (MAXREPEAT <=? n)%N then Raise OverflowError
        else Ok (occurrences (repeat (hd 0%N p) (N.to_nat n)) text)
    | None =>
        if IGNORECASE flags
        then Ok (occurrences (casefold p) (casefold text))
        else Ok (occurrences p text)
    end.

#[export] Instance lib : PyLib :=
  Build_PyLib nfkc nfkd combining casefold re_findall.

End Small.

(** ** Vocabulary of the statements *)

Definition is_ascii (c : char) : bool := (c <? 128)%N.

Definition ascii_text (s : str) : bool := forallb is_ascii s.

(** [casefold] on ASCII: the capital letters go to the small ones. *)
Definition ascii_lower (c : char) : char :=
  if ((65 <=? c) && (c <=? 90))%N then (c + 32)%N else c.

(** What the Unicode standard fixes for ASCII text: it is its own
    normal form and case folding is letter by letter. *)
Class AsciiLaws (L : PyLib) : Prop := {
  nfkc_ascii : forall s, ascii_text s = true -> nfkc s = s;
  casefold_ascii : forall s, ascii_text s = true -> casefold s = map ascii_lower s
}.

(** A term in a literal mode that keeps accents, with an ASCII payload. *)
Definition plain_term (term : str) : bool :=
  match fst (parse_term term) with
  | m_lit | m_ci => ascii_text (unquote_if_needed (snd (parse_term term)))
  | _ => false
  end.

Definition plain_rules (rules : rules_t) : bool :=
  forallb (fun ct => forallb plain_term (snd ct)) rules.

(** The stages of [_clean_unicode_common] that follow the NFKC step. *)
Definition clean_tail (s : str) : str :=
  let s := replace [65279%N] [] s in
  let s := replace [173%N] [] s in
  let s := replace [8203%N] [] s in
  let s := replace [8204%N] [] s in
  let s := replace [8205%N] [] s in
  let s := replace [160%N] [SPACE] s in
  let s := re_sub m_hyphen_ws [] s in
  strip (re_sub m_ws [SPACE] s).

(** The text starts with a whitespace character. *)
Definition head_space (s : str) : bool :=
  match s with c :: _ => is_space c | [] => false end.

(** No hyphen is followed by whitespace. *)
Fixpoint hy_ok (s : str) : bool :=
  match s with
  | c :: r => negb (char_eqb c HYPHEN && head_space r) && hy_ok r
  | [] => true
  end.

(** Whitespace is single spaces only. *)
Fixpoint ws_ok (s : str) : bool :=
  match s with
  | c :: r =>
      (negb (is_space c) || (char_eqb c SPACE && negb (head_space r)))
      && ws_ok r
  | [] => true
  end.

(** The pattern of [m] matches nowhere in the text. *)
Fixpoint quiet (m : str -> nat) (s : str) : Prop :=
  match s with
  | [] => True
  | _ :: r => m s = 0 /\ quiet m r
  end.

(** The characters [_clean_unicode_common] removes or replaces one by one. *)
Definition ghosts : list char := [65279; 173; 8203; 8204; 8205; 160]%N.

(** The shape of a cleaned text. *)
Definition cleaned (s : str) : Prop :=
  (forall x, In x ghosts -> ~ In x s)
  /\ hy_ok s = true /\ ws_ok s = true
  /\ head_space s = false /\ head_space (rev s) = false.

(** A word of a text: not empty, without whitespace, and not ending in a
    hyphen. *)
Definition is_word (w : str) : bool :=
  truthy w && forallb (fun c => negb (is_space c)) w
  && negb (char_eqb (last w SPACE) HYPHEN).

(** A word with the whitespace before it; only the first word of a text
    can do without. *)
Definition gap_word (first : bool) (gw : str * str) : bool :=
  forallb is_space (fst gw) && (first || truthy (fst gw)) && is_word (snd gw).

(** The text of the words [parts], each after its whitespace, with the
    whitespace [trail] at the end. *)
Definition spaced (parts : list (str * str)) (trail : str) : str :=
  flat_map (fun gw => fst gw ++ snd gw) parts ++ trail.

Definition laid_out (parts : list (str * str)) (trail : str) : bool :=
  match parts with
  | [] => true
  | p :: r => gap_word true p && forallb (gap_word false) r
  end && forallb is_space trail.

(** A pattern the engine rejects with [re.error], whatever the text and
    the flags. *)
Definition re_error_pattern {L : PyLib} (p : str) : Prop :=
  forall text flags, re_findall p text flags = Raise re_error.

(** A rules line as [load_rules] reads it: [None] for a line it skips. *)
Definition skipped (line : str) : bool :=
  let line := strip line in
  negb (truthy line) || startswith line (lit "#") || negb (contains COLON line).

Definition rule_of_line (line : str) : option (str * list str) :=
  if skipped line then None
  else
    let (cat, rest) := split1 COLON (strip line) in
    Some (strip cat,
          map strip (filter (fun t => truthy (strip t)) (split SEMICOLON rest))).

(** Entering one rule line in the dictionary. *)
Definition add_rule (d : rules_t) (r : str * list str) : rules_t :=
  dict_set d (fst r) (snd r).

(** The rule lines of a definition, in order. *)
Definition rule_lines (lines : list str) : list (str * list str) :=
  flat_map (fun l => match rule_of_line l with Some r => [r] | None => [] end)
    lines.

(** Last one wins: the terms of the last line that names [cat]. *)
Definition last_rule (cat : str) (lines : list str) : option (list str) :=
  option_map snd
    (find (fun r => str_eqb (fst r) cat) (rev (rule_lines lines))).

(** The string in a field of an output row. *)
Definition field (r : row) (name : string) : option str :=
  match row_get r (Some (lit name)) with
  | Some (Str s) => Some s
  | _ => None
  end.

(** The score of a category: the sum of the counts of its terms. *)
Fixpoint sum_counts {L : PyLib} (text : str) (terms : list str) : pyres Z :=
  match terms with
  | [] => Ok 0%Z
  | term :: rest =>
      c <- term_match_count text term ;;
      s <- sum_counts text rest ;;
      Ok (c + s)%Z
  end.

(** A list of scored entries in descending order of score. *)
Definition descending : list scored_t -> Prop :=
  StronglySorted (fun x y => (score_of x >= score_of y)%Z).

(** The entries of a given score, in the order they stand. *)
Definition with_score (z : Z) (l : list scored_t) : list scored_t :=
  filter (fun x => (score_of x =? z)%Z) l.

(** ** The first classifier, classify.py

    It lowers the case of the text and of the terms, collapses whitespace
    and counts; it has no modes and no regex.  [lower] is [str.lower]. *)

Module V1.

Section Classifier.

Variable lower : str -> str.

Definition normalize (s : str) : str :=
  re_sub m_ws [SPACE] (lower s).

(** [s.count(p)] with [p] possibly empty: the empty string is found before
    every character and at the end. *)
Definition py_count (s p : str) : nat :=
  match p with
  | [] => S (List.length s)
  | _ :: _ => count s p
  end.

Definition term_match_count (text_norm term : str) : Z :=
  let term := strip term in
  if negb (truthy term) then 0%Z
  else if (startswith term DQUOTE && endswith term DQUOTE)
          || (startswith term SQUOTE && endswith term SQUOTE)
  then
    let phrase := normalize (slice_1_m1 term) in
    Z.of_nat (py_count text_norm phrase)
  else
    let t := normalize term in
    Z.of_nat (py_count text_norm t).

(** The inner loop of [best_category]: the score and the hits of one
    category. *)
Fixpoint score_terms (text_norm : str) (terms : list str)
    (score : Z) (hits : list str) : Z * list str :=
  match terms with
  | [] => (score, hits)
  | term :: rest =>
      let c := term_match_count text_norm term in
      if (c >? 0)%Z then
        score_terms text_norm rest (score + c)%Z
          (hits ++ [term ++ lit "(" ++ str_of_int c ++ lit ")"])
      else score_terms text_norm rest score hits
  end.

(** One turn of the outer loop, on the best category so far. *)
Definition best_step (text_norm : str) (best : str * Z * str)
    (ct : str * list str) : str * Z * str :=
  let '(best_cat, best_score, best_hits) := best in
  let (cat, terms) := ct in
  let (score, hits) := score_terms text_norm terms 0%Z [] in
  if (score >? best_score)%Z then (cat, score, join (lit ", ") hits)
  else (best_cat, best_score, best_hits).

Definition best_category (text : str) (rules : rules_t) : str * Z * str :=
  let text_norm := normalize text in
  fold_left (best_step text_norm) rules (lit "UNKNOWN", 0%Z, []).

(** The decision of [main] for a text that is not blank. *)
Definition decide (text : str) (rules : rules_t) : str :=
  let '(label, score, hits) := best_category text rules in
  if (score >=? 2)%Z && negb (str_eqb label (lit "UNKNOWN"))
  then lit "AUTO" else lit "REVIEW".

(** The score of a category. *)
Definition cat_score (text : str) (ct : str * list str) : Z :=
  fst (score_terms (normalize text) (snd ct) 0%Z []).

End Classifier.

End V1.

(** ** Text extraction, extract_pdf_text.py

    The PDF reader is pypdf's: what it gives for a file is an input here,
    the list of pages or the exception raised on opening the file, and for
    each page what [extract_text] gives: a text, [None], or an
    exception. *)

Module Extract.

Definition page := pyres (option str).

(** [try: t = p.extract_text() or "" except Exception: t = ""] *)
Definition page_text (p : page) : str :=
  match p with
  | Ok (Some t) => t
  | Ok None => []
  | Raise _ => []
  end.

(** [l[:k]] *)
Definition slice_to {A} (k : Z) (l : list A) : list A :=
  if (0 <=? k)%Z then firstn (Z.to_nat k) l
  else firstn (List.length l - Z.to_nat (- k)) l.

Definition extract_text_from_pdf (reader : pyres (list page))
    (max_pages : option Z) : pyres (str * nat) :=
  pages <- reader ;;
  let n := List.length pages in
  let pages :=
    match max_pages with
    | Some k => slice_to k pages
    | None => pages
    end in
  let out := filter (fun t => truthy (strip t)) (map page_text pages) in
  Ok (join [10%N] out, n).

(** A code point UTF-8 has no encoding for. *)
Definition is_surrogate (c : char) : bool :=
  ((55296 <=? c) && (c <=? 57343))%N.

(** What a file holds after
    [write_text(text, encoding="utf-8", errors="ignore")], as UTF-8 decodes
    it: the text without its surrogates, which the encoder drops.  (Where
    the line separator of the platform is the line feed.) *)
Definition written (text : str) : str :=
  filter (fun c => negb (is_surrogate c)) text.

Record state := {
  ok : Z;
  empty : Z;
  failed : Z;
  skipped_ocr : Z;
  files : pydict str   (* the text files written, by name *)
}.

Section Main.

(** The reader's result for the PDF at a path, and whether a text file of
    a given name can be written. *)
Variable readers : str -> pyres (list page).
Variable writable : str -> bool.

(** The body of the loop of [main].  [Path(rel)] takes a string only. *)
Definition extract_row (st : state) (r : row) : pyres state :=
  match row_get r (Some (lit "kind")) with
  | None => Raise KeyError
  | Some kind =>
      if negb (is_str kind (lit "pdf")) then Ok st
      else
        match row_get r (Some (lit "relpath")),
              row_get r (Some (lit "needs_ocr")) with
        | Some rel, Some needs_ocr =>
            match rel with
            | Str rel =>
                if is_str needs_ocr (lit "yes") then
                  Ok {| ok := ok st; empty := empty st; failed := failed st;
                        skipped_ocr := (skipped_ocr st + 1)%Z;
                        files := files st |}
                else
                  match extract_text_from_pdf (readers rel) None with
                  | Ok (text, n_pages) =>
                      if writable (safe_name rel) then
                        let files' :=
                          dict_set (files st) (safe_name rel) (written text) in
                        if truthy (strip text) then
                          Ok {| ok := (ok st + 1)%Z; empty := empty st;
                                failed := failed st;
                                skipped_ocr := skipped_ocr st;
                                files := files' |}
                        else
                          Ok {| ok := ok st; empty := (empty st + 1)%Z;
                                failed := failed st;
                                skipped_ocr := skipped_ocr st;
                                files := files' |}
                      else
                        Ok {| ok := ok st; empty := empty st;
                              failed := (failed st + 1)%Z;
                              skipped_ocr := skipped_ocr st;
                              files := files st |}
                  | Raise _ =>
                      Ok {| ok := ok st; empty := empty st;
                            failed := (failed st + 1)%Z;
                            skipped_ocr := skipped_ocr st;
                            files := files st |}
                  end
            | _ => Raise TypeError
            end
        | _, _ => Raise KeyError
        end
  end.

Fixpoint extract_rows (st : state) (rows : list row) : pyres state :=
  match rows with
  | [] => Ok st
  | r :: rest =>
      st' <- extract_row st r ;;
      extract_rows st' rest
  end.

End Main.

Definition is_pdf_row (r : row) : bool :=
  match row_get r (Some (lit "kind")) with
  | Some kind => is_str kind (lit "pdf")
  | None => false
  end.

End Extract.

(** ** The inventory, inventory.py

    What the file system gives for a file is an input: its path relative
    to the base, the lower-cased suffix of its name, and the results of
    [stat], of hashing it and of reading it, each a value or the exception
    raised. *)

Module Inventory.

Definition bytes := list N.

Definition IMAGE_EXTS : list str :=
  [lit ".png"; lit ".jpg"; lit ".jpeg"; lit ".tif"; lit ".tiff"; lit ".bmp";
   lit ".webp"].

Definition PDF_EXTS : list str := [lit ".pdf"].

(** [m in data] *)
Fixpoint occurs (m data : bytes) : bool :=
  startswith data m
  || match data with
     | [] => false
     | _ :: r => occurs m r
     end.

(** [data[:n]] *)
Fixpoint take {A} (n : N) (l : list A) : list A :=
  match l with
  | [] => []
  | x :: r => if (n =? 0)%N then [] else x :: take (N.pred n) r
  end.

Definition LIMIT : N := 40000000%N.

Definition markers : list bytes :=
  [lit "/Font"; lit "BT"; lit "ET"; lit "Tf"; lit "Tj"; lit "TJ"].

(** [data] is the result of [path.read_bytes()]. *)
Definition sniff_pdf_likely_text (data : pyres bytes) : bool :=
  match data with
  | Raise _ => false
  | Ok data =>
      let data :=
        if (LIMIT <? N.of_nat (List.length data))%N then take LIMIT data
        else data in
      let hits := List.length (filter (fun m => occurs m data) markers) in
      2 <=? hits
  end.

(** [ext] is [path.suffix.lower()]. *)
Definition kind_for (ext : str) : str :=
  if existsb (str_eqb ext) PDF_EXTS then lit "pdf"
  else if existsb (str_eqb ext) IMAGE_EXTS then lit "image"
  else lit "other".

Inductive cell := Int (z : Z) | Str (s : str).

Record file := {
  relpath : str;
  ext : str;
  size : pyres Z;
  sha1 : pyres str;
  data : pyres bytes
}.

Record state := {
  rows : list (pydict cell);
  counts : pydict Z;
  ocr_yes : Z;
  ocr_no : Z;
  ocr_unknown : Z
}.

(** The body of the loop of [main], on the file numbered [i]. *)
Definition step (st : state) (i : Z) (f : file) : pyres state :=
  size <- size f ;;
  let k := kind_for (ext f) in
  match dict_get (counts st) k with
  | None => Raise KeyError
  | Some c =>
      let counts' := dict_set (counts st) k (c + 1)%Z in
      let file_sha1 :=
        match sha1 f with
        | Ok h => h
        | Raise _ => lit "ERROR"
        end in
      let needs_ocr :=
        if str_eqb k (lit "image") then lit "yes"
        else if str_eqb k (lit "pdf") then
          if sniff_pdf_likely_text (data f) then lit "no" else lit "yes"
        else lit "unknown" in
      let is_yes := str_eqb needs_ocr (lit "yes") in
      let is_no := str_eqb needs_ocr (lit "no") in
      Ok {| rows := rows st ++
              [[(lit "id", Int i);
                (lit "relpath", Str (relpath f));
                (lit "ext", Str (ext f));
                (lit "size_bytes", Int size);
                (lit "sha1", Str file_sha1);
                (lit "kind", Str k);
                (lit "needs_ocr", Str needs_ocr)]];
            counts := counts';
            ocr_yes := if is_yes then (ocr_yes st + 1)%Z else ocr_yes st;
            ocr_no := if is_yes then ocr_no st
                      else if is_no then (ocr_no st + 1)%Z else ocr_no st;
            ocr_unknown := if is_yes then ocr_unknown st
                           else if is_no then ocr_unknown st
                           else (ocr_unknown st + 1)%Z |}
  end.

(** [for i, path in enumerate(files, start=1)] *)
Fixpoint loop (st : state) (i : Z) (files : list file) : pyres state :=
  match files with
  | [] => Ok st
  | f :: rest =>
      st' <- step st i f ;;
      loop st' (i + 1)%Z rest
  end.

Definition initial : state :=
  {| rows := [];
     counts := [(lit "pdf", 0%Z); (lit "image", 0%Z); (lit "other", 0%Z)];
     ocr_yes := 0; ocr_no := 0; ocr_unknown := 0 |}.

(** [main], on the sorted list of the files. *)
Definition inventory (files : list file) : pyres state :=
  loop initial 1%Z files.

(** The count kept for a kind. *)
Definition count_of (st : state) (kind : string) : Z :=
  match dict_get (counts st) (lit kind) with
  | Some c => c
  | None => 0%Z
  end.

End Inventory.

(** ** Vocabulary of the further properties *)

Definition SLASH : char := 47%N.
Definition BACKSLASH : char := 92%N.

(** No whitespace at either end. *)
Definition tight (s : str) : Prop :=
  head_space s = false /\ head_space (rev s) = false.

(** [p] occurs in [s]. *)
Definition substring (p s : str) : Prop := exists a b, s = a ++ p ++ b.

(** The prefix that selects a mode in the rules file. *)
Definition prefix_of (m : mode) : str :=
  match m with
  | m_lit => lit "lit:"
  | m_ci => lit "ci:"
  | m_na => lit "na:"
  | m_re => lit "re:"
  | m_re_i => lit "re/i:"
  end.

(** The normalisation of a literal mode: casefold, strip accents. *)
Definition profile (m : mode) : option (bool * bool) :=
  match m with
  | m_lit => Some (false, false)
  | m_ci => Some (true, false)
  | m_na => Some (true, true)
  | m_re | m_re_i => None
  end.

Definition literal_term (term : str) : bool :=
  match fst (parse_term term) with
  | m_re | m_re_i => false
  | _ => true
  end.

(** Rules without a regex term. *)
Definition literal_rules (rules : rules_t) : bool :=
  forallb (fun ct => forallb literal_term (snd ct)) rules.

(** The columns [main] writes in a row. *)
Definition written_fields : list key :=
  [Some (lit "label"); Some (lit "score"); Some (lit "hits");
   Some (lit "top2_label"); Some (lit "top2_score"); Some (lit "decision")].

(** A manifest row with the two columns [main] reads. *)
Definition has_columns (r : row) : bool :=
  match row_get r (Some (lit "relpath")), row_get r (Some (lit "kind")) with
  | Some _, Some _ => true
  | _, _ => false
  end.

Definition mem (k : str) (l : list str) : bool := existsb (str_eqb k) l.

(** The names of a list, each at its first appearance. *)
Fixpoint first_appearances (l : list str) : list str :=
  match l with
  | [] => []
  | k :: r => k :: filter (fun x => negb (str_eqb k x)) (first_appearances r)
  end.

(** A rule as [load_rules] leaves it. *)
Definition trimmed_rule (ct : str * list str) : Prop :=
  tight (fst ct) /\ ~ In COLON (fst ct)
  /\ Forall (fun t => t <> [] /\ tight t /\ ~ In SEMICOLON t) (snd ct).

(** The row written for a manifest row. *)
Definition written_row (r out : row) : Prop :=
  exists fields,
    out = set_fields r fields
    /\ map (fun kv => Some (fst kv)) fields = written_fields.

(** A manifest row for which the loop of [main] gets as far as the text:
    it has the two columns, its relpath is a string, and looking for its
    text file and reading it raise nothing. *)
Definition readable (texts : text_dir) (r : row) : Prop :=
  has_columns r = true
  /\ exists rel found,
       row_get r (Some (lit "relpath")) = Some (Str rel)
       /\ texts (safe_name rel) = Ok found.

(** Why the loop stops on the row [r] with the exception [e]: one of the
    two columns is missing; or the relpath is not a string; or looking for
    the text file of the row, or reading it, raised [e]. *)
Definition process_row_cause (texts : text_dir) (r : row) (e : exn) : Prop :=
  (e = KeyError /\ has_columns r = false)
  \/ (has_columns r = true
      /\ ((e = AttributeError
           /\ exists v, row_get r (Some (lit "relpath")) = Some v
                        /\ forall s, v <> Str s)
          \/ exists rel, row_get r (Some (lit "relpath")) = Some (Str rel)
                         /\ texts (safe_name rel) = Raise e)).

(** A row has a field, not one of the six that are written, under a key
    the first row does not have. *)
Definition surplus_field (rows : list row) : Prop :=
  exists r k, In r rows /\ row_get r k <> None /\ ~ In k written_fields
              /\ row_get (hd [] rows) k = None.

(** A rule as a line of the rules file: the name, a colon, and the terms
    joined by semicolons. *)
Definition format_rule (ct : str * list str) : str :=
  fst ct ++ [COLON] ++ join [SEMICOLON] (snd ct).

(** Rules as the text of a rules file, a line for each. *)
Definition format_rules (rules : rules_t) : str :=
  join [10%N] (map format_rule rules).

(** No character of the text ends a line. *)
Definition one_line (s : str) : bool :=
  forallb (fun c => negb (is_linebreak c)) s.

(** A rule that a line of the file can hold as it is. *)
Definition writable_rule (ct : str * list str) : Prop :=
  (tight (fst ct) /\ ~ In COLON (fst ct)
   /\ startswith (fst ct) (lit "#") = false /\ one_line (fst ct) = true)
  /\ Forall (fun t => (t <> [] /\ tight t /\ ~ In SEMICOLON t)
                      /\ one_line t = true) (snd ct).

(** The three counts of the inventory, by kind. *)
Definition three_counts (p i o : Z) : pydict Z :=
  [(lit "pdf", p); (lit "image", i); (lit "other", o)].

(** ** Inputs of the examples *)

Module Demo.

Definition rules : rules_t :=
  [(lit "INVOICE", [lit "ci:invoice"; lit "ci:nota fiscal"]);
   (lit "TAX", [lit "imposto"])].

Definition rules_text : str :=
  lit "INVOICE: ci:invoice; ci:nota fiscal" ++ [10%N] ++ lit "TAX: imposto".

Definition text : str := lit "Invoice total. Nota Fiscal 123. INVOICE due.".

Definition scored : list scored_t :=
  [(lit "INVOICE", 3%Z, lit "ci:invoice(2), ci:nota fiscal(1)");
   (lit "TAX", 0%Z, [])].

Definition row : list (key * value) :=
  [(Some (lit "id"), Str (lit "1"));
   (Some (lit "relpath"), Str (lit "input/a.pdf"));
   (Some (lit "kind"), Str (lit "pdf"));
   (Some (lit "needs_ocr"), Str (lit "no"))].

Definition st0 : counters :=
  {| out_rows := []; auto := 0; review := 0; no_text := 0 |}.

(** The counters after [row] with a blank text. *)
Definition st1 : counters :=
  {| out_rows :=
       [set_fields row
          [(lit "label", lit "NO_TEXT"); (lit "score", lit "0");
           (lit "hits", []); (lit "top2_label", []); (lit "top2_score", []);
           (lit "decision", lit "NEEDS_OCR_OR_BETTER_EXTRACT")]];
     auto := 0; review := 0; no_text := 1 |}.

(** The counters after [row] with the text of the examples. *)
Definition final : counters :=
  {| out_rows :=
       [set_fields row
          [(lit "label", lit "INVOICE"); (lit "score", lit "3");
           (lit "hits", lit "ci:invoice(2), ci:nota fiscal(1)");
           (lit "top2_label", lit "TAX"); (lit "top2_score", lit "0");
           (lit "decision", lit "AUTO")]];
     auto := 1; review := 0; no_text := 0 |}.

(** The text directory with the one file of [row]. *)
Definition texts : text_dir :=
  fun name =>
    if str_eqb name (lit "input__a.pdf.txt") then Ok (Some text) else Ok None.

Definition no_texts : text_dir := fun _ => Ok None.

(** A text directory where the operating system refuses every name. *)
Definition refused : text_dir := fun _ => Raise OSError.

Definition est0 : Extract.state :=
  {| Extract.ok := 0; Extract.empty := 0; Extract.failed := 0;
     Extract.skipped_ocr := 0; Extract.files := [] |}.

(** A PDF of two pages, the second without text. *)
Definition readers : str -> pyres (list Extract.page) :=
  fun _ => Ok [Ok (Some text); Ok None].

(** A PDF with a page of whitespace and a page that fails. *)
Definition blank_readers : str -> pyres (list Extract.page) :=
  fun _ => Ok [Ok (Some [32%N; 10%N]); Raise KeyError].

Definition image_row : list (key * value) :=
  [(Some (lit "id"), Str (lit "2"));
   (Some (lit "relpath"), Str (lit "input/b.png"));
   (Some (lit "kind"), Str (lit "image"));
   (Some (lit "needs_ocr"), Str (lit "yes"))].

(** The extraction after [row] and [image_row]. *)
Definition efinal : Extract.state :=
  {| Extract.ok := 1; Extract.empty := 0; Extract.failed := 0;
     Extract.skipped_ocr := 0;
     Extract.files := [(lit "input__a.pdf.txt", text)] |}.

Definition files : list Inventory.file :=
  [{| Inventory.relpath := lit "input/a.pdf"; Inventory.ext := lit ".pdf";
      Inventory.size := Ok 120%Z; Inventory.sha1 := Ok (lit "da39");
      Inventory.data := Ok (lit "%PDF /Font BT (x) Tj ET") |};
   {| Inventory.relpath := lit "input/b.png"; Inventory.ext := lit ".png";
      Inventory.size := Ok 7%Z; Inventory.sha1 := Raise KeyError;
      Inventory.data := Raise KeyError |};
   {| Inventory.relpath := lit "input/c.doc"; Inventory.ext := lit ".doc";
      Inventory.size := Ok 0%Z; Inventory.sha1 := Ok (lit "77de");
      Inventory.data := Ok [] |}].

End Demo.

(** * Properties *)

(** ** Strings and dictionaries *)

Lemma str_eqb_eq (a b : str) : str_eqb a b = true <-> a = b.
Proof.
  revert b; induction a as [|x a IH]; intros [|y b]; simpl;
    try (split; [discriminate | congruence]); try tauto.
  rewrite andb_true_iff, IH. unfold char_eqb. rewrite N.eqb_eq.
  split; [intros [-> ->]; reflexivity | intros H; inversion H; auto].
Qed.

Lemma str_eqb_refl (a : str) : str_eqb a a = true.
Proof. apply str_eqb_eq; reflexivity. Qed.

Lemma str_eqb_neq (a b : str) : str_eqb a b = false <-> a <> b.
Proof.
  rewrite <- str_eqb_eq. destruct (str_eqb a b); split; congruence.
Qed.

Lemma dict_get_set_same {V} (d : pydict V) k v :
  dict_get (dict_set d k v) k = Some v.
Proof.
  induction d as [|[k' v'] d IH]; simpl.
  - now rewrite str_eqb_refl.
  - destruct (str_eqb k' k) eqn:E; simpl; rewrite E; auto.
Qed.

Lemma dict_get_set_other {V} (d : pydict V) k k' v :
  k <> k' -> dict_get (dict_set d k v) k' = dict_get d k'.
Proof.
  intros N. induction d as [|[k0 v0] d IH]; simpl.
  - apply str_eqb_neq in N. now rewrite N.
  - destruct (str_eqb k0 k) eqn:E; simpl.
    + apply str_eqb_eq in E; subst k0.
      apply str_eqb_neq in N. now rewrite N.
    + destruct (str_eqb k0 k'); auto.
Qed.

Lemma keys_dict_set {V} (d : pydict V) k v k' :
  In k' (keys (dict_set d k v)) <-> k' = k \/ In k' (keys d).
Proof.
  unfold keys. induction d as [|[k0 v0] d IH]; simpl.
  - intuition.
  - destruct (str_eqb k0 k) eqn:E; simpl.
    + apply str_eqb_eq in E; subst. intuition.
    + rewrite IH. intuition.
Qed.

Lemma NoDup_keys_dict_set {V} (d : pydict V) k v :
  NoDup (keys d) -> NoDup (keys (dict_set d k v)).
Proof.
  unfold keys. induction d as [|[k0 v0] d IH]; simpl; intros H.
  - constructor; [intros [] | constructor].
  - inversion H as [|? ? Hn Hd]; subst.
    destruct (str_eqb k0 k) eqn:E; simpl.
    + constructor; assumption.
    + constructor; [|auto].
      intros Hin. apply (keys_dict_set d k v k0) in Hin.
      destruct Hin as [->|Hin]; [|contradiction].
      now rewrite str_eqb_refl in E.
Qed.

(** ** Loading the rules *)

Lemma load_rules_line_spec (rules : rules_t) (line : str) :
  load_rules_line rules line =
  match rule_of_line line with
  | None => rules
  | Some (cat, terms) => dict_set rules cat terms
  end.
Proof.
  unfold load_rules_line, rule_of_line, skipped.
  destruct (negb (truthy (strip line))); simpl; [reflexivity|].
  destruct (startswith (strip line) (lit "#")); simpl; [reflexivity|].
  destruct (negb (contains COLON (strip line))); simpl; [reflexivity|].
  destruct (split1 COLON (strip line)); reflexivity.
Qed.

Lemma fold_load_rules_lines (lines : list str) (d : rules_t) :
  fold_left load_rules_line lines d = fold_left add_rule (rule_lines lines) d.
Proof.
  revert d; induction lines as [|l lines IH]; intros d; simpl; [reflexivity|].
  rewrite load_rules_line_spec, IH. unfold rule_lines at 2; simpl.
  fold (rule_lines lines).
  destruct (rule_of_line l) as [[c t]|]; reflexivity.
Qed.

Lemma NoDup_keys_fold (rs : list (str * list str)) (d : rules_t) :
  NoDup (keys d) -> NoDup (keys (fold_left add_rule rs d)).
Proof.
  revert d; induction rs as [|r rs IH]; intros d H; simpl; auto.
  apply IH. apply NoDup_keys_dict_set; assumption.
Qed.

Lemma find_app_first {A} (f : A -> bool) (l1 l2 : list A) :
  find f (l1 ++ l2) =
  match find f l1 with Some x => Some x | None => find f l2 end.
Proof.
  induction l1 as [|x l1 IH]; simpl; [reflexivity|].
  destruct (f x); auto.
Qed.

Lemma dict_get_update {V} (kvs : list (str * V)) (d : pydict V) (k : str) :
  dict_get (fold_left (fun d kv => dict_set d (fst kv) (snd kv)) kvs d) k =
  match find (fun kv => str_eqb (fst kv) k) (rev kvs) with
  | Some kv => Some (snd kv)
  | None => dict_get d k
  end.
Proof.
  revert d; induction kvs as [|[c t] kvs IH]; intros d; simpl; [reflexivity|].
  rewrite IH, find_app_first.
  destruct (find (fun kv => str_eqb (fst kv) k) (rev kvs)); [reflexivity|].
  simpl. destruct (str_eqb c k) eqn:E.
  - apply str_eqb_eq in E; subst. apply dict_get_set_same.
  - apply dict_get_set_other. now apply str_eqb_neq.
Qed.

Lemma dict_get_fold (rs : list (str * list str)) (d : rules_t) (cat : str) :
  dict_get (fold_left add_rule rs d) cat =
  match find (fun r => str_eqb (fst r) cat) (rev rs) with
  | Some r => Some (snd r)
  | None => dict_get d cat
  end.
Proof. apply (dict_get_update rs d cat). Qed.

Lemma fold_add_rule_nil (rs : list (str * list str)) (d : rules_t) :
  fold_left add_rule rs d = [] <-> rs = [] /\ d = [].
Proof.
  revert d; induction rs as [|r rs IH]; intros d; simpl.
  - intuition.
  - rewrite IH. split; [intros [_ H]|intros [H _]; discriminate].
    unfold add_rule in H. destruct d as [|[k v] d]; simpl in H; [discriminate|].
    destruct (str_eqb k (fst r)); discriminate.
Qed.

(** C8.  Category names in the loaded rules are unique, and the terms found
    under a name are those of the last line of the definition that names
    it: a later line replaces an earlier one whole. *)
Theorem load_rules_last_one_wins (text : str) :
  NoDup (keys (load_rules text)) /\
  forall cat, dict_get (load_rules text) cat = last_rule cat (splitlines text).
Proof.
  unfold load_rules, load_rules_lines. rewrite fold_load_rules_lines. split.
  - apply NoDup_keys_fold. constructor.
  - intros cat. rewrite dict_get_fold. unfold last_rule.
    destruct (find _ _); reflexivity.
Qed.

Lemma rule_of_line_none (line : str) :
  rule_of_line line = None <-> skipped line = true.
Proof.
  unfold rule_of_line. destruct (skipped line).
  - tauto.
  - destruct (split1 COLON (strip line)). split; discriminate.
Qed.

Lemma rule_lines_app (l1 l2 : list str) :
  rule_lines (l1 ++ l2) = rule_lines l1 ++ rule_lines l2.
Proof. unfold rule_lines. apply flat_map_app. Qed.

Lemma rule_lines_nil (lines : list str) :
  rule_lines lines = [] <-> forall l, In l lines -> skipped l = true.
Proof.
  induction lines as [|l lines IH]; simpl.
  - split; [intros _ ? [] | reflexivity].
  - unfold rule_lines; simpl; fold (rule_lines lines).
    destruct (rule_of_line l) as [r|] eqn:E.
    + split; [discriminate|]. intros H.
      assert (S : skipped l = true) by (apply H; auto).
      apply rule_of_line_none in S. congruence.
    + simpl. rewrite IH. apply rule_of_line_none in E.
      split; [intros H x [<-|Hx]; auto | intros H x Hx; apply H; auto].
Qed.

Section Loading.

Context {L : PyLib}.

(** C7, as the code has it.  Loading never fails on a line: a blank line,
    a comment line and a line without a colon leave the rules as they are,
    and every other line enters a category, the lines after it being read
    all the same.  A line whose category name is empty is such a line and
    is not skipped.  The run stops on the rules only when no line at all
    enters a category. *)
Theorem load_rules_tolerant (text : str) :
  load_rules text = fold_left add_rule (rule_lines (splitlines text)) []
  /\ (forall before line after, skipped line = true ->
        load_rules_lines (before ++ line :: after)
        = load_rules_lines (before ++ after))
  /\ (forall d line, skipped line = false ->
        exists cat terms,
          load_rules_line d line = dict_set d cat terms
          /\ dict_get (load_rules_line d line) cat = Some terms)
  /\ (forall texts rows,
        (exists msg, run texts text rows = SystemExit msg)
        <-> load_rules text = [])
  /\ (load_rules text = []
      <-> forall line, In line (splitlines text) -> skipped line = true).
Proof.
  assert (E : forall lines,
             load_rules_lines lines = fold_left add_rule (rule_lines lines) []).
  { intros lines. unfold load_rules_lines. apply fold_load_rules_lines. }
  split; [apply E|]. split; [|split; [|split]].
  - intros before line after S. rewrite !E, !rule_lines_app.
    change (line :: after) with ([line] ++ after). rewrite rule_lines_app.
    apply rule_of_line_none in S. unfold rule_lines at 2; simpl.
    rewrite S. reflexivity.
  - intros d line S. rewrite load_rules_line_spec.
    destruct (rule_of_line line) as [[c t]|] eqn:R.
    + exists c, t. split; [reflexivity | apply dict_get_set_same].
    + apply rule_of_line_none in R. congruence.
  - intros texts rows. unfold run.
    destruct (load_rules text) as [|x d].
    + split; [reflexivity | intros _; eexists; reflexivity].
    + split; [|discriminate]. intros [msg H].
      destruct (process_rows _ _ _ _) as [st|e]; [|discriminate].
      destruct (writerows (out_rows st)); discriminate.
  - unfold load_rules. rewrite E, fold_add_rule_nil, <- rule_lines_nil.
    tauto.
Qed.

End Loading.

(** C7, the part that fails: a line with an empty category name is read
    like any other rule line, and the rules it leaves are not empty. *)
Lemma empty_category_line_is_loaded :
  load_rules (lit ":foo") = [([], [lit "foo"])]
  /\ load_rules (lit ":foo") <> load_rules [].
Proof. split; [reflexivity | discriminate]. Qed.

(** ** The sort of the ranking *)

Lemma insert_desc_perm (x : scored_t) (l : list scored_t) :
  Permutation (insert_desc x l) (x :: l).
Proof.
  induction l as [|y l IH]; simpl; [reflexivity|].
  destruct (score_of x >=? score_of y)%Z; [reflexivity|].
  rewrite IH. apply perm_swap.
Qed.

Lemma sort_desc_perm (l : list scored_t) : Permutation (sort_desc l) l.
Proof.
  induction l as [|x l IH]; simpl; [reflexivity|].
  rewrite insert_desc_perm. now constructor.
Qed.

Lemma insert_desc_descending (x : scored_t) (l : list scored_t) :
  descending l -> descending (insert_desc x l).
Proof.
  unfold descending. induction l as [|y l IH]; simpl; intros H.
  - constructor; constructor.
  - inversion H as [|? ? Hs Hf]; subst.
    destruct (score_of x >=? score_of y)%Z eqn:E.
    + apply Z.geb_le in E. constructor; [assumption|].
      constructor; [lia|].
      eapply Forall_impl; [|exact Hf]. simpl; intros; lia.
    + assert (score_of x < score_of y)%Z.
      { destruct (Z.geb_spec (score_of x) (score_of y)); [discriminate|lia]. }
      constructor; [auto|].
      eapply Permutation_Forall; [symmetry; apply insert_desc_perm|].
      constructor; [lia | assumption].
Qed.

Lemma sort_desc_descending (l : list scored_t) : descending (sort_desc l).
Proof.
  induction l as [|x l IH]; simpl.
  - constructor.
  - now apply insert_desc_descending.
Qed.

Lemma insert_desc_stable (z : Z) (x : scored_t) (l : list scored_t) :
  with_score z (insert_desc x l) = with_score z (x :: l).
Proof.
  unfold with_score. induction l as [|y l IH]; simpl; [reflexivity|].
  destruct (score_of x >=? score_of y)%Z eqn:E; [reflexivity|].
  assert (Hlt : (score_of x < score_of y)%Z).
  { destruct (Z.geb_spec (score_of x) (score_of y)); [discriminate|lia]. }
  simpl. rewrite IH. simpl.
  destruct (Z.eqb_spec (score_of y) z), (Z.eqb_spec (score_of x) z);
    try reflexivity; lia.
Qed.

Lemma sort_desc_stable (z : Z) (l : list scored_t) :
  with_score z (sort_desc l) = with_score z l.
Proof.
  induction l as [|x l IH]; simpl; [reflexivity|].
  rewrite insert_desc_stable. unfold with_score in *; simpl.
  now rewrite IH.
Qed.

(** ** What the cleaning stages keep *)

Lemma sub_go_In (m : str -> nat) (repl : str) (s : str) :
  forall k c, In c (sub_go m repl k s) -> In c s \/ In c repl.
Proof.
  induction s as [|x s IH]; simpl; intros k c H; [contradiction|].
  destruct k as [|k].
  - destruct (m (x :: s)) as [|j].
    + destruct H as [<-|H]; [auto|]. destruct (IH _ _ H); auto.
    + apply in_app_or in H. destruct H as [H|H]; [auto|].
      destruct (IH _ _ H); auto.
  - destruct (IH _ _ H); auto.
Qed.

Lemma lstrip_In (s : str) (c : char) : In c (lstrip s) -> In c s.
Proof.
  induction s as [|x s IH]; simpl; [auto|].
  destruct (is_space x); simpl; auto.
Qed.

Lemma strip_In (s : str) (c : char) : In c (strip s) -> In c s.
Proof.
  unfold strip, rstrip. intros H.
  rewrite <- in_rev in H. apply lstrip_In in H. rewrite <- in_rev in H.
  now apply lstrip_In.
Qed.

Lemma clean_tail_In (s : str) (c : char) :
  In c (clean_tail s) -> In c s \/ c = SPACE.
Proof.
  unfold clean_tail, replace, re_sub. intros H.
  apply strip_In in H.
  repeat (apply sub_go_In in H; destruct H as [H|H];
          [|simpl in H; intuition]).
  auto.
Qed.

Lemma ascii_text_clean_tail (s : str) :
  ascii_text s = true -> ascii_text (clean_tail s) = true.
Proof.
  unfold ascii_text. rewrite !forallb_forall. intros H c Hc.
  apply clean_tail_In in Hc. destruct Hc as [Hc| ->]; [auto | reflexivity].
Qed.

(** ** ASCII text

    On ASCII text and plain terms, a library that follows the standard
    computes what the small instance computes. *)

Lemma small_decompose_ascii (c : char) :
  is_ascii c = true -> Small.decompose c = [c].
Proof.
  unfold is_ascii, Small.decompose, char_eqb. intros H. apply N.ltb_lt in H.
  repeat match goal with
         | |- context [N.eqb ?a ?b] => destruct (N.eqb_spec a b); [lia|]
         end.
  reflexivity.
Qed.

Lemma small_nfkd_ascii (s : str) : ascii_text s = true -> Small.nfkd s = s.
Proof.
  unfold ascii_text, Small.nfkd. induction s as [|c s IH]; simpl; [reflexivity|].
  rewrite andb_true_iff. intros [Hc Hs].
  rewrite small_decompose_ascii, IH by assumption. reflexivity.
Qed.

Lemma small_compose_ascii (b m : char) :
  is_ascii m = true -> Small.compose b m = None.
Proof.
  unfold is_ascii, Small.compose, Small.ACUTE, Small.TILDE, Small.CEDILLA,
    char_eqb.
  intros H. apply N.ltb_lt in H.
  destruct (N.eqb_spec m 769); [lia|].
  destruct (N.eqb_spec m 771); [lia|].
  destruct (N.eqb_spec m 807); [lia|]. reflexivity.
Qed.

Lemma small_compose_all_ascii (s : str) :
  ascii_text s = true -> Small.compose_all s = s.
Proof.
  unfold ascii_text. induction s as [|b s IH]; [reflexivity|].
  intros H. simpl in H. apply andb_true_iff in H. destruct H as [Hb Hs].
  destruct s as [|m r]; [reflexivity|].
  change (Small.compose_all (b :: m :: r))
    with (match Small.compose b m with
          | Some c => c :: Small.compose_all r
          | None => b :: Small.compose_all (m :: r)
          end).
  pose proof Hs as Hs'. simpl in Hs'. apply andb_true_iff in Hs'.
  rewrite small_compose_ascii by tauto. now rewrite IH.
Qed.

Lemma small_fold_char_ascii (c : char) :
  is_ascii c = true -> Small.fold_char c = [ascii_lower c].
Proof.
  unfold is_ascii, Small.fold_char, ascii_lower. intros H. apply N.ltb_lt in H.
  destruct ((65 <=? c) && (c <=? 90))%N; [reflexivity|].
  destruct (N.leb_spec 192 c); [lia|]. simpl.
  destruct (N.eqb_spec c 223); [lia|]. reflexivity.
Qed.

#[export] Instance small_ascii_laws : AsciiLaws Small.lib.
Proof.
  split; simpl.
  - intros s H. unfold Small.nfkc.
    rewrite small_nfkd_ascii by assumption. now apply small_compose_all_ascii.
  - unfold ascii_text, Small.casefold.
    induction s as [|c s IH]; simpl; [reflexivity|].
    rewrite andb_true_iff. intros [Hc Hs].
    rewrite small_fold_char_ascii, IH by assumption. reflexivity.
Qed.

Section AsciiText.

Context {L : PyLib} {A : AsciiLaws L}.

Lemma clean_ascii (s : str) :
  ascii_text s = true -> _clean_unicode_common s = clean_tail s.
Proof.
  intros H. unfold _clean_unicode_common. rewrite nfkc_ascii by assumption.
  reflexivity.
Qed.

Lemma normalize_ascii (s : str) (cf : bool) :
  ascii_text s = true ->
  normalize s cf false =
  if cf then map ascii_lower (clean_tail s) else clean_tail s.
Proof.
  intros H. unfold normalize. rewrite clean_ascii by assumption.
  destruct cf; [|reflexivity].
  apply casefold_ascii. now apply ascii_text_clean_tail.
Qed.

End AsciiText.

Section Transfer.

Context {L : PyLib} {A : AsciiLaws L}.

Lemma term_match_count_plain (text term : str) :
  ascii_text text = true -> plain_term term = true ->
  @term_match_count L text term = @term_match_count Small.lib text term.
Proof.
  intros Ht Hp. unfold plain_term in Hp. unfold term_match_count.
  destruct (parse_term term) as [mode payload]; simpl in Hp.
  destruct mode; try discriminate.
  - rewrite !(@clean_ascii L A), !(@clean_ascii Small.lib _) by assumption.
    reflexivity.
  - unfold count_literal.
    rewrite !(@normalize_ascii L A), !(@normalize_ascii Small.lib _)
      by assumption.
    reflexivity.
Qed.

Lemma score_terms_plain (text : str) (terms : list str) :
  ascii_text text = true -> forallb plain_term terms = true ->
  forall score hits,
    @score_terms L text terms score hits
    = @score_terms Small.lib text terms score hits.
Proof.
  intros Ht. induction terms as [|t terms IH]; simpl; intros Hp score hits.
  - reflexivity.
  - apply andb_true_iff in Hp. destruct Hp as [Hp1 Hp2].
    rewrite term_match_count_plain by assumption.
    destruct (term_match_count text t) as [c|e]; simpl; [|reflexivity].
    destruct (c >? 0)%Z; apply IH; assumption.
Qed.

Lemma score_all_plain (text : str) (rules : rules_t) :
  ascii_text text = true -> plain_rules rules = true ->
  @score_all L text rules = @score_all Small.lib text rules.
Proof.
  intros Ht. unfold plain_rules.
  induction rules as [|[cat terms] rules IH]; simpl; intros Hp.
  - reflexivity.
  - apply andb_true_iff in Hp. destruct Hp as [Hp1 Hp2].
    rewrite score_terms_plain, IH by assumption. reflexivity.
Qed.

Lemma best_two_categories_plain (text : str) (rules : rules_t) :
  ascii_text text = true -> plain_rules rules = true ->
  @best_two_categories L text rules = @best_two_categories Small.lib text rules.
Proof.
  intros Ht Hp. unfold best_two_categories, ranking.
  now rewrite score_all_plain.
Qed.

Lemma classify_text_plain (rules : rules_t) (st : counters) (r : row)
    (text : str) :
  ascii_text text = true -> plain_rules rules = true ->
  @classify_text L rules st r text = @classify_text Small.lib rules st r text.
Proof.
  intros Ht Hp. unfold classify_text.
  now rewrite best_two_categories_plain.
Qed.

End Transfer.

(** ** Blank text *)

Lemma lstrip_nil (s : str) : lstrip s = [] <-> forallb is_space s = true.
Proof.
  induction s as [|c s IH]; simpl; [tauto|].
  destruct (is_space c); simpl; [assumption|].
  split; discriminate.
Qed.

Lemma forallb_lstrip (s : str) :
  forallb is_space (lstrip s) = forallb is_space s.
Proof.
  induction s as [|c s IH]; simpl; [reflexivity|].
  destruct (is_space c) eqn:E; simpl; [assumption|].
  now rewrite E.
Qed.

Lemma forallb_rev {A} (f : A -> bool) (l : list A) :
  forallb f (rev l) = forallb f l.
Proof.
  induction l as [|x l IH]; simpl; [reflexivity|].
  rewrite forallb_app, IH. simpl. rewrite andb_true_r. apply andb_comm.
Qed.

Lemma truthy_rev (s : str) : truthy (rev s) = truthy s.
Proof.
  destruct s as [|c s]; simpl; [reflexivity|].
  destruct (rev s); reflexivity.
Qed.

Lemma truthy_false (s : str) : truthy s = false <-> s = [].
Proof. destruct s; simpl; split; congruence. Qed.

(** [text.strip()] is empty exactly when every character is whitespace. *)
Lemma truthy_strip (s : str) : truthy (strip s) = negb (forallb is_space s).
Proof.
  unfold strip, rstrip. rewrite truthy_rev.
  rewrite <- (forallb_lstrip s), <- (forallb_rev is_space (lstrip s)).
  destruct (lstrip (rev (lstrip s))) eqn:E.
  - apply lstrip_nil in E. now rewrite E.
  - symmetry. apply negb_true_iff.
    destruct (forallb is_space (rev (lstrip s))) eqn:F; [|reflexivity].
    apply lstrip_nil in F. congruence.
Qed.

(** ** Fields of an output row *)

Lemma key_eqb_eq (a b : key) : key_eqb a b = true <-> a = b.
Proof.
  destruct a as [a|], b as [b|]; simpl;
    try (split; [discriminate | congruence]); [|tauto].
  rewrite str_eqb_eq. split; congruence.
Qed.

Lemma key_eqb_refl (a : key) : key_eqb a a = true.
Proof. apply key_eqb_eq; reflexivity. Qed.

Lemma key_eqb_neq (a b : key) : key_eqb a b = false <-> a <> b.
Proof.
  rewrite <- key_eqb_eq. destruct (key_eqb a b); split; congruence.
Qed.

Lemma row_get_set_same (r : row) (k : key) (v : value) :
  row_get (row_set r k v) k = Some v.
Proof.
  induction r as [|[k' v'] r IH]; simpl.
  - now rewrite key_eqb_refl.
  - destruct (key_eqb k' k) eqn:E; simpl; rewrite E; auto.
Qed.

Lemma row_get_set_other (r : row) (k k' : key) (v : value) :
  k <> k' -> row_get (row_set r k v) k' = row_get r k'.
Proof.
  intros N. induction r as [|[k0 v0] r IH]; simpl.
  - apply key_eqb_neq in N. now rewrite N.
  - destruct (key_eqb k0 k) eqn:E; simpl.
    + apply key_eqb_eq in E; subst k0.
      apply key_eqb_neq in N. now rewrite N.
    + destruct (key_eqb k0 k'); auto.
Qed.

Lemma row_get_set_fields (r : row) (fields : list (str * str)) (k : key) :
  row_get (set_fields r fields) k =
  match find (fun kv => key_eqb (Some (fst kv)) k) (rev fields) with
  | Some kv => Some (Str (snd kv))
  | None => row_get r k
  end.
Proof.
  unfold set_fields.
  revert r; induction fields as [|[c t] fields IH]; intros r;
    [reflexivity|].
  cbn [fold_left rev fst snd]. rewrite IH, find_app_first.
  destruct (find (fun kv => key_eqb (Some (fst kv)) k) (rev fields));
    [reflexivity|].
  cbn [find fst snd]. destruct (key_eqb (Some c) k) eqn:E.
  - apply key_eqb_eq in E; subst. apply row_get_set_same.
  - apply row_get_set_other. now apply key_eqb_neq.
Qed.

Lemma field_set_fields (r : row) (fields : list (str * str)) (name : string) :
  field (set_fields r fields) name =
  match find (fun kv => str_eqb (fst kv) (lit name)) (rev fields) with
  | Some kv => Some (snd kv)
  | None => field r name
  end.
Proof.
  unfold field. rewrite row_get_set_fields. cbn [key_eqb].
  destruct (find _ (rev fields)); reflexivity.
Qed.

Section Decision.

Context {L : PyLib}.

Lemma classify_text_raises (rules : rules_t) (st : counters) (r : row)
    (text : str) (e : exn) :
  forallb is_space text = false ->
  best_two_categories text rules = Raise e ->
  classify_text rules st r text = Raise e.
Proof.
  intros Hs Hb. unfold classify_text.
  rewrite truthy_strip, Hs, Hb. reflexivity.
Qed.

(** C1.  For a text that is not blank, the row written for the document has
    the top category as its label, and its decision is AUTO exactly when the
    top score is at least 2, exceeds the runner-up's by more than 1, and the
    top category is not UNKNOWN; it is REVIEW otherwise, in particular at a
    top score of 2 with a lead of exactly 1.  Nothing is written when the
    scorer raises. *)
Theorem decision_auto_iff (rules : rules_t) (st : counters) (r : row)
    (text : str) :
  forallb is_space text = false ->
  match best_two_categories text rules with
  | Raise e => classify_text rules st r text = Raise e
  | Ok ((c1, s1, h1), (c2, s2, h2)) =>
      exists st' out,
        classify_text rules st r text = Ok st'
        /\ out_rows st' = out_rows st ++ [out]
        /\ field out "label" = Some c1
        /\ (field out "decision" = Some (lit "AUTO")
            <-> (s1 >= 2 /\ s1 - s2 > 1 /\ c1 <> lit "UNKNOWN")%Z)
        /\ (field out "decision" = Some (lit "AUTO")
            \/ field out "decision" = Some (lit "REVIEW"))
        /\ (s1 = 2%Z -> (s1 - s2 = 1)%Z ->
            field out "decision" = Some (lit "REVIEW"))
  end.
Proof.
  intros Hs.
  destruct (best_two_categories text rules)
    as [[[[c1 s1] h1] [[c2 s2] h2]]|e] eqn:Hb;
    [|now apply classify_text_raises].
  unfold classify_text.
  rewrite truthy_strip, Hs, Hb. simpl negb. cbv iota. cbv beta iota zeta.
  eexists. eexists. split; [reflexivity|]. split; [reflexivity|].
  rewrite !field_set_fields.
  split; [reflexivity|].
  change (find _ (rev _)) with
    (Some (lit "decision",
           if ((s1 >=? DEFAULT_AUTO_THRESHOLD)%Z
               && (s1 - s2 >? DEFAULT_REVIEW_GAP)%Z
               && negb (str_eqb c1 UNKNOWN))
           then lit "AUTO" else lit "REVIEW")).
  cbv beta iota. unfold snd.
  assert (B : ((s1 >=? DEFAULT_AUTO_THRESHOLD)%Z
               && (s1 - s2 >? DEFAULT_REVIEW_GAP)%Z
               && negb (str_eqb c1 UNKNOWN)) = true
              <-> (s1 >= 2 /\ s1 - s2 > 1 /\ c1 <> lit "UNKNOWN")%Z).
  { unfold DEFAULT_AUTO_THRESHOLD, DEFAULT_REVIEW_GAP, UNKNOWN.
    rewrite !andb_true_iff, negb_true_iff, str_eqb_neq.
    rewrite Z.geb_le, Z.gtb_lt. intuition lia. }
  destruct ((s1 >=? DEFAULT_AUTO_THRESHOLD)%Z
            && (s1 - s2 >? DEFAULT_REVIEW_GAP)%Z
            && negb (str_eqb c1 UNKNOWN)).
  - split; [|split; [auto|]].
    + split; [intros _; now apply B | reflexivity].
    + intros E1 E2. assert (s1 >= 2 /\ s1 - s2 > 1 /\ c1 <> lit "UNKNOWN")%Z
        by now apply B. lia.
  - split; [|split; [auto|reflexivity]].
    split; [discriminate|]. intros H. apply B in H. discriminate.
Qed.

(** C4.  A text that is empty or all whitespace, as it was read, gets the
    NO_TEXT row: score 0, no hits, decision NEEDS_OCR_OR_BETTER_EXTRACT, and
    the count of such documents goes up by one.  The scorer is not called:
    the result is the same for every set of rules and every library the
    scorer would run on, one whose regex engine always raises included. *)
Theorem blank_text_needs_ocr (rules : rules_t) (st : counters) (r : row)
    (text : str) :
  forallb is_space text = true ->
  exists out,
    classify_text rules st r text =
      Ok {| out_rows := out_rows st ++ [out];
            auto := auto st;
            review := review st;
            no_text := (no_text st + 1)%Z |}
    /\ field out "label" = Some (lit "NO_TEXT")
    /\ field out "score" = Some (lit "0")
    /\ field out "hits" = Some []
    /\ field out "decision" = Some (lit "NEEDS_OCR_OR_BETTER_EXTRACT")
    /\ forall (L' : PyLib) (rules' : rules_t),
         @classify_text L' rules' st r text = classify_text rules st r text.
Proof.
  intros Hs. unfold classify_text. rewrite !truthy_strip, Hs. simpl negb.
  cbv iota. eexists. split; [reflexivity|].
  rewrite !field_set_fields. repeat (split; [reflexivity|]).
  intros L' rules'. reflexivity.
Qed.

End Decision.

(** C1 at the text and rules of scenario B, on the small library. *)
Lemma decision_auto_iff_witness :
  exists st' out,
    @classify_text Small.lib
      [(lit "A", [lit "ci:foo"]); (lit "B", [lit "ci:foo"])]
      {| out_rows := []; auto := 0; review := 0; no_text := 0 |}
      [(Some (lit "relpath"), Str (lit "a.pdf"))] (lit "foo foo") = Ok st'
    /\ out_rows st' = [] ++ [out]
    /\ field out "label" = Some (lit "A")
    /\ (field out "decision" = Some (lit "AUTO")
        <-> (2 >= 2 /\ 2 - 2 > 1 /\ lit "A" <> lit "UNKNOWN")%Z)
    /\ (field out "decision" = Some (lit "AUTO")
        \/ field out "decision" = Some (lit "REVIEW"))
    /\ (2%Z = 2%Z -> (2 - 2 = 1)%Z ->
        field out "decision" = Some (lit "REVIEW")).
Proof.
  exact (@decision_auto_iff Small.lib
           [(lit "A", [lit "ci:foo"]); (lit "B", [lit "ci:foo"])]
           {| out_rows := []; auto := 0; review := 0; no_text := 0 |}
           [(Some (lit "relpath"), Str (lit "a.pdf"))] (lit "foo foo") eq_refl).
Defined.

(** C4 at a text of a space, a tab and a line feed. *)
Lemma blank_text_needs_ocr_witness :
  exists out,
    @classify_text Small.lib
      [(lit "A", [lit "re:a{99999999999999999999}"])]
      {| out_rows := []; auto := 0; review := 0; no_text := 0 |}
      [(Some (lit "relpath"), Str (lit "a.pdf"))] [32; 9; 10]%N =
      Ok {| out_rows := [] ++ [out]; auto := 0; review := 0;
            no_text := (0 + 1)%Z |}
    /\ field out "label" = Some (lit "NO_TEXT")
    /\ field out "score" = Some (lit "0")
    /\ field out "hits" = Some []
    /\ field out "decision" = Some (lit "NEEDS_OCR_OR_BETTER_EXTRACT")
    /\ forall (L' : PyLib) (rules' : rules_t),
         @classify_text L' rules'
           {| out_rows := []; auto := 0; review := 0; no_text := 0 |}
           [(Some (lit "relpath"), Str (lit "a.pdf"))] [32; 9; 10]%N
         = @classify_text Small.lib
             [(lit "A", [lit "re:a{99999999999999999999}"])]
             {| out_rows := []; auto := 0; review := 0; no_text := 0 |}
             [(Some (lit "relpath"), Str (lit "a.pdf"))] [32; 9; 10]%N.
Proof.
  apply (@blank_text_needs_ocr Small.lib
           [(lit "A", [lit "re:a{99999999999999999999}"])]
           {| out_rows := []; auto := 0; review := 0; no_text := 0 |}
           [(Some (lit "relpath"), Str (lit "a.pdf"))] [32; 9; 10]%N).
  reflexivity.
Defined.

(** ** Scores *)

Section Scores.

Context {L : PyLib}.

Lemma classify_text_scored (rules : rules_t) (st : counters) (r : row)
    (text : str) (c1 c2 h1 h2 : str) (s1 s2 : Z) :
  forallb is_space text = false ->
  best_two_categories text rules = Ok ((c1, s1, h1), (c2, s2, h2)) ->
  classify_text rules st r text =
  let is_auto :=
    (s1 >=? DEFAULT_AUTO_THRESHOLD)%Z
    && (s1 - s2 >? DEFAULT_REVIEW_GAP)%Z
    && negb (str_eqb c1 UNKNOWN) in
  Ok {| out_rows := out_rows st ++
          [set_fields r
             [(lit "label", c1);
              (lit "score", str_of_int s1);
              (lit "hits", h1);
              (lit "top2_label", c2);
              (lit "top2_score", str_of_int s2);
              (lit "decision", if is_auto then lit "AUTO" else lit "REVIEW")]];
        auto := if is_auto then (auto st + 1)%Z else auto st;
        review := if is_auto then review st else (review st + 1)%Z;
        no_text := no_text st |}.
Proof.
  intros Hs Hb. unfold classify_text. rewrite truthy_strip, Hs, Hb.
  reflexivity.
Qed.

Lemma count_regex_nonneg (text pattern : str) (ic : bool) (n : Z) :
  count_regex text pattern ic = Ok n -> (0 <= n)%Z.
Proof.
  unfold count_regex. destruct (negb (truthy pattern)).
  - intros H; inversion H; lia.
  - destruct (re_findall _ _ _) as [found|[]]; intros H; inversion H; lia.
Qed.

(** A count that is returned is not negative. *)
Lemma term_match_count_nonneg (text term : str) (n : Z) :
  term_match_count text term = Ok n -> (0 <= n)%Z.
Proof.
  unfold term_match_count, count_literal.
  destruct (parse_term term) as [[] payload];
    try apply count_regex_nonneg;
    match goal with
    | |- context [if ?b then _ else _] => destruct b
    end; intros H; inversion H; lia.
Qed.

(** The literal modes always return. *)
Lemma term_match_count_literal_total (text term : str) :
  fst (parse_term term) <> m_re -> fst (parse_term term) <> m_re_i ->
  exists n, term_match_count text term = Ok n /\ (0 <= n)%Z.
Proof.
  unfold term_match_count. destruct (parse_term term) as [[] payload];
    simpl; intros H1 H2; try congruence.
  - destruct (negb (truthy _)); eexists; split; try reflexivity; lia.
  - eexists; split; [reflexivity|]. unfold count_literal.
    destruct (negb (truthy _)); lia.
  - eexists; split; [reflexivity|]. unfold count_literal.
    destruct (negb (truthy _)); lia.
Qed.

(** The regex modes return unless the engine raises something that is not
    [re.error]. *)
Lemma term_match_count_regex_total (text term : str) (ic : bool) :
  fst (parse_term term) = (if ic then m_re_i else m_re) ->
  (forall e, re_findall (unquote_if_needed (snd (parse_term term)))
               (_clean_unicode_common text)
               {| MULTILINE := true; IGNORECASE := ic |} = Raise e ->
             e = re_error) ->
  exists n, term_match_count text term = Ok n /\ (0 <= n)%Z.
Proof.
  unfold term_match_count. destruct (parse_term term) as [mode payload].
  simpl. intros -> H.
  assert (G : exists n, count_regex (_clean_unicode_common text)
                          (unquote_if_needed payload) ic = Ok n).
  { unfold count_regex. destruct (negb (truthy _)); [eexists; reflexivity|].
    destruct (re_findall _ _ _) as [found|e] eqn:E; [eexists; reflexivity|].
    rewrite (H e eq_refl). eexists; reflexivity. }
  destruct G as [n G]. exists n.
  split; [destruct ic; exact G | eapply count_regex_nonneg; exact G].
Qed.

Lemma score_terms_grows (text : str) (terms : list str) :
  forall s h s' h',
    score_terms text terms s h = Ok (s', h') ->
    (s <= s')%Z /\ (s' = s -> h' = h).
Proof.
  induction terms as [|t terms IH]; simpl; intros s h s' h' H.
  - inversion H; subst. split; [lia | reflexivity].
  - destruct (term_match_count text t) as [c|e] eqn:E; simpl in H;
      [|discriminate].
    destruct (Z.gtb_spec c 0).
    + apply IH in H. destruct H as [H1 H2]. split; [lia|]. intros; lia.
    + now apply IH in H.
Qed.

Lemma score_terms_sum (text : str) (terms : list str) :
  forall s h s' h',
    score_terms text terms s h = Ok (s', h') ->
    sum_counts text terms = Ok (s' - s)%Z.
Proof.
  induction terms as [|t terms IH]; simpl; intros s h s' h' H.
  - inversion H; subst. f_equal. lia.
  - destruct (term_match_count text t) as [c|e] eqn:E; simpl in H;
      [|discriminate].
    apply term_match_count_nonneg in E. simpl.
    destruct (Z.gtb_spec c 0); apply IH in H; rewrite H; simpl;
      f_equal; lia.
Qed.

Lemma score_all_sums (text : str) (rules : rules_t) (scored : list scored_t) :
  score_all text rules = Ok scored ->
  Forall2 (fun ct x => cat_of x = fst ct
                       /\ sum_counts text (snd ct) = Ok (score_of x))
    rules scored.
Proof.
  revert scored; induction rules as [|[cat terms] rules IH]; simpl;
    intros scored H.
  - inversion H; constructor.
  - destruct (score_terms text terms 0 []) as [[s h]|e] eqn:E; simpl in H;
      [|discriminate].
    destruct (score_all text rules) as [tl|e]; simpl in H; [|discriminate].
    inversion H; subst. constructor; [|now apply IH].
    apply score_terms_sum in E. unfold cat_of, score_of; simpl.
    split; [reflexivity|]. rewrite E. f_equal. lia.
Qed.

Lemma score_all_cats (text : str) (rules : rules_t) (scored : list scored_t) :
  score_all text rules = Ok scored -> map cat_of scored = keys rules.
Proof.
  revert scored; induction rules as [|[cat terms] rules IH]; simpl;
    intros scored H.
  - inversion H; reflexivity.
  - destruct (score_terms text terms 0 []) as [sh|e]; simpl in H;
      [|discriminate].
    destruct (score_all text rules) as [tl|e]; simpl in H; [|discriminate].
    inversion H; subst. simpl. f_equal. now apply IH.
Qed.

(** Every score is a non-negative integer, and an entry of score 0 has no
    hits. *)
Lemma score_all_nonneg (text : str) (rules : rules_t) (scored : list scored_t) :
  score_all text rules = Ok scored ->
  Forall (fun x => (0 <= score_of x)%Z /\ (score_of x = 0%Z -> hits_of x = []))
    scored.
Proof.
  revert scored; induction rules as [|[cat terms] rules IH]; simpl;
    intros scored H.
  - inversion H; constructor.
  - destruct (score_terms text terms 0 []) as [[s h]|e] eqn:E; simpl in H;
      [|discriminate].
    destruct (score_all text rules) as [tl|e]; simpl in H; [|discriminate].
    inversion H; subst. constructor; [|now apply IH].
    apply score_terms_grows in E. destruct E as [E1 E2].
    unfold score_of, hits_of; simpl. split; [assumption|].
    intros ->. now rewrite E2.
Qed.

Lemma sort_desc_all_zero (l : list scored_t) :
  Forall (fun x => score_of x = 0%Z) l -> sort_desc l = l.
Proof.
  induction 1 as [|x l Hx Hl IH]; simpl; [reflexivity|].
  rewrite IH. destruct l as [|y l]; simpl; [reflexivity|].
  inversion Hl; subst. rewrite Hx.
  replace (score_of y) with 0%Z by auto. reflexivity.
Qed.

End Scores.

(** ** The ranking and the scenarios *)

Section Ranking.

Context {L : PyLib}.

(** C2, what the code does where the claim fails.  When no term matches,
    the entry at the top of the ranking is the first category of the rules
    with score 0 and no hits, whatever its name: the UNKNOWN entry stands
    in only for a missing runner-up. *)
Theorem no_match_top_is_first_category (text : str) (cat : str)
    (terms : list str) (rest : rules_t) (scored : list scored_t) :
  score_all text ((cat, terms) :: rest) = Ok scored ->
  Forall (fun x => score_of x = 0%Z) scored ->
  exists top2,
    best_two_categories text ((cat, terms) :: rest) = Ok ((cat, 0%Z, []), top2)
    /\ (rest = [] -> top2 = (lit "UNKNOWN", 0%Z, [])).
Proof.
  intros Hs Hz. unfold best_two_categories, ranking. rewrite Hs. simpl.
  rewrite (sort_desc_all_zero Hz).
  pose proof (score_all_cats _ _ Hs) as Hc.
  pose proof (score_all_nonneg _ _ Hs) as Hn.
  destruct scored as [|[[c s] h] scored]; [discriminate|].
  unfold cat_of, keys in Hc. simpl in Hc.
  assert (c = cat) by congruence. subst c.
  inversion Hz as [|? ? Hz1 Hz2]; subst.
  inversion Hn as [|? ? [_ Hn1] Hn2]; subst.
  unfold score_of, hits_of in Hz1, Hn1; simpl in Hz1, Hn1. subst s.
  rewrite (Hn1 eq_refl).
  eexists. split; [reflexivity|].
  intros ->. destruct scored; [reflexivity | discriminate].
Qed.


(** A term in a regex mode whose pattern the engine rejects with
    [re.error] counts 0 on every text; the pattern with the character set
    left open is the example. *)
Lemma re_error_counts_zero (text : str) :
  (forall term,
     fst (parse_term term) = m_re \/ fst (parse_term term) = m_re_i ->
     re_error_pattern (unquote_if_needed (snd (parse_term term))) ->
     term_match_count text term = Ok 0%Z)
  /\ (re_error_pattern (lit "[unclosed") ->
      term_match_count text (lit "re:[unclosed") = Ok 0%Z
      /\ term_match_count text (lit "re/i:[unclosed") = Ok 0%Z).
Proof.
  assert (G : forall term,
     fst (parse_term term) = m_re \/ fst (parse_term term) = m_re_i ->
     re_error_pattern (unquote_if_needed (snd (parse_term term))) ->
     term_match_count text term = Ok 0%Z).
  { intros term Hm Hi. unfold term_match_count.
    destruct (parse_term term) as [mode payload]. simpl in Hm, Hi.
    destruct Hm; subst mode; unfold count_regex;
      destruct (negb (truthy _)); try reflexivity; now rewrite Hi. }
  split; [exact G|]. intros Hi. split; apply G; auto.
Qed.

(** C5, what the code does where the claim fails.  [count_regex] turns
    [re.error] into a count of 0 and no other exception.  The pattern
    [(?a)(?u)a] is not a valid regular expression, its two flags exclude
    each other, and the engine rejects it with ValueError: the term
    raises in both regex modes and on every text, and a run whose rules
    hold it, among terms that are in order, stops at the first document
    that has text. *)
Theorem invalid_regex_stops_the_run (text : str) :
  (forall t flags, re_findall (lit "(?a)(?u)a") t flags = Raise ValueError) ->
  term_match_count text (lit "re:(?a)(?u)a") = Raise ValueError
  /\ term_match_count text (lit "re/i:(?a)(?u)a") = Raise ValueError
  /\ (forallb is_space text = false ->
      forall texts r rel kind rows,
        row_get r (Some (lit "relpath")) = Some (Str rel) ->
        row_get r (Some (lit "kind")) = Some kind ->
        texts (safe_name rel) = Ok (Some text) ->
        run texts (lit "INVOICE: ci:invoice; re:(?a)(?u)a") (r :: rows)
        = Crashed ValueError).
Proof.
  intros H.
  assert (T : forall t ic,
            count_regex t (lit "(?a)(?u)a") ic = Raise ValueError).
  { intros t ic. unfold count_regex. simpl negb. cbv iota. now rewrite H. }
  assert (T1 : forall t,
            term_match_count t (lit "re:(?a)(?u)a") = Raise ValueError).
  { intros t. unfold term_match_count.
    change (parse_term (lit "re:(?a)(?u)a")) with (m_re, lit "(?a)(?u)a").
    change (unquote_if_needed (lit "(?a)(?u)a")) with (lit "(?a)(?u)a").
    apply T. }
  split; [apply T1|]. split.
  - unfold term_match_count.
    change (parse_term (lit "re/i:(?a)(?u)a")) with (m_re_i, lit "(?a)(?u)a").
    change (unquote_if_needed (lit "(?a)(?u)a")) with (lit "(?a)(?u)a").
    apply T.
  - intros Hs texts r rel kind rows Hr Hk Ht. unfold run.
    change (load_rules (lit "INVOICE: ci:invoice; re:(?a)(?u)a"))
      with [(lit "INVOICE", [lit "ci:invoice"; lit "re:(?a)(?u)a"])].
    cbv beta iota zeta. cbn [process_rows]. unfold process_row.
    rewrite Hr, Hk, Ht. cbn [bind].
    rewrite (@classify_text_raises L _ _ r text ValueError Hs);
      [reflexivity|].
    unfold best_two_categories, ranking. cbn [score_all score_terms].
    change (term_match_count text (lit "ci:invoice"))
      with (Ok (count_literal text (lit "invoice") true false)).
    cbn [bind].
    destruct (count_literal text (lit "invoice") true false >? 0)%Z;
      cbn [score_terms]; rewrite T1; reflexivity.
Qed.

(** C10, what the code does where the claim fails.  The regex parser
    raises OverflowError on a repetition count too large; that is not a
    [re.error], so it leaves [count_regex] and [term_match_count]. *)
Theorem overflowing_pattern_raises (text : str) :
  (forall t flags,
     re_findall (lit "a{99999999999999999999}") t flags = Raise OverflowError) ->
  term_match_count text (lit "re:a{99999999999999999999}")
  = Raise OverflowError.
Proof.
  intros H. unfold term_match_count.
  change (parse_term (lit "re:a{99999999999999999999}"))
    with (m_re, lit "a{99999999999999999999}").
  change (unquote_if_needed (lit "a{99999999999999999999}"))
    with (lit "a{99999999999999999999}").
  unfold count_regex. simpl negb. cbv iota. now rewrite H.
Qed.

End Ranking.

(** ** The theorems at concrete inputs, on the small library *)

(** C2 at the text "bar" and the one rule A: ci:foo. *)
Lemma no_match_top_is_first_category_witness :
  exists top2,
    @best_two_categories Small.lib (lit "bar") [(lit "A", [lit "ci:foo"])]
    = Ok ((lit "A", 0%Z, []), top2)
    /\ (@nil (str * list str) = [] -> top2 = (lit "UNKNOWN", 0%Z, [])).
Proof.
  apply (@no_match_top_is_first_category Small.lib (lit "bar") (lit "A")
           [lit "ci:foo"] [] [(lit "A", 0%Z, [])]).
  - vm_compute. reflexivity.
  - repeat constructor.
Defined.


(** The pattern with the character set left open, on the small library. *)
Example unclosed_set_counts_zero :
  @term_match_count Small.lib (lit "any [text") (lit "re:[unclosed") = Ok 0%Z
  /\ @term_match_count Small.lib (lit "any [text") (lit "re/i:[unclosed")
     = Ok 0%Z.
Proof.
  apply (proj2 (@re_error_counts_zero Small.lib (lit "any [text"))).
  intros text flags. reflexivity.
Qed.

(** C5 at the pattern whose flags exclude each other. *)
Lemma invalid_regex_stops_the_run_witness :
  @term_match_count Small.lib (lit "aaa") (lit "re:(?a)(?u)a")
  = Raise ValueError
  /\ @term_match_count Small.lib (lit "aaa") (lit "re/i:(?a)(?u)a")
     = Raise ValueError
  /\ (forallb is_space (lit "aaa") = false ->
      forall texts r rel kind rows,
        row_get r (Some (lit "relpath")) = Some (Str rel) ->
        row_get r (Some (lit "kind")) = Some kind ->
        texts (safe_name rel) = Ok (Some (lit "aaa")) ->
        @run Small.lib texts (lit "INVOICE: ci:invoice; re:(?a)(?u)a")
          (r :: rows)
        = Crashed ValueError).
Proof.
  apply (@invalid_regex_stops_the_run Small.lib (lit "aaa")).
  intros t flags. reflexivity.
Defined.

(** C10 at the pattern with the repetition count too large. *)
Lemma overflowing_pattern_raises_witness :
  @term_match_count Small.lib (lit "aaa") (lit "re:a{99999999999999999999}")
  = Raise OverflowError.
Proof.
  apply (@overflowing_pattern_raises Small.lib (lit "aaa")).
  intros t flags. reflexivity.
Defined.

(** ** Scanning *)

Lemma sub_go_skip (m : str -> nat) (repl : str) (s : str) :
  forall k, sub_go m repl k s = sub_go m repl 0 (skipn k s).
Proof.
  induction s as [|c s IH]; intros [|k]; try reflexivity.
  simpl. apply IH.
Qed.

Lemma sub_go_quiet (m : str -> nat) (repl : str) (s : str) :
  quiet m s -> sub_go m repl 0 s = s.
Proof.
  induction s as [|c s IH]; [reflexivity|].
  intros [H0 Hq]. simpl in *. rewrite H0. now rewrite IH.
Qed.

Lemma startswith_nil (s : str) : startswith s [] = true.
Proof. destruct s; reflexivity. Qed.

Lemma replace_char_cons (x : char) (new : str) (c : char) (r : str) :
  replace [x] new (c :: r) =
  (if char_eqb x c then new else [c]) ++ replace [x] new r.
Proof.
  unfold replace. simpl. unfold m_literal at 1. simpl.
  rewrite startswith_nil. destruct (char_eqb x c); reflexivity.
Qed.

Lemma replace_char_In (x : char) (new : str) (s : str) :
  In x (replace [x] new s) -> In x new.
Proof.
  induction s as [|c s IH]; [intros []|].
  rewrite replace_char_cons. intros H. apply in_app_or in H.
  destruct H as [H|H]; [|auto].
  destruct (char_eqb x c) eqn:E; [assumption|].
  destruct H as [H|[]]. subst c. unfold char_eqb in E.
  now rewrite N.eqb_refl in E.
Qed.

Lemma replace_char_absent (x : char) (new : str) (s : str) :
  ~ In x s -> replace [x] new s = s.
Proof.
  induction s as [|c s IH]; [reflexivity|].
  intros H. rewrite replace_char_cons.
  destruct (char_eqb x c) eqn:E.
  - exfalso. apply H. left. apply N.eqb_eq in E. now subst.
  - simpl. rewrite IH; [reflexivity|]. intros Hin; apply H; now right.
Qed.

Lemma span_space_lstrip (s : str) : skipn (span_space s) s = lstrip s.
Proof.
  induction s as [|c s IH]; simpl; [reflexivity|].
  destruct (is_space c); simpl; auto.
Qed.

Lemma span_space_head (s : str) :
  span_space s = 0 <-> head_space s = false.
Proof.
  destruct s as [|c s]; simpl; [tauto|].
  destruct (is_space c); split; congruence.
Qed.

Lemma head_space_lstrip (s : str) : head_space (lstrip s) = false.
Proof.
  induction s as [|c s IH]; simpl; [reflexivity|].
  destruct (is_space c) eqn:E; simpl; [assumption|exact E].
Qed.

Lemma lstrip_no_head_space (s : str) : head_space s = false -> lstrip s = s.
Proof.
  destruct s as [|c s]; simpl; [reflexivity|]. now intros ->.
Qed.

Lemma lstrip_length (s : str) : List.length (lstrip s) <= List.length s.
Proof.
  induction s as [|c s IH]; simpl; [lia|].
  destruct (is_space c); simpl; lia.
Qed.

(** [re.sub(r"-\s+", "", s)], one step *)
Lemma dehyphen_cons (c : char) (r : str) :
  re_sub m_hyphen_ws [] (c :: r) =
  if char_eqb c HYPHEN && head_space r
  then re_sub m_hyphen_ws [] (lstrip r)
  else c :: re_sub m_hyphen_ws [] r.
Proof.
  unfold re_sub. simpl. destruct (char_eqb c HYPHEN); simpl; [|reflexivity].
  destruct (span_space r) as [|n] eqn:E.
  - apply span_space_head in E. now rewrite E.
  - assert (H : head_space r = true).
    { destruct (head_space r) eqn:F; [reflexivity|].
      apply span_space_head in F. congruence. }
    rewrite H, sub_go_skip, <- E, span_space_lstrip. reflexivity.
Qed.

(** [re.sub(r"\s+", " ", s)], one step *)
Lemma collapse_cons (c : char) (r : str) :
  re_sub m_ws [SPACE] (c :: r) =
  if is_space c
  then SPACE :: re_sub m_ws [SPACE] (lstrip r)
  else c :: re_sub m_ws [SPACE] r.
Proof.
  unfold re_sub. simpl. unfold m_ws at 1. simpl.
  destruct (is_space c); [|reflexivity].
  simpl. now rewrite sub_go_skip, span_space_lstrip.
Qed.

(** ** The shape of a cleaned text *)

Lemma head_space_dehyphen (n : nat) :
  forall s, List.length s <= n ->
    head_space (re_sub m_hyphen_ws [] s) = true -> head_space s = true.
Proof.
  induction n as [|n IH]; intros [|c r] Hl; simpl in Hl; try lia;
    try (intros H; discriminate H).
  rewrite dehyphen_cons.
  destruct (char_eqb c HYPHEN && head_space r) eqn:E.
  - intros H. apply IH in H.
    + now rewrite head_space_lstrip in H.
    + pose proof (lstrip_length r). lia.
  - simpl. auto.
Qed.

Lemma hy_ok_dehyphen (n : nat) :
  forall s, List.length s <= n -> hy_ok (re_sub m_hyphen_ws [] s) = true.
Proof.
  induction n as [|n IH]; intros [|c r] Hl; simpl in Hl; try lia;
    try reflexivity.
  rewrite dehyphen_cons.
  destruct (char_eqb c HYPHEN && head_space r) eqn:E.
  - apply IH. pose proof (lstrip_length r). lia.
  - simpl. rewrite IH by lia. rewrite andb_true_r. apply negb_true_iff.
    destruct (char_eqb c HYPHEN); [|reflexivity]. simpl in *.
    destruct (head_space (re_sub m_hyphen_ws [] r)) eqn:F; [|reflexivity].
    apply (head_space_dehyphen (n := List.length r)) in F; [congruence|lia].
Qed.

Lemma quiet_hy_ok (s : str) : hy_ok s = true -> quiet m_hyphen_ws s.
Proof.
  induction s as [|c r IH]; [constructor|].
  simpl hy_ok. rewrite andb_true_iff, negb_true_iff. intros [H1 H2].
  split; [|auto]. unfold m_hyphen_ws.
  destruct (char_eqb c HYPHEN); [|reflexivity]. simpl in H1.
  apply span_space_head in H1. now rewrite H1.
Qed.

Lemma head_space_collapse (s : str) :
  head_space (re_sub m_ws [SPACE] s) = head_space s.
Proof.
  destruct s as [|c r]; [reflexivity|]. rewrite collapse_cons. simpl.
  destruct (is_space c) eqn:E; simpl; [reflexivity | exact E].
Qed.

Lemma hy_ok_lstrip (s : str) : hy_ok s = true -> hy_ok (lstrip s) = true.
Proof.
  induction s as [|c r IH]; [reflexivity|].
  intros H. simpl lstrip. destruct (is_space c); [|assumption].
  apply IH. simpl in H. apply andb_true_iff in H. tauto.
Qed.

Lemma ws_ok_lstrip (s : str) : ws_ok s = true -> ws_ok (lstrip s) = true.
Proof.
  induction s as [|c r IH]; [reflexivity|].
  intros H. simpl lstrip. destruct (is_space c); [|assumption].
  apply IH. simpl in H. apply andb_true_iff in H. tauto.
Qed.

Lemma ws_ok_collapse (n : nat) :
  forall s, List.length s <= n -> ws_ok (re_sub m_ws [SPACE] s) = true.
Proof.
  induction n as [|n IH]; intros [|c r] Hl; simpl in Hl; try lia;
    try reflexivity.
  rewrite collapse_cons. destruct (is_space c) eqn:E.
  - simpl ws_ok. rewrite head_space_collapse, head_space_lstrip.
    rewrite IH by (pose proof (lstrip_length r); lia). reflexivity.
  - simpl ws_ok. rewrite E, IH by lia. reflexivity.
Qed.

Lemma hy_ok_collapse (n : nat) :
  forall s, List.length s <= n ->
    hy_ok s = true -> hy_ok (re_sub m_ws [SPACE] s) = true.
Proof.
  induction n as [|n IH]; intros [|c r] Hl; simpl in Hl; try lia;
    try reflexivity.
  intros H. simpl in H. apply andb_true_iff in H. destruct H as [H1 H2].
  rewrite collapse_cons. destruct (is_space c) eqn:E.
  - simpl hy_ok. apply IH; [pose proof (lstrip_length r); lia|].
    now apply hy_ok_lstrip.
  - simpl hy_ok. rewrite head_space_collapse, H1. now apply IH; [lia|].
Qed.

Lemma collapse_fix (s : str) :
  ws_ok s = true -> re_sub m_ws [SPACE] s = s.
Proof.
  induction s as [|c r IH]; [reflexivity|].
  intros H. simpl in H. apply andb_true_iff in H. destruct H as [H1 H2].
  rewrite collapse_cons. destruct (is_space c); simpl in H1.
  - apply andb_true_iff in H1. destruct H1 as [Hc Hh].
    apply N.eqb_eq in Hc. apply negb_true_iff in Hh.
    rewrite lstrip_no_head_space, IH by assumption. now subst c.
  - now rewrite IH.
Qed.

Lemma hy_ok_prefix (a b : str) : hy_ok (a ++ b) = true -> hy_ok a = true.
Proof.
  induction a as [|c a IH]; [reflexivity|].
  simpl. rewrite !andb_true_iff, !negb_true_iff. intros [H1 H2].
  split; [|auto]. destruct (char_eqb c HYPHEN); [|reflexivity].
  simpl in *. destruct a; [reflexivity | exact H1].
Qed.

Lemma ws_ok_prefix (a b : str) : ws_ok (a ++ b) = true -> ws_ok a = true.
Proof.
  induction a as [|c a IH]; [reflexivity|].
  simpl. rewrite !andb_true_iff. intros [H1 H2].
  split; [|auto]. destruct (is_space c); [|reflexivity].
  simpl in *. destruct (char_eqb c SPACE); [|discriminate].
  simpl in *. destruct a; [reflexivity | exact H1].
Qed.

Lemma lstrip_suffix (s : str) : exists p, s = p ++ lstrip s.
Proof.
  induction s as [|c r [p IH]]; [exists []; reflexivity|].
  simpl. destruct (is_space c).
  - exists (c :: p). simpl. now f_equal.
  - exists []. reflexivity.
Qed.

(** [strip] keeps a piece of the text that starts at the head of
    [lstrip s]. *)
Lemma strip_prefix (s : str) : exists q, lstrip s = strip s ++ q.
Proof.
  unfold strip, rstrip.
  destruct (lstrip_suffix (rev (lstrip s))) as [p Hp].
  exists (rev p). rewrite <- rev_app_distr, <- Hp. now rewrite rev_involutive.
Qed.

Lemma head_space_strip (s : str) : head_space (strip s) = false.
Proof.
  destruct (strip_prefix s) as [q Hq].
  pose proof (head_space_lstrip s) as H. rewrite Hq in H.
  destruct (strip s); [reflexivity | exact H].
Qed.

Lemma head_space_rev_strip (s : str) : head_space (rev (strip s)) = false.
Proof.
  unfold strip, rstrip. rewrite rev_involutive. apply head_space_lstrip.
Qed.

Lemma strip_fix (s : str) :
  head_space s = false -> head_space (rev s) = false -> strip s = s.
Proof.
  intros H1 H2. unfold strip, rstrip.
  rewrite (lstrip_no_head_space s H1), (lstrip_no_head_space (rev s) H2).
  apply rev_involutive.
Qed.

Ltac chase_char H :=
  repeat first
    [ apply replace_char_In in H; simpl in H;
      first [ contradiction | destruct H as [H|[]]; discriminate H ]
    | apply sub_go_In in H; destruct H as [H|H];
      [ | simpl in H; first [ contradiction
                            | destruct H as [H|[]]; discriminate H ] ] ].

Lemma clean_tail_cleaned (s : str) : cleaned (clean_tail s).
Proof.
  unfold cleaned. split; [|split; [|split; [|split]]].
  - intros x Hx H. unfold clean_tail in H. apply strip_In in H.
    unfold re_sub in H.
    simpl in Hx.
    repeat (destruct Hx as [<-|Hx]; [chase_char H|]). contradiction.
  - unfold clean_tail.
    destruct (strip_prefix
                (re_sub m_ws [SPACE]
                   (re_sub m_hyphen_ws []
                      (replace [160%N] [SPACE]
                         (replace [8205%N] []
                            (replace [8204%N] []
                               (replace [8203%N] []
                                  (replace [173%N] []
                                     (replace [65279%N] [] s)))))))))
      as [q Hq].
    eapply hy_ok_prefix. rewrite <- Hq. apply hy_ok_lstrip.
    eapply hy_ok_collapse; [reflexivity|].
    eapply hy_ok_dehyphen; reflexivity.
  - unfold clean_tail.
    destruct (strip_prefix
                (re_sub m_ws [SPACE]
                   (re_sub m_hyphen_ws []
                      (replace [160%N] [SPACE]
                         (replace [8205%N] []
                            (replace [8204%N] []
                               (replace [8203%N] []
                                  (replace [173%N] []
                                     (replace [65279%N] [] s)))))))))
      as [q Hq].
    eapply ws_ok_prefix. rewrite <- Hq. apply ws_ok_lstrip.
    eapply ws_ok_collapse; reflexivity.
  - apply head_space_strip.
  - apply head_space_rev_strip.
Qed.

Lemma cleaned_fix (s : str) : cleaned s -> clean_tail s = s.
Proof.
  intros (Hg & Hh & Hw & H1 & H2). unfold clean_tail.
  rewrite (@replace_char_absent 65279%N _ s) by (apply Hg; simpl; tauto).
  rewrite (@replace_char_absent 173%N _ s) by (apply Hg; simpl; tauto).
  rewrite (@replace_char_absent 8203%N _ s) by (apply Hg; simpl; tauto).
  rewrite (@replace_char_absent 8204%N _ s) by (apply Hg; simpl; tauto).
  rewrite (@replace_char_absent 8205%N _ s) by (apply Hg; simpl; tauto).
  rewrite (@replace_char_absent 160%N _ s) by (apply Hg; simpl; tauto).
  unfold re_sub at 2. rewrite (@sub_go_quiet m_hyphen_ws _ s (quiet_hy_ok s Hh)).
  rewrite (collapse_fix s Hw). now apply strip_fix.
Qed.

(** The stages after the NFKC step are idempotent together. *)
Lemma clean_tail_idempotent (s : str) :
  clean_tail (clean_tail s) = clean_tail s.
Proof. apply cleaned_fix, clean_tail_cleaned. Qed.

Section Cleaning.

Context {L : PyLib}.

(** C6, as the code has it.  Cleaning a cleaned text again changes nothing
    when the NFKC step leaves the cleaned text as it is; the stages after
    that step are idempotent on every text. *)
Theorem clean_idempotent_when_composed (t : str) :
  nfkc (_clean_unicode_common t) = _clean_unicode_common t ->
  _clean_unicode_common (_clean_unicode_common t) = _clean_unicode_common t.
Proof.
  intros H.
  change (_clean_unicode_common (_clean_unicode_common t))
    with (clean_tail (nfkc (_clean_unicode_common t))).
  rewrite H.
  change (_clean_unicode_common t) with (clean_tail (nfkc t)).
  apply clean_tail_idempotent.
Qed.

End Cleaning.

(** C6, where it fails: a zero-width space between a letter and a combining
    accent keeps NFKC from composing them; the space is then removed, and
    cleaning again composes the pair. *)
Lemma clean_not_idempotent :
  let t := [101; 8203; 769]%N in
  @_clean_unicode_common Small.lib t = [101; 769]%N
  /\ @_clean_unicode_common Small.lib (@_clean_unicode_common Small.lib t)
     = [233]%N
  /\ @_clean_unicode_common Small.lib (@_clean_unicode_common Small.lib t)
     <> @_clean_unicode_common Small.lib t.
Proof.
  split; [reflexivity|]. split; [reflexivity|]. discriminate.
Qed.

(** C6 at a text with a hyphen at a line break, on the small library. *)
Lemma clean_idempotent_when_composed_witness :
  let t := lit "micro-" ++ [10%N] ++ lit "service  " ++ [233; 160]%N in
  @_clean_unicode_common Small.lib (@_clean_unicode_common Small.lib t)
  = @_clean_unicode_common Small.lib t.
Proof.
  intros t. apply (@clean_idempotent_when_composed Small.lib t).
  reflexivity.
Defined.

(** ** Stripping *)

Lemma lstrip_spaces_app (a l : str) :
  forallb is_space a = true -> lstrip (a ++ l) = lstrip l.
Proof.
  induction a as [|c a IH]; simpl; [reflexivity|].
  rewrite andb_true_iff. intros [-> H]. auto.
Qed.

Lemma lstrip_split (s : str) :
  exists p, s = p ++ lstrip s /\ forallb is_space p = true.
Proof.
  induction s as [|c r (p & Hp & Hs)]; [exists []; split; reflexivity|].
  simpl. destruct (is_space c) eqn:E.
  - exists (c :: p). simpl. rewrite E, Hs. split; [now f_equal | reflexivity].
  - exists []. split; reflexivity.
Qed.

(** The text is its stripped core between two runs of whitespace. *)
Lemma strip_split (s : str) :
  exists a b, s = a ++ strip s ++ b
              /\ forallb is_space a = true /\ forallb is_space b = true.
Proof.
  destruct (lstrip_split s) as (a & Ha & Sa).
  destruct (lstrip_split (rev (lstrip s))) as (q & Hq & Sq).
  exists a, (rev q). split; [|split; [assumption | now rewrite forallb_rev]].
  unfold strip, rstrip. rewrite <- rev_app_distr, <- Hq, rev_involutive.
  exact Ha.
Qed.

Lemma strip_core (a c b : str) :
  forallb is_space a = true -> forallb is_space b = true -> tight c ->
  strip (a ++ c ++ b) = c.
Proof.
  intros Ha Hb [H1 H2]. unfold strip, rstrip.
  rewrite lstrip_spaces_app by assumption.
  destruct c as [|x c].
  - simpl. apply lstrip_nil in Hb. now rewrite Hb.
  - simpl in H1. simpl. rewrite H1.
    change (x :: c ++ b) with ((x :: c) ++ b).
    rewrite rev_app_distr, lstrip_spaces_app by now rewrite forallb_rev.
    rewrite (lstrip_no_head_space _ H2). apply rev_involutive.
Qed.

Lemma strip_tight (s : str) : tight (strip s).
Proof. split; [apply head_space_strip | apply head_space_rev_strip]. Qed.

Lemma strip_idempotent (s : str) : strip (strip s) = strip s.
Proof. destruct (strip_tight s). now apply strip_fix. Qed.

Lemma tight_glue (pre c : str) :
  head_space pre = false -> pre <> [] -> tight c -> c <> [] ->
  forall mid, tight (pre ++ mid ++ c).
Proof.
  intros Hp Np [H1 H2] Nc mid. split.
  - destruct pre; [contradiction | exact Hp].
  - rewrite !rev_app_distr.
    destruct (rev c) eqn:E; [|exact H2].
    apply (f_equal (@rev char)) in E. rewrite rev_involutive in E.
    contradiction.
Qed.

(** ** Words and the whitespace between them *)

Lemma ascii_no_ghost (s : str) (x : char) :
  ascii_text s = true -> In x ghosts -> ~ In x s.
Proof.
  unfold ascii_text. rewrite forallb_forall. intros H Hx Hin.
  apply H in Hin. unfold is_ascii in Hin. apply N.ltb_lt in Hin.
  simpl in Hx. lia.
Qed.

Lemma clean_tail_ascii (s : str) :
  ascii_text s = true -> hy_ok s = true ->
  clean_tail s = strip (re_sub m_ws [SPACE] s).
Proof.
  intros Ha Hh. unfold clean_tail.
  assert (Hg : forall x, In x ghosts -> ~ In x s)
    by (intros x; now apply ascii_no_ghost).
  rewrite (@replace_char_absent 65279%N _ s) by (apply Hg; simpl; tauto).
  rewrite (@replace_char_absent 173%N _ s) by (apply Hg; simpl; tauto).
  rewrite (@replace_char_absent 8203%N _ s) by (apply Hg; simpl; tauto).
  rewrite (@replace_char_absent 8204%N _ s) by (apply Hg; simpl; tauto).
  rewrite (@replace_char_absent 8205%N _ s) by (apply Hg; simpl; tauto).
  rewrite (@replace_char_absent 160%N _ s) by (apply Hg; simpl; tauto).
  unfold re_sub at 2. rewrite (@sub_go_quiet m_hyphen_ws _ s (quiet_hy_ok s Hh)).
  reflexivity.
Qed.

Lemma space_not_hyphen (c : char) :
  is_space c = true -> char_eqb c HYPHEN = false.
Proof.
  intros H. unfold char_eqb. destruct (N.eqb_spec c HYPHEN) as [->|];
    [discriminate H | reflexivity].
Qed.

Lemma hy_ok_gap (g rest : str) :
  forallb is_space g = true -> hy_ok rest = true -> hy_ok (g ++ rest) = true.
Proof.
  intros Hg Hr. induction g as [|c g IH]; [exact Hr|].
  simpl in Hg. apply andb_true_iff in Hg. destruct Hg as [Hc Hg].
  cbn [app hy_ok]. rewrite (space_not_hyphen c Hc), (IH Hg). reflexivity.
Qed.

Lemma hy_ok_word (w rest : str) :
  forallb (fun c => negb (is_space c)) w = true ->
  char_eqb (last w SPACE) HYPHEN = false ->
  hy_ok rest = true -> hy_ok (w ++ rest) = true.
Proof.
  intros Hw Hl Hr. induction w as [|c w IH]; [exact Hr|].
  simpl in Hw. apply andb_true_iff in Hw. destruct Hw as [Hc Hw].
  cbn [app hy_ok]. destruct w as [|d w].
  - cbn [last] in Hl. rewrite Hl. exact Hr.
  - rewrite (IH Hw Hl). simpl in Hw. apply andb_true_iff in Hw.
    destruct Hw as [Hd _]. cbn [app head_space].
    apply negb_true_iff in Hd. rewrite Hd, andb_false_r. reflexivity.
Qed.

Lemma collapse_word (w rest : str) :
  forallb (fun c => negb (is_space c)) w = true ->
  re_sub m_ws [SPACE] (w ++ rest) = w ++ re_sub m_ws [SPACE] rest.
Proof.
  induction w as [|c w IH]; [reflexivity|].
  simpl. rewrite andb_true_iff. intros [Hc Hw].
  rewrite collapse_cons. apply negb_true_iff in Hc. rewrite Hc.
  now rewrite IH.
Qed.

Lemma collapse_gap (g rest : str) :
  g <> [] -> forallb is_space g = true -> head_space rest = false ->
  re_sub m_ws [SPACE] (g ++ rest) = SPACE :: re_sub m_ws [SPACE] rest.
Proof.
  intros Ng Hg Hr. destruct g as [|c g]; [contradiction|].
  simpl in Hg. apply andb_true_iff in Hg. destruct Hg as [Hc Hg].
  cbn [app]. rewrite collapse_cons, Hc.
  rewrite lstrip_spaces_app by assumption.
  now rewrite lstrip_no_head_space.
Qed.

Lemma collapse_blank (t : str) :
  forallb is_space t = true ->
  re_sub m_ws [SPACE] t = if truthy t then [SPACE] else [].
Proof.
  intros H. destruct t as [|c t]; [reflexivity|].
  rewrite <- (app_nil_r (c :: t)).
  rewrite collapse_gap by (assumption || discriminate || reflexivity).
  reflexivity.
Qed.

Lemma is_word_parts (w : str) :
  is_word w = true ->
  w <> [] /\ forallb (fun c => negb (is_space c)) w = true
  /\ char_eqb (last w SPACE) HYPHEN = false.
Proof.
  unfold is_word. rewrite !andb_true_iff, negb_true_iff.
  intros [[H1 H2] H3]. split; [|split; assumption].
  destruct w; [discriminate | discriminate].
Qed.

Lemma word_head (w rest : str) :
  is_word w = true -> head_space (w ++ rest) = false.
Proof.
  intros H. apply is_word_parts in H. destruct H as (N & H & _).
  destruct w as [|c w]; [contradiction|].
  simpl in H. apply andb_true_iff in H. destruct H as [Hc _].
  now apply negb_true_iff in Hc.
Qed.

Lemma gap_word_parts (first : bool) (gw : str * str) :
  gap_word first gw = true ->
  forallb is_space (fst gw) = true /\ (first = false -> fst gw <> [])
  /\ is_word (snd gw) = true.
Proof.
  unfold gap_word. rewrite !andb_true_iff, orb_true_iff.
  intros [[H1 H2] H3]. split; [assumption|]. split; [|assumption].
  intros ->. destruct H2 as [H2|H2]; [discriminate|].
  destruct (fst gw); [discriminate | discriminate].
Qed.

Lemma collapse_parts (parts : list (str * str)) (trail : str) :
  forallb (gap_word false) parts = true -> forallb is_space trail = true ->
  re_sub m_ws [SPACE] (spaced parts trail) =
  flat_map (fun gw => SPACE :: snd gw) parts
    ++ (if truthy trail then [SPACE] else []).
Proof.
  intros Hp Ht. unfold spaced.
  induction parts as [|[g w] parts IH]; [now apply collapse_blank|].
  simpl in Hp. apply andb_true_iff in Hp. destruct Hp as [Hgw Hp].
  apply gap_word_parts in Hgw. cbn [fst snd] in Hgw.
  destruct Hgw as (Hg & Ng & Hw).
  cbn [flat_map fst snd]. rewrite <- !app_assoc.
  rewrite collapse_gap; [|now apply Ng | assumption | now apply word_head].
  rewrite collapse_word by now apply is_word_parts.
  rewrite (IH Hp). reflexivity.
Qed.

Lemma gap_word_weaken (gw : str * str) :
  gap_word false gw = true -> gap_word true gw = true.
Proof.
  unfold gap_word. rewrite !andb_true_iff. intros [[H1 _] H3].
  split; [split; [assumption | reflexivity] | assumption].
Qed.

Lemma hy_ok_spaced (parts : list (str * str)) (trail : str) :
  forallb (gap_word true) parts = true -> forallb is_space trail = true ->
  hy_ok (spaced parts trail) = true.
Proof.
  intros Hp Ht. unfold spaced.
  induction parts as [|[g w] parts IH].
  - cbn [flat_map app]. rewrite <- (app_nil_r trail).
    now apply hy_ok_gap.
  - simpl in Hp. apply andb_true_iff in Hp. destruct Hp as [Hgw Hp].
    apply gap_word_parts in Hgw. cbn [fst snd] in Hgw.
    destruct Hgw as (Hg & _ & Hw). apply is_word_parts in Hw.
    destruct Hw as (_ & Hw & Hl).
    cbn [flat_map fst snd]. rewrite <- !app_assoc.
    apply hy_ok_gap; [assumption|]. apply hy_ok_word; auto.
Qed.

Lemma join_flat_map (sep : str) (w : str) (ws : list str) :
  join sep (w :: ws) = w ++ flat_map (fun x => sep ++ x) ws.
Proof.
  revert w; induction ws as [|u ws IH]; intros w.
  - simpl. now rewrite app_nil_r.
  - change (join sep (w :: u :: ws)) with (w ++ sep ++ join sep (u :: ws)).
    rewrite IH. cbn [flat_map]. now rewrite <- app_assoc.
Qed.

Lemma head_space_app (a b : str) :
  a <> [] -> head_space (a ++ b) = head_space a.
Proof. destruct a; [contradiction | reflexivity]. Qed.

Lemma head_space_nonspace (s : str) :
  forallb (fun c => negb (is_space c)) s = true -> head_space s = false.
Proof.
  destruct s as [|c s]; [reflexivity|]. simpl.
  rewrite andb_true_iff. intros [H _]. now apply negb_true_iff in H.
Qed.

Lemma words_end (w : str) (parts : list (str * str)) :
  is_word w = true -> forallb (gap_word false) parts = true ->
  head_space (rev (w ++ flat_map (fun gw => SPACE :: snd gw) parts)) = false.
Proof.
  revert w; induction parts as [|[g u] parts IH]; intros w Hw Hp.
  - cbn [flat_map]. rewrite app_nil_r. apply head_space_nonspace.
    rewrite forallb_rev. now apply is_word_parts.
  - simpl in Hp. apply andb_true_iff in Hp. destruct Hp as [Hgu Hp].
    apply gap_word_parts in Hgu. cbn [fst snd] in Hgu.
    destruct Hgu as (_ & _ & Hu).
    cbn [flat_map snd].
    change (w ++ (SPACE :: u) ++ flat_map (fun gw => SPACE :: snd gw) parts)
      with (w ++ [SPACE]
            ++ (u ++ flat_map (fun gw => SPACE :: snd gw) parts)).
    rewrite app_assoc, rev_app_distr, head_space_app; [now apply IH|].
    intros E. apply (f_equal (@rev char)) in E. rewrite rev_involutive in E.
    apply is_word_parts in Hu. destruct Hu as (Nu & _).
    destruct u; [contradiction | discriminate].
Qed.

(** The cleaned form of a text of words is its words with single spaces
    between them, whatever whitespace the text has. *)
Lemma clean_tail_spaced (parts : list (str * str)) (trail : str) :
  ascii_text (spaced parts trail) = true -> laid_out parts trail = true ->
  clean_tail (spaced parts trail) = join [SPACE] (map snd parts).
Proof.
  intros Ha Hl. unfold laid_out in Hl. apply andb_true_iff in Hl.
  destruct Hl as [Hp Ht].
  rewrite clean_tail_ascii; [|assumption|].
  2:{ apply hy_ok_spaced; [|assumption].
      destruct parts as [|p r]; [reflexivity|].
      apply andb_true_iff in Hp. destruct Hp as [H1 H2].
      cbn [forallb]. rewrite H1. cbn [andb].
      rewrite forallb_forall in *. intros x Hx.
      now apply gap_word_weaken, H2. }
  destruct parts as [|[g w] r].
  - unfold spaced. cbn [flat_map app map join].
    rewrite collapse_blank by assumption.
    destruct (truthy trail); reflexivity.
  - apply andb_true_iff in Hp. destruct Hp as [Hgw Hr].
    apply gap_word_parts in Hgw. cbn [fst snd] in Hgw.
    destruct Hgw as (Hg & _ & Hw).
    cbn [map snd]. rewrite join_flat_map.
    assert (F : flat_map (fun x => [SPACE] ++ x) (map snd r)
                = flat_map (fun gw => SPACE :: snd gw) r).
    { clear. induction r as [|[g u] r IH]; [reflexivity|].
      cbn [map flat_map snd]. now rewrite IH. }
    rewrite F.
    assert (C : re_sub m_ws [SPACE] (spaced ((g, w) :: r) trail)
                = (if truthy g then [SPACE] else [])
                  ++ (w ++ flat_map (fun gw => SPACE :: snd gw) r)
                  ++ (if truthy trail then [SPACE] else [])).
    { unfold spaced. cbn [flat_map fst snd]. rewrite <- !app_assoc.
      fold (spaced r trail).
      destruct g as [|c g].
      - cbn [app truthy]. rewrite collapse_word by now apply is_word_parts.
        now rewrite collapse_parts.
      - rewrite collapse_gap;
          [|discriminate | assumption | now apply word_head].
        rewrite collapse_word by now apply is_word_parts.
        now rewrite collapse_parts. }
    rewrite C. apply strip_core.
    + destruct (truthy g); reflexivity.
    + destruct (truthy trail); reflexivity.
    + split; [now apply word_head | now apply words_end].
Qed.

Section CaseInsensitive.

Context {L : PyLib}.


End CaseInsensitive.


(** ** The definitions on small inputs *)

Example splitlines_example :
  splitlines (lit "a" ++ [13; 10]%N ++ lit "b" ++ [10; 10]%N ++ lit "c")
  = [lit "a"; lit "b"; []; lit "c"].
Proof. reflexivity. Qed.

Example load_rules_example :
  load_rules (lit "# rules" ++ [10%N]
              ++ lit "INVOICE: ci:invoice; ;'nota fiscal' " ++ [10%N]
              ++ lit "no separator here" ++ [10%N]
              ++ lit "TAX : re:IR(PF|PJ)" ++ [10%N]
              ++ lit "INVOICE: fatura")
  = [(lit "INVOICE", [lit "fatura"]); (lit "TAX", [lit "re:IR(PF|PJ)"])].
Proof. reflexivity. Qed.

Example parse_term_example :
  parse_term (lit " re/i: ab+ ") = (m_re_i, lit "ab+")
  /\ parse_term (lit "'nota fiscal'") = (m_lit, lit "'nota fiscal'")
  /\ unquote_if_needed (lit "'nota fiscal'") = lit "nota fiscal"
  /\ unquote_if_needed (lit "'") = [].
Proof. repeat split; reflexivity. Qed.

(** "micro-" at the end of a line, then "sserviço" *)
Example dehyphenation_example :
  @_clean_unicode_common Small.lib
    (lit "micro-" ++ [10%N] ++ lit "sservi" ++ [231%N] ++ lit "o")
  = lit "microsservi" ++ [231%N] ++ lit "o".
Proof. reflexivity. Qed.

(** "O relatório fiscal" and "O relatorio fiscal" under [na:fiscal] *)
Example accent_insensitive_example :
  @term_match_count Small.lib
    (lit "O relat" ++ [243%N] ++ lit "rio fiscal") (lit "na:fiscal")
  = @term_match_count Small.lib (lit "O relatorio fiscal") (lit "na:fiscal").
Proof. reflexivity. Qed.

Example count_example :
  count (lit "aaaa") (lit "aa") = 2 /\ count (lit "abcabc") (lit "bc") = 2.
Proof. split; reflexivity. Qed.

(** * Further properties *)

(** ** Names of the text files *)

Lemma replace_char_app (x : char) (new a b : str) :
  replace [x] new (a ++ b) = replace [x] new a ++ replace [x] new b.
Proof.
  induction a as [|c a IH]; [reflexivity|].
  simpl app. rewrite !replace_char_cons, IH. now rewrite app_assoc.
Qed.

Lemma startswith_app (p r : str) : startswith (p ++ r) p = true.
Proof.
  induction p as [|c p IH]; simpl; [apply startswith_nil|].
  unfold char_eqb. now rewrite N.eqb_refl.
Qed.

(** X1.  The name of a text file holds no slash and no backslash and ends
    in ".txt"; a path without separators only gains the ending. *)
Theorem safe_name_flat (relpath : str) :
  ~ In SLASH (safe_name relpath)
  /\ ~ In BACKSLASH (safe_name relpath)
  /\ endswith (safe_name relpath) (lit ".txt") = true
  /\ (~ In SLASH relpath -> ~ In BACKSLASH relpath ->
      safe_name relpath = relpath ++ lit ".txt").
Proof.
  unfold safe_name. split; [|split; [|split]].
  - intros H. apply in_app_or in H. destruct H as [H|H].
    + apply sub_go_In in H. destruct H as [H|H].
      * apply replace_char_In in H. simpl in H. intuition discriminate.
      * simpl in H. intuition discriminate.
    + simpl in H. intuition discriminate.
  - intros H. apply in_app_or in H. destruct H as [H|H].
    + apply replace_char_In in H. simpl in H. intuition discriminate.
    + simpl in H. intuition discriminate.
  - unfold endswith. rewrite rev_app_distr. apply startswith_app.
  - intros H1 H2.
    rewrite (@replace_char_absent SLASH _ relpath) by assumption.
    rewrite (@replace_char_absent BACKSLASH _ relpath) by assumption.
    reflexivity.
Qed.

(** X2.  A slash, a backslash and a double underscore in a path give the
    same file name: documents whose paths differ only so share one text
    file. *)
Theorem safe_name_collides (a b : str) :
  safe_name (a ++ lit "/" ++ b) = safe_name (a ++ lit "__" ++ b)
  /\ safe_name (a ++ lit "\" ++ b) = safe_name (a ++ lit "__" ++ b).
Proof.
  unfold safe_name.
  change (lit "/") with [47%N]. change (lit "\") with [92%N].
  change (lit "__") with [95%N; 95%N].
  rewrite !replace_char_app. split; reflexivity.
Qed.

(** ** Terms *)

Lemma prefix_of_tight (m : mode) :
  head_space (prefix_of m) = false /\ prefix_of m <> [] /\ tight (prefix_of m).
Proof. destruct m; repeat split; try reflexivity; discriminate. Qed.

Lemma strip_prefixed (m : mode) (p : str) :
  exists mid, strip (prefix_of m ++ p) = prefix_of m ++ mid
              /\ strip mid = strip p.
Proof.
  destruct (strip_split p) as (a & b & Hp & Sa & Sb).
  destruct (prefix_of_tight m) as (H1 & H2 & H3).
  destruct (strip p) as [|x c] eqn:E.
  - exists []. rewrite app_nil_r. split; [|reflexivity].
    rewrite Hp. simpl.
    rewrite <- (app_nil_l (prefix_of m ++ a ++ b)).
    apply strip_core; [reflexivity | | assumption].
    now rewrite forallb_app, Sa, Sb.
  - exists (a ++ x :: c). split.
    + rewrite Hp.
      replace (prefix_of m ++ a ++ (x :: c) ++ b)
        with ([] ++ (prefix_of m ++ a ++ x :: c) ++ b)
        by (simpl; now rewrite <- !app_assoc).
      apply strip_core; [reflexivity | assumption |].
      apply tight_glue; try assumption; [|discriminate].
      rewrite <- E. apply strip_tight.
    + rewrite <- (app_nil_r (x :: c)) at 1.
      apply strip_core; [assumption | reflexivity |].
      rewrite <- E. apply strip_tight.
Qed.

Lemma parse_term_prefixed (m : mode) (p : str) :
  parse_term (prefix_of m ++ p) = (m, strip p).
Proof.
  destruct (strip_prefixed m p) as (mid & H1 & H2).
  unfold parse_term. rewrite H1, <- H2.
  destruct m; simpl; rewrite ?startswith_nil; reflexivity.
Qed.

Lemma wrapped_tight (q r : char) (p : str) :
  is_space q = false -> is_space r = false -> strip (q :: p ++ [r]) = q :: p ++ [r].
Proof.
  intros Hq Hr. apply strip_fix; [exact Hq|].
  simpl. rewrite rev_app_distr. simpl. exact Hr.
Qed.

Lemma unquote_wrapped (q : char) (p : str) :
  q = 34%N \/ q = 39%N -> unquote_if_needed (q :: p ++ [q]) = p.
Proof.
  intros Hq. unfold unquote_if_needed.
  rewrite wrapped_tight by (destruct Hq; subst; reflexivity).
  assert (E : forall x, endswith (q :: p ++ [q]) [x] = char_eqb x q).
  { intros x. unfold endswith. simpl. rewrite rev_app_distr. simpl.
    destruct (rev p ++ [q]); simpl; now rewrite andb_true_r. }
  unfold slice_1_m1. simpl tl. rewrite removelast_last.
  unfold DQUOTE, SQUOTE. rewrite !E. simpl. rewrite !startswith_nil.
  destruct Hq; subst q; reflexivity.
Qed.

(** X3.  A term that begins with a mode prefix is read in that mode with
    the rest of the term, stripped, as its payload; whitespace around the
    term is ignored, and the payload has no whitespace at its ends. *)
Theorem parse_term_prefix_round_trip (m : mode) (p t : str) :
  parse_term (prefix_of m ++ p) = (m, strip p)
  /\ parse_term (strip t) = parse_term t
  /\ tight (snd (parse_term t)).
Proof.
  split; [apply parse_term_prefixed|]. split.
  - unfold parse_term. now rewrite strip_idempotent.
  - unfold parse_term.
    repeat match goal with
           | |- context [if ?b then _ else _] => destruct b
           end; simpl; apply strip_tight.
Qed.

(** X4.  A payload between two double quotes or two single quotes loses
    the quotes and nothing else, the whitespace inside them included; a
    payload that opens with one kind of quote and closes with the other is
    left as it is. *)
Theorem unquote_round_trip (p t : str) :
  unquote_if_needed (DQUOTE ++ p ++ DQUOTE) = p
  /\ unquote_if_needed (SQUOTE ++ p ++ SQUOTE) = p
  /\ unquote_if_needed (SQUOTE ++ p ++ DQUOTE) = SQUOTE ++ p ++ DQUOTE
  /\ unquote_if_needed (DQUOTE ++ p ++ SQUOTE) = DQUOTE ++ p ++ SQUOTE
  /\ unquote_if_needed (strip t) = unquote_if_needed t.
Proof.
  split; [apply (unquote_wrapped (q := 34%N)); auto|].
  split; [apply (unquote_wrapped (q := 39%N)); auto|].
  assert (M : forall q r, is_space q = false -> is_space r = false ->
                char_eqb q r = false ->
                (q = 34%N \/ q = 39%N) -> (r = 34%N \/ r = 39%N) ->
                unquote_if_needed (q :: p ++ [r]) = q :: p ++ [r]).
  { intros q r Hq Hr Hne Q R. unfold unquote_if_needed.
    rewrite wrapped_tight by assumption.
    assert (E : forall x, endswith (q :: p ++ [r]) [x] = char_eqb x r).
    { intros x. unfold endswith. simpl. rewrite rev_app_distr. simpl.
      destruct (rev p ++ [q]); simpl; now rewrite andb_true_r. }
    unfold DQUOTE, SQUOTE. rewrite !E. simpl.
    rewrite !startswith_nil, !andb_true_r.
    destruct Q, R; subst; try discriminate; reflexivity. }
  split; [apply M; auto; reflexivity|].
  split; [apply M; auto; reflexivity|].
  unfold unquote_if_needed. now rewrite strip_idempotent.
Qed.

Section Quoting.

Context {L : PyLib}.

(** X5.  Quoting a payload does not change what a term counts: under each
    of the mode prefixes, the term with its payload in quotes counts what
    the term with the bare payload counts. *)
Theorem quoting_keeps_count (text : str) (m : mode) (q : char) (p : str) :
  q = 34%N \/ q = 39%N -> strip p = p -> unquote_if_needed p = p ->
  term_match_count text (prefix_of m ++ [q] ++ p ++ [q])
  = term_match_count text (prefix_of m ++ p).
Proof.
  intros Hq Hs Hu. unfold term_match_count.
  rewrite !parse_term_prefixed, Hs. simpl app.
  rewrite wrapped_tight by (destruct Hq; subst; reflexivity).
  rewrite (unquote_wrapped p Hq), Hu. reflexivity.
Qed.

End Quoting.

(** X5 at the phrase of scenario A. *)
Lemma quoting_keeps_count_witness :
  @term_match_count Small.lib
    (lit "Invoice total. Nota Fiscal 123. INVOICE due.")
    (prefix_of m_ci ++ [39%N] ++ lit "nota fiscal" ++ [39%N])
  = @term_match_count Small.lib
      (lit "Invoice total. Nota Fiscal 123. INVOICE due.")
      (prefix_of m_ci ++ lit "nota fiscal").
Proof.
  apply (@quoting_keeps_count Small.lib _ m_ci 39%N (lit "nota fiscal")).
  - right; reflexivity.
  - reflexivity.
  - reflexivity.
Defined.

(** ** Counting occurrences *)

Lemma startswith_iff (s p : str) :
  startswith s p = true <-> exists b, s = p ++ b.
Proof.
  revert s; induction p as [|x p IH]; intros s.
  - rewrite startswith_nil. split; [exists s; reflexivity | reflexivity].
  - destruct s as [|y s]; simpl.
    + split; [discriminate | intros [b H]; discriminate].
    + rewrite andb_true_iff, IH. unfold char_eqb. rewrite N.eqb_eq. split.
      * intros [-> [b ->]]. now exists b.
      * intros [b H]. inversion H; subst. split; [reflexivity | now exists b].
Qed.

Lemma startswith_length (s p : str) :
  startswith s p = true -> List.length p <= List.length s.
Proof.
  intros H. apply startswith_iff in H. destruct H as [b ->].
  rewrite length_app. lia.
Qed.

Lemma count_go_bound (p : str) (s : str) :
  forall k, k <= List.length s ->
    k + count_go (m_literal p) k s * List.length p <= List.length s.
Proof.
  induction s as [|c r IH]; intros k Hk; simpl in *; [lia|].
  destruct k as [|k].
  - unfold m_literal at 1.
    destruct (startswith (c :: r) p) eqn:E.
    + apply startswith_length in E. simpl in E.
      destruct (List.length p) as [|j] eqn:Ep.
      * specialize (IH 0). lia.
      * specialize (IH j). simpl. lia.
    + specialize (IH 0). lia.
  - specialize (IH k). lia.
Qed.

Lemma count_bound (s p : str) :
  count s p * List.length p <= List.length s.
Proof. pose proof (count_go_bound p s (k := 0)). unfold count. lia. Qed.

Lemma count_go_found (p : str) (s : str) :
  forall k, 0 < count_go (m_literal p) k s -> substring p s.
Proof.
  induction s as [|c r IH]; intros k H; simpl in H; [lia|].
  assert (G : substring p r -> substring p (c :: r)).
  { intros (a & b & ->). now exists (c :: a), b. }
  destruct k as [|k]; [|eauto].
  unfold m_literal at 1 in H.
  destruct (startswith (c :: r) p) eqn:E.
  - apply startswith_iff in E. destruct E as [b E].
    exists [], b. exact E.
  - eauto.
Qed.

Lemma count_go_finds (p : str) (a b : str) :
  p <> [] -> 0 < count_go (m_literal p) 0 (a ++ p ++ b).
Proof.
  intros Np. induction a as [|c a IH].
  - destruct p as [|x p]; [contradiction|]. simpl app.
    simpl. unfold m_literal at 1.
    change (x :: p ++ b) with ((x :: p) ++ b). rewrite startswith_app.
    simpl. lia.
  - simpl. destruct (m_literal p (c :: a ++ p ++ b)); [exact IH | lia].
Qed.

Lemma count_pos_iff (s p : str) :
  p <> [] -> (0 < count s p <-> substring p s).
Proof.
  intros Np. unfold count. split.
  - apply count_go_found.
  - intros (a & b & ->). now apply count_go_finds.
Qed.

Section LiteralCounts.

Context {L : PyLib}.

(** X6.  In a literal mode a term counts something exactly when its
    normalised payload is not empty and occurs in the normalised text, and
    the occurrences counted do not overlap: the count times the length of
    the payload is at most the length of the text. *)
Theorem literal_count_is_substring (text term : str) (m : mode)
    (payload : str) (cf sa : bool) :
  parse_term term = (m, payload) -> profile m = Some (cf, sa) ->
  exists c,
    term_match_count text term = Ok c
    /\ ((0 < c)%Z <->
        normalize (unquote_if_needed payload) cf sa <> []
        /\ substring (normalize (unquote_if_needed payload) cf sa)
             (normalize text cf sa))
    /\ (c * Z.of_nat (List.length (normalize (unquote_if_needed payload) cf sa))
        <= Z.of_nat (List.length (normalize text cf sa)))%Z.
Proof.
  intros Hp Hm.
  assert (G : term_match_count text term =
              Ok (if negb (truthy (normalize (unquote_if_needed payload) cf sa))
                  then 0%Z
                  else Z.of_nat (count (normalize text cf sa)
                                   (normalize (unquote_if_needed payload) cf sa)))).
  { unfold term_match_count. rewrite Hp.
    destruct m; inversion Hm; subst; try reflexivity.
    unfold normalize. destruct (negb _); reflexivity. }
  rewrite G. eexists. split; [reflexivity|].
  destruct (normalize (unquote_if_needed payload) cf sa) as [|x nn] eqn:E;
    simpl negb; cbv iota.
  - split; [|simpl; lia]. split; [lia | intros [H _]; contradiction].
  - split.
    + rewrite <- count_pos_iff by discriminate. split.
      * intros H. split; [discriminate | lia].
      * intros [_ H]. lia.
    + pose proof (count_bound (normalize text cf sa) (x :: nn)). lia.
Qed.

End LiteralCounts.

(** X6 at a term of scenario A. *)
Lemma literal_count_is_substring_witness :
  exists c,
    @term_match_count Small.lib
      (lit "Invoice total. Nota Fiscal 123. INVOICE due.") (lit "ci:invoice")
    = Ok c
    /\ ((0 < c)%Z <->
        @normalize Small.lib (unquote_if_needed (lit "invoice")) true false <> []
        /\ substring
             (@normalize Small.lib (unquote_if_needed (lit "invoice")) true false)
             (@normalize Small.lib
                (lit "Invoice total. Nota Fiscal 123. INVOICE due.") true false))
    /\ (c * Z.of_nat (List.length
                        (@normalize Small.lib
                           (unquote_if_needed (lit "invoice")) true false))
        <= Z.of_nat (List.length
                       (@normalize Small.lib
                          (lit "Invoice total. Nota Fiscal 123. INVOICE due.")
                          true false)))%Z.
Proof.
  apply (@literal_count_is_substring Small.lib
           (lit "Invoice total. Nota Fiscal 123. INVOICE due.")
           (lit "ci:invoice") m_ci (lit "invoice") true false);
    reflexivity.
Defined.

(** ** Scores and hits *)

Lemma join_nil (sep : str) (parts : list str) :
  Forall (fun p => p <> []) parts -> (join sep parts = [] <-> parts = []).
Proof.
  intros H. destruct H as [|p ps Hp Hps]; [tauto|].
  split; [|discriminate]. simpl.
  destruct ps; intros E; [contradiction|].
  apply app_eq_nil in E. destruct E; contradiction.
Qed.

Section ScoresAndHits.

Context {L : PyLib}.

Lemma score_terms_hits (text : str) (terms : list str) :
  forall s h s' h',
    score_terms text terms s h = Ok (s', h') ->
    exists extra,
      h' = h ++ extra /\ Forall (fun p => p <> []) extra
      /\ (s' = s <-> extra = []) /\ (s <= s')%Z.
Proof.
  induction terms as [|t terms IH]; simpl; intros s h s' h' H.
  - inversion H; subst. exists []. rewrite app_nil_r.
    repeat split; auto; lia.
  - destruct (term_match_count text t) as [c|e] eqn:E; simpl in H;
      [|discriminate].
    destruct (Z.gtb_spec c 0).
    + apply IH in H. destruct H as (extra & -> & Hf & _ & Hle).
      eexists. rewrite <- app_assoc. split; [reflexivity|].
      split; [constructor; [|exact Hf]|].
      * intros N. apply app_eq_nil in N. destruct N as [_ N]. discriminate.
      * split; [split; [lia | discriminate] | lia].
    + now apply IH in H.
Qed.

Lemma score_all_hits (text : str) (rules : rules_t) (scored : list scored_t) :
  score_all text rules = Ok scored ->
  Forall (fun x => (0 <= score_of x)%Z
                   /\ (score_of x = 0%Z <-> hits_of x = [])) scored.
Proof.
  revert scored; induction rules as [|[cat terms] rules IH]; simpl;
    intros scored H.
  - inversion H; constructor.
  - destruct (score_terms text terms 0 []) as [[s h]|e] eqn:E; simpl in H;
      [|discriminate].
    destruct (score_all text rules) as [tl|e]; simpl in H; [|discriminate].
    inversion H; subst. constructor; [|now apply IH].
    apply score_terms_hits in E. destruct E as (extra & -> & Hf & Hz & Hle).
    unfold score_of, hits_of; simpl. split; [assumption|].
    rewrite Hz. symmetry. now apply join_nil.
Qed.

(** The two entries [best_two_categories] returns and the entries behind
    them. *)
Lemma best_two_shape (text : str) (rules : rules_t) (scored : list scored_t) :
  score_all text rules = Ok scored ->
  exists t1 t2 rest,
    best_two_categories text rules = Ok (t1, t2)
    /\ (Permutation scored (t1 :: t2 :: rest)
        \/ (scored = [t1] /\ t2 = default_entry /\ rest = [])
        \/ (scored = [] /\ t1 = default_entry /\ t2 = default_entry
            /\ rest = []))
    /\ (0 <= score_of t2 <= score_of t1)%Z
    /\ Forall (fun x => (score_of x <= score_of t2)%Z) rest
    /\ (score_of t1 = 0%Z <-> hits_of t1 = [])
    /\ (score_of t2 = 0%Z <-> hits_of t2 = []).
Proof.
  intros Hs. unfold best_two_categories, ranking. rewrite Hs. simpl.
  pose proof (sort_desc_perm scored) as Hp.
  pose proof (sort_desc_descending scored) as Hd.
  pose proof (score_all_hits _ _ Hs) as Hn.
  apply (Permutation_Forall (Permutation_sym Hp)) in Hn.
  destruct (sort_desc scored) as [|x [|y rest]].
  - apply Permutation_nil in Hp. subst.
    exists default_entry, default_entry, []. split; [reflexivity|].
    split; [right; right; repeat split; reflexivity|].
    unfold default_entry, score_of, hits_of; simpl.
    split; [lia|]. split; [constructor|]. split; split; reflexivity.
  - apply Permutation_length_1_inv in Hp. subst.
    exists x, default_entry, []. split; [reflexivity|].
    split; [right; left; repeat split; reflexivity|].
    inversion Hn as [|? ? [H0 H1] _]; subst.
    split; [unfold default_entry, score_of at 1 2; simpl; lia|].
    split; [constructor|]. split; [exact H1|].
    unfold default_entry, score_of, hits_of; simpl. split; reflexivity.
  - exists x, y, rest. split; [reflexivity|].
    split; [left; now symmetry|].
    inversion Hn as [|? ? [Hx0 Hx1] Hn']; subst.
    inversion Hn' as [|? ? [Hy0 Hy1] _]; subst.
    inversion Hd as [|? ? Hd' Hfx]; subst.
    inversion Hd' as [|? ? _ Hfy]; subst.
    inversion Hfx; subst.
    split; [lia|]. split; [|split; assumption].
    eapply Forall_impl; [|exact Hfy]. simpl; intros; lia.
Qed.

(** X7.  The entry that is written as the label has the highest score of
    all categories and the runner-up the highest of the others; neither
    score is negative, so the margin between them is not negative either.
    With two categories or more both are entries of the scored list; with
    one category the runner-up is the default UNKNOWN entry, and with none
    both are. *)
Theorem best_two_are_the_highest (text : str) (rules : rules_t)
    (scored : list scored_t) :
  score_all text rules = Ok scored ->
  exists t1 t2 rest,
    best_two_categories text rules = Ok (t1, t2)
    /\ (0 <= score_of t2 <= score_of t1)%Z
    /\ Forall (fun x => (score_of x <= score_of t1)%Z) scored
    /\ Forall (fun x => (score_of x <= score_of t2)%Z) rest
    /\ match scored with
       | [] => t1 = default_entry /\ t2 = default_entry
       | [x] => t1 = x /\ t2 = default_entry
       | _ => Permutation scored (t1 :: t2 :: rest)
       end.
Proof.
  intros Hs.
  destruct (best_two_shape _ _ Hs)
    as (t1 & t2 & rest & Hb & Hshape & Hle & Hrest & _).
  exists t1, t2, rest. split; [assumption|]. split; [assumption|].
  split; [|split; [assumption|]].
  - destruct Hshape as [Hp|[(-> & _)|(-> & _)]].
    + apply (Permutation_Forall (Permutation_sym Hp)).
      constructor; [lia|]. constructor; [lia|].
      eapply Forall_impl; [|exact Hrest]. simpl; intros; lia.
    + constructor; [lia | constructor].
    + constructor.
  - destruct Hshape as [Hp|[(-> & -> & _)|(-> & -> & -> & _)]]; auto.
    destruct scored as [|a [|b s]]; auto.
    + apply Permutation_length in Hp. discriminate.
    + apply Permutation_length in Hp. discriminate.
Qed.

(** X8.  An entry that [best_two_categories] returns has an empty hits
    string exactly when its score is 0. *)
Theorem hits_empty_iff_score_zero (text : str) (rules : rules_t)
    (t1 t2 : scored_t) :
  best_two_categories text rules = Ok (t1, t2) ->
  (score_of t1 = 0%Z <-> hits_of t1 = [])
  /\ (score_of t2 = 0%Z <-> hits_of t2 = []).
Proof.
  intros Hb.
  destruct (score_all text rules) as [scored|e] eqn:Hs.
  - destruct (best_two_shape _ _ Hs)
      as (u1 & u2 & rest & Hb' & _ & _ & _ & H1 & H2).
    rewrite Hb in Hb'. inversion Hb'; subst. split; assumption.
  - unfold best_two_categories, ranking in Hb. rewrite Hs in Hb.
    discriminate.
Qed.

(** X9.  A document is decided AUTO only when its label's category scores
    at least 2 and every other category scores more than 1 below it. *)
Theorem auto_means_dominant (rules : rules_t) (st : counters) (r : row)
    (text : str) (scored : list scored_t) :
  forallb is_space text = false ->
  score_all text rules = Ok scored ->
  exists st' out,
    classify_text rules st r text = Ok st'
    /\ out_rows st' = out_rows st ++ [out]
    /\ (field out "decision" = Some (lit "AUTO") ->
        exists top others,
          Permutation scored (top :: others)
          /\ field out "label" = Some (cat_of top)
          /\ (2 <= score_of top)%Z
          /\ Forall (fun x => (score_of x + 1 < score_of top)%Z) others
          /\ auto st' = (auto st + 1)%Z).
Proof.
  intros Hn Hs.
  destruct (best_two_shape _ _ Hs)
    as ([[c1 s1] h1] & [[c2 s2] h2] & rest & Hb & Hshape & Hle & Hrest & _).
  rewrite (classify_text_scored _ st r text Hn Hb). cbv zeta.
  eexists. eexists. split; [reflexivity|]. split; [reflexivity|].
  rewrite !field_set_fields.
  change (find (fun kv => str_eqb (fst kv) (lit "decision")) (rev _))
    with (Some (lit "decision",
                if ((s1 >=? DEFAULT_AUTO_THRESHOLD)%Z
                    && (s1 - s2 >? DEFAULT_REVIEW_GAP)%Z
                    && negb (str_eqb c1 UNKNOWN))
                then lit "AUTO" else lit "REVIEW")).
  cbv beta iota. unfold snd at 1. simpl auto.
  destruct ((s1 >=? DEFAULT_AUTO_THRESHOLD)%Z
            && (s1 - s2 >? DEFAULT_REVIEW_GAP)%Z
            && negb (str_eqb c1 UNKNOWN)) eqn:B; [|discriminate].
  intros _. apply andb_true_iff in B. destruct B as [B B3].
  apply andb_true_iff in B. destruct B as [B1 B2].
  unfold DEFAULT_AUTO_THRESHOLD in B1. unfold DEFAULT_REVIEW_GAP in B2.
  apply Z.geb_le in B1. apply Z.gtb_lt in B2.
  unfold score_of in Hle, Hrest; simpl in Hle, Hrest.
  destruct Hshape as [Hp|[(-> & _ & ->)|(_ & E & _)]].
  - exists (c1, s1, h1), ((c2, s2, h2) :: rest).
    split; [assumption|]. split; [reflexivity|].
    unfold score_of; simpl. split; [assumption|]. split; [|reflexivity].
    constructor; [simpl; lia|].
    eapply Forall_impl; [|exact Hrest]. simpl; intros; lia.
  - exists (c1, s1, h1), []. split; [reflexivity|].
    split; [reflexivity|]. unfold score_of; simpl.
    split; [assumption|]. split; [constructor | reflexivity].
  - inversion E; subst. discriminate B3.
Qed.

End ScoresAndHits.

(** ** The order of the terms *)

Section TermOrder.

Context {L : PyLib}.

Lemma sum_counts_perm (text : str) (t t' : list str) :
  Permutation t t' ->
  forall v, sum_counts text t = Ok v -> sum_counts text t' = Ok v.
Proof.
  induction 1 as [|x l l' _ IH|x y l|l l' l'' _ IH1 _ IH2]; intros v Hv.
  - exact Hv.
  - simpl in *. destruct (term_match_count text x) as [c|e]; simpl in *;
      [|discriminate].
    destruct (sum_counts text l) as [s|e]; simpl in *; [|discriminate].
    now rewrite (IH s eq_refl).
  - simpl in *.
    destruct (term_match_count text y) as [cy|e]; simpl in *; [|discriminate].
    destruct (term_match_count text x) as [cx|e]; simpl in *; [|discriminate].
    destruct (sum_counts text l) as [s|e]; simpl in *; [|discriminate].
    inversion Hv; subst. f_equal. lia.
  - auto.
Qed.

Lemma score_terms_of_sum (text : str) (terms : list str) :
  forall v, sum_counts text terms = Ok v ->
    forall s h, exists h', score_terms text terms s h = Ok ((s + v)%Z, h').
Proof.
  induction terms as [|t terms IH]; intros v Hv s h.
  - inversion Hv; subst. exists h. simpl. f_equal. f_equal. lia.
  - cbn [sum_counts score_terms] in *.
    destruct (term_match_count text t) as [c|e] eqn:E;
      [|discriminate Hv].
    cbn [bind] in *.
    destruct (sum_counts text terms) as [w|e]; [|discriminate Hv].
    cbn [bind] in Hv. inversion Hv; subst.
    apply term_match_count_nonneg in E.
    destruct (Z.gtb_spec c 0).
    + destruct (IH w eq_refl (s + c)%Z
                  (h ++ [t ++ lit "(" ++ str_of_int c ++ lit ")"]))
        as [h' Hh].
      exists h'. rewrite Hh. f_equal. f_equal. lia.
    + destruct (IH w eq_refl s h) as [h' Hh].
      exists h'. rewrite Hh. f_equal. f_equal. lia.
Qed.


End TermOrder.

(** ** The rows that are written *)

Lemma find_key_absent (fields : list (str * str)) (k : key) :
  ~ In k (map (fun kv => Some (fst kv)) fields) ->
  find (fun kv => key_eqb (Some (fst kv)) k) fields = None.
Proof.
  induction fields as [|[c v] fields IH]; [reflexivity|].
  cbn [find map In fst]. intros H.
  destruct (key_eqb (Some c) k) eqn:E.
  - apply key_eqb_eq in E. subst. exfalso. apply H. now left.
  - apply IH. intros Hin. apply H. now right.
Qed.

Lemma find_key_present (fields : list (str * str)) (k : key) :
  In k (map (fun kv => Some (fst kv)) fields) ->
  exists kv, find (fun kv => key_eqb (Some (fst kv)) k) fields = Some kv.
Proof.
  induction fields as [|[c v] fields IH]; [intros []|].
  cbn [find map In fst]. intros H.
  destruct (key_eqb (Some c) k) eqn:E; [eexists; reflexivity|].
  apply IH. destruct H as [H|H]; [|assumption].
  subst. now rewrite key_eqb_refl in E.
Qed.

Lemma set_fields_other (r : row) (fields : list (str * str)) (k : key) :
  ~ In k (map (fun kv => Some (fst kv)) fields) ->
  row_get (set_fields r fields) k = row_get r k.
Proof.
  intros H. rewrite row_get_set_fields.
  rewrite find_key_absent; [reflexivity|].
  rewrite map_rev. now rewrite <- in_rev.
Qed.

Lemma set_fields_present (r : row) (fields : list (str * str)) (k : key) :
  In k (map (fun kv => Some (fst kv)) fields) ->
  row_get (set_fields r fields) k <> None.
Proof.
  intros H. rewrite row_get_set_fields.
  destruct (@find_key_present (rev fields) k) as [kv ->]; [|discriminate].
  rewrite map_rev. now rewrite <- in_rev.
Qed.

Section Rows.

Context {L : PyLib}.

Lemma classify_text_row (rules : rules_t) (st st' : counters) (r : row)
    (text : str) :
  classify_text rules st r text = Ok st' ->
  exists fields,
    out_rows st' = out_rows st ++ [set_fields r fields]
    /\ map (fun kv => Some (fst kv)) fields = written_fields
    /\ (auto st <= auto st' /\ review st <= review st'
        /\ no_text st <= no_text st')%Z
    /\ (auto st' + review st' + no_text st'
        = auto st + review st + no_text st + 1)%Z.
Proof.
  unfold classify_text. destruct (negb (truthy (strip text))).
  - intros H; inversion H; subst; clear H.
    cbn [out_rows auto review no_text].
    exists [(lit "label", lit "NO_TEXT"); (lit "score", lit "0");
            (lit "hits", []); (lit "top2_label", []); (lit "top2_score", []);
            (lit "decision", lit "NEEDS_OCR_OR_BETTER_EXTRACT")].
    split; [reflexivity|]. split; [reflexivity|]. lia.
  - destruct (best_two_categories text rules)
      as [[[[c1 s1] h1] [[c2 s2] h2]]|e]; cbn [bind]; [|discriminate].
    intros H; inversion H; subst; clear H.
    cbn [out_rows auto review no_text].
    exists [(lit "label", c1); (lit "score", str_of_int s1); (lit "hits", h1);
            (lit "top2_label", c2); (lit "top2_score", str_of_int s2);
            (lit "decision",
             if ((s1 >=? DEFAULT_AUTO_THRESHOLD)%Z
                 && (s1 - s2 >? DEFAULT_REVIEW_GAP)%Z
                 && negb (str_eqb c1 UNKNOWN))
             then lit "AUTO" else lit "REVIEW")].
    split; [reflexivity|]. split; [reflexivity|].
    destruct ((s1 >=? DEFAULT_AUTO_THRESHOLD)%Z
              && (s1 - s2 >? DEFAULT_REVIEW_GAP)%Z
              && negb (str_eqb c1 UNKNOWN)); lia.
Qed.

(** X11.  The row written for a document is the manifest row with the six
    result columns set: every other column keeps its value, the six are
    always there, and exactly one of the three counters goes up by one. *)
Theorem row_passes_manifest_through (rules : rules_t) (st st' : counters)
    (r : row) (text : str) :
  classify_text rules st r text = Ok st' ->
  exists out,
    out_rows st' = out_rows st ++ [out]
    /\ (forall k, ~ In k written_fields -> row_get out k = row_get r k)
    /\ (forall k, In k written_fields -> row_get out k <> None)
    /\ (auto st <= auto st' /\ review st <= review st'
        /\ no_text st <= no_text st')%Z
    /\ (auto st' + review st' + no_text st'
        = auto st + review st + no_text st + 1)%Z.
Proof.
  intros H. apply classify_text_row in H.
  destruct H as (fields & Ho & Hf & Hm & Hsum).
  exists (set_fields r fields). split; [assumption|].
  split; [|split; [|split; assumption]].
  - intros k Hk. apply set_fields_other. now rewrite Hf.
  - intros k Hk. apply set_fields_present. now rewrite Hf.
Qed.

End Rows.

(** ** The run over the manifest *)

Lemma written_row_other (r out : row) (k : key) :
  written_row r out -> ~ In k written_fields -> row_get out k = row_get r k.
Proof.
  intros (fields & -> & Hf) Hk. apply set_fields_other. now rewrite Hf.
Qed.

Lemma written_row_present (r out : row) (k : key) :
  written_row r out -> In k written_fields -> row_get out k <> None.
Proof.
  intros (fields & -> & Hf) Hk. apply set_fields_present. now rewrite Hf.
Qed.

Lemma key_eqb_sym (a b : key) : key_eqb a b = key_eqb b a.
Proof.
  destruct (key_eqb a b) eqn:E.
  - apply key_eqb_eq in E. subst. now rewrite key_eqb_refl.
  - apply key_eqb_neq in E. symmetry. apply key_eqb_neq. congruence.
Qed.

Lemma key_mem_row_get (r : row) (k : key) :
  key_mem k (map fst r) = true <-> row_get r k <> None.
Proof.
  unfold key_mem. induction r as [|[k' v] r IH]; cbn [map existsb row_get fst].
  - split; [discriminate | congruence].
  - rewrite (key_eqb_sym k k'). destruct (key_eqb k' k); cbn [orb].
    + split; [discriminate | reflexivity].
    + exact IH.
Qed.

Lemma In_keys_row_get (r : row) (k : key) :
  In k (map fst r) -> row_get r k <> None.
Proof.
  intros H. apply key_mem_row_get. unfold key_mem. apply existsb_exists.
  exists k. split; [assumption | apply key_eqb_refl].
Qed.

Lemma forallb_false {A} (f : A -> bool) (l : list A) :
  forallb f l = false -> exists x, In x l /\ f x = false.
Proof.
  induction l as [|x l IH]; simpl; [discriminate|].
  destruct (f x) eqn:E.
  - intros H. destruct (IH H) as (y & Hy & Fy). exists y. auto.
  - intros _. exists x. auto.
Qed.

Lemma row_get_In_keys (r : row) (k : key) :
  row_get r k <> None -> In k (map fst r).
Proof.
  intros H. apply key_mem_row_get in H. unfold key_mem in H.
  apply existsb_exists in H. destruct H as (x & Hx & E).
  apply key_eqb_eq in E. now subst.
Qed.

(** The writer raises ValueError, and nothing else, exactly when a row
    has a key that the first row does not have. *)
Lemma writerows_spec (out : list row) :
  let refused :=
    exists o k, In o out /\ row_get o k <> None
                /\ row_get (hd [] out) k = None in
  (writerows out = Raise ValueError /\ refused)
  \/ (writerows out = Ok tt /\ ~ refused).
Proof.
  intros refused. unfold writerows.
  destruct (forallb _ out) eqn:F.
  - right. split; [reflexivity|]. intros (o & k & Ho & Hk & Hfirst).
    rewrite forallb_forall in F. specialize (F o Ho).
    assert (W : In k (wrong_fields (fieldnames out) o)).
    { unfold wrong_fields. apply filter_In.
      split; [now apply row_get_In_keys|]. apply negb_true_iff.
      destruct out as [|first out]; [contradiction|].
      cbn [hd fieldnames] in *.
      destruct (key_mem k (map fst first)) eqn:M; [|reflexivity].
      apply key_mem_row_get in M. contradiction. }
    destruct (wrong_fields (fieldnames out) o); [contradiction | discriminate].
  - left. split; [reflexivity|].
    apply forallb_false in F. destruct F as (o & Ho & F).
    destruct (wrong_fields (fieldnames out) o) as [|k w] eqn:W;
      [discriminate|].
    exists o, k. split; [assumption|].
    assert (Hk : In k (wrong_fields (fieldnames out) o))
      by (rewrite W; now left).
    unfold wrong_fields in Hk. apply filter_In in Hk. destruct Hk as [Hin Hm].
    split; [now apply In_keys_row_get|].
    apply negb_true_iff in Hm.
    destruct out as [|first out]; [contradiction|]. cbn [hd fieldnames] in *.
    destruct (row_get first k) eqn:G; [|reflexivity].
    assert (M : key_mem k (map fst first) = true)
      by (apply key_mem_row_get; congruence).
    congruence.
Qed.

Lemma Forall2_In_r {A B} (R : A -> B -> Prop) (l : list A) (l' : list B)
    (y : B) :
  Forall2 R l l' -> In y l' -> exists x, In x l /\ R x y.
Proof.
  induction 1 as [|a b l l' Hab _ IH]; [intros []|].
  intros [<-|Hy].
  - exists a. split; [now left | assumption].
  - destruct (IH Hy) as (x & Hx & Rx). exists x. split; [now right | assumption].
Qed.

Lemma Forall2_In_l {A B} (R : A -> B -> Prop) (l : list A) (l' : list B)
    (x : A) :
  Forall2 R l l' -> In x l -> exists y, In y l' /\ R x y.
Proof.
  induction 1 as [|a b l l' Hab _ IH]; [intros []|].
  intros [<-|Hx].
  - exists b. split; [now left | assumption].
  - destruct (IH Hx) as (y & Hy & Ry). exists y. split; [now right | assumption].
Qed.

(** The rows written hold a key the first of them lacks exactly when the
    manifest rows do, the six written columns apart. *)
Lemma surplus_written (rows outs : list row) :
  Forall2 (fun r out => has_columns r = true /\ written_row r out) rows outs ->
  (exists o k, In o outs /\ row_get o k <> None
               /\ row_get (hd [] outs) k = None)
  <-> surplus_field rows.
Proof.
  intros Hf. split.
  - intros (o & k & Ho & Hk & Hfirst).
    assert (Kw : ~ In k written_fields).
    { intros Kw. destruct Hf as [|r1 o1 rows' outs' [_ Hw] _];
        [contradiction|].
      cbn [hd] in Hfirst. now apply (written_row_present Hw Kw). }
    destruct (Forall2_In_r o Hf Ho) as (r & Hr & _ & Hw).
    exists r, k. split; [assumption|].
    split; [now rewrite <- (written_row_other Hw Kw)|].
    split; [assumption|].
    destruct Hf as [|r1 o1 rows' outs' [_ Hw1] _]; [contradiction|].
    cbn [hd] in *. now rewrite <- (written_row_other Hw1 Kw).
  - intros (r & k & Hr & Hk & Kw & Hfirst).
    destruct (Forall2_In_l r Hf Hr) as (o & Ho & _ & Hw).
    exists o, k. split; [assumption|].
    split; [now rewrite (written_row_other Hw Kw)|].
    destruct Hf as [|r1 o1 rows' outs' [_ Hw1] _]; [contradiction|].
    cbn [hd] in *. now rewrite (written_row_other Hw1 Kw).
Qed.

Section Run.

Context {L : PyLib}.

Lemma process_row_columns (texts : text_dir) (rules : rules_t)
    (st st' : counters) (r : row) :
  process_row texts rules st r = Ok st' ->
  has_columns r = true
  /\ exists text, classify_text rules st r text = Ok st'.
Proof.
  unfold process_row, has_columns.
  destruct (row_get r (Some (lit "relpath"))) as [v|]; [|discriminate].
  destruct (row_get r (Some (lit "kind"))); [|discriminate].
  destruct v as [rel| |l]; try discriminate.
  destruct (texts (safe_name rel)) as [found|e]; [|discriminate].
  cbn [bind]. intros H. split; [reflexivity | eexists; exact H].
Qed.

Lemma process_rows_counts (texts : text_dir) (rules : rules_t)
    (rows : list row) :
  forall st st',
    process_rows texts rules st rows = Ok st' ->
    exists outs,
      out_rows st' = out_rows st ++ outs
      /\ Forall2 (fun r out => has_columns r = true /\ written_row r out)
           rows outs
      /\ (auto st <= auto st' /\ review st <= review st'
          /\ no_text st <= no_text st')%Z
      /\ (auto st' + review st' + no_text st'
          = auto st + review st + no_text st
            + Z.of_nat (List.length rows))%Z.
Proof.
  induction rows as [|r rows IH]; intros st st' H.
  - simpl in H. inversion H; subst. exists []. rewrite app_nil_r.
    split; [reflexivity|]. split; [constructor|]. simpl. lia.
  - cbn [process_rows] in H.
    destruct (process_row texts rules st r) as [st1|e] eqn:E;
      [|discriminate H].
    cbn [bind] in H. apply IH in H.
    destruct H as (outs & Ho & Hf & Hm & Hsum).
    apply process_row_columns in E. destruct E as (Hc & text & E).
    apply classify_text_row in E.
    destruct E as (fields & Ho1 & Hf1 & Hm1 & Hsum1).
    exists (set_fields r fields :: outs).
    split; [rewrite Ho, Ho1, <- app_assoc; reflexivity|].
    split; [constructor; [|assumption]|].
    + split; [assumption|]. exists fields. split; [reflexivity | assumption].
    + rewrite length_cons, Nat2Z.inj_succ. lia.
Qed.

(** X12.  A run that finishes writes one row per manifest row, in the
    order of the manifest and with the manifest's columns kept, and its
    three counts add up to the number of rows. *)
Theorem run_accounts_for_every_row (texts : text_dir) (rules_text : str)
    (rows : list row) (st : counters) :
  run texts rules_text rows = Finished st ->
  Forall2 (fun r out =>
             has_columns r = true
             /\ forall k, ~ In k written_fields ->
                          row_get out k = row_get r k)
    rows (out_rows st)
  /\ (0 <= auto st /\ 0 <= review st /\ 0 <= no_text st)%Z
  /\ (auto st + review st + no_text st = Z.of_nat (List.length rows))%Z.
Proof.
  unfold run. destruct (load_rules rules_text) as [|x d]; [discriminate|].
  destruct (process_rows texts (x :: d) _ rows) as [st'|e] eqn:E;
    [|discriminate].
  destruct (writerows (out_rows st')); [|discriminate].
  intros H; inversion H; subst; clear H.
  apply process_rows_counts in E.
  destruct E as (outs & Ho & Hf & Hm & Hsum). simpl in *.
  subst outs. split; [|lia].
  eapply Forall2_impl; [|exact Hf].
  intros r out [Hc Hw]. split; [assumption|].
  intros k Hk. now apply written_row_other.
Qed.

(** X13.  A manifest row whose text file does not exist, or holds only
    whitespace, gets the NO_TEXT row, whatever the rules and whatever the
    kind column holds. *)
Theorem missing_text_file_is_no_text (texts : text_dir) (rules : rules_t)
    (st : counters) (r : row) (rel : str) (kind : value) :
  row_get r (Some (lit "relpath")) = Some (Str rel) ->
  row_get r (Some (lit "kind")) = Some kind ->
  (texts (safe_name rel) = Ok None
   \/ exists t, texts (safe_name rel) = Ok (Some t)
                /\ forallb is_space t = true) ->
  exists out,
    process_row texts rules st r =
      Ok {| out_rows := out_rows st ++ [out];
            auto := auto st;
            review := review st;
            no_text := (no_text st + 1)%Z |}
    /\ field out "label" = Some (lit "NO_TEXT")
    /\ field out "decision" = Some (lit "NEEDS_OCR_OR_BETTER_EXTRACT")
    /\ field out "relpath" = Some rel.
Proof.
  intros Hr Hk Ht. unfold process_row. rewrite Hr, Hk.
  assert (B : forall t, forallb is_space t = true ->
            exists out,
              classify_text rules st r t =
                Ok {| out_rows := out_rows st ++ [out];
                      auto := auto st;
                      review := review st;
                      no_text := (no_text st + 1)%Z |}
              /\ field out "label" = Some (lit "NO_TEXT")
              /\ field out "decision"
                 = Some (lit "NEEDS_OCR_OR_BETTER_EXTRACT")
              /\ field out "relpath" = Some rel).
  { intros t Hs. unfold classify_text. rewrite truthy_strip, Hs.
    simpl negb. cbv iota. eexists. split; [reflexivity|].
    rewrite !field_set_fields. split; [reflexivity|].
    split; [reflexivity|]. cbn [find rev app fst str_eqb].
    unfold field. now rewrite Hr. }
  destruct Ht as [->|(t & -> & Hs)]; cbn [bind];
    [apply B; reflexivity | now apply B].
Qed.

Lemma score_terms_literal (text : str) (terms : list str) :
  forallb literal_term terms = true ->
  forall s h, exists res, score_terms text terms s h = Ok res.
Proof.
  induction terms as [|t terms IH]; simpl; intros H s h.
  - eexists; reflexivity.
  - apply andb_true_iff in H. destruct H as [Ht Hr].
    destruct (@term_match_count_literal_total L text t) as (n & -> & _).
    + unfold literal_term in Ht. destruct (fst (parse_term t)); congruence.
    + unfold literal_term in Ht. destruct (fst (parse_term t)); congruence.
    + simpl. destruct (n >? 0)%Z; apply IH; assumption.
Qed.

Lemma score_all_literal (text : str) (rules : rules_t) :
  literal_rules rules = true -> exists scored, score_all text rules = Ok scored.
Proof.
  unfold literal_rules.
  induction rules as [|[cat terms] rules IH]; simpl; intros H.
  - eexists; reflexivity.
  - apply andb_true_iff in H. destruct H as [Ht Hr].
    destruct (score_terms_literal text terms Ht 0%Z []) as [res ->].
    destruct (IH Hr) as [scored ->]. simpl. eexists; reflexivity.
Qed.

Lemma classify_text_literal (rules : rules_t) (st : counters) (r : row)
    (text : str) :
  literal_rules rules = true ->
  exists st', classify_text rules st r text = Ok st'.
Proof.
  intros H. unfold classify_text.
  destruct (negb (truthy (strip text))); [eexists; reflexivity|].
  unfold best_two_categories, ranking.
  destruct (score_all_literal text rules H) as [scored ->]. simpl.
  destruct (match sort_desc scored with x :: _ => x | [] => default_entry end)
    as [[c1 s1] h1].
  destruct (match sort_desc scored with
            | _ :: y :: _ => y | _ => default_entry end) as [[c2 s2] h2].
  eexists; reflexivity.
Qed.

Lemma process_row_readable (texts : text_dir) (rules : rules_t)
    (st st' : counters) (r : row) :
  process_row texts rules st r = Ok st' -> readable texts r.
Proof.
  unfold process_row, readable, has_columns.
  destruct (row_get r (Some (lit "relpath"))) as [v|]; [|discriminate].
  destruct (row_get r (Some (lit "kind"))); [|discriminate].
  destruct v as [rel| |l]; try discriminate.
  destruct (texts (safe_name rel)) as [found|e] eqn:T; [|discriminate].
  intros _. split; [reflexivity|]. exists rel, found.
  split; [reflexivity | exact T].
Qed.

Lemma process_row_ok (texts : text_dir) (rules : rules_t)
    (st : counters) (r : row) :
  literal_rules rules = true -> readable texts r ->
  exists st', process_row texts rules st r = Ok st'.
Proof.
  intros Hl (Hc & rel & found & Hr & Ht). unfold process_row.
  unfold has_columns in Hc. rewrite Hr in *.
  destruct (row_get r (Some (lit "kind"))); [|discriminate].
  rewrite Ht. cbn [bind]. now apply classify_text_literal.
Qed.

Lemma process_row_raises (texts : text_dir) (rules : rules_t)
    (st : counters) (r : row) (e : exn) :
  literal_rules rules = true ->
  process_row texts rules st r = Raise e <-> process_row_cause texts r e.
Proof.
  intros Hl. unfold process_row, process_row_cause, has_columns.
  destruct (row_get r (Some (lit "relpath"))) as [v|].
  2:{ split; [intros H; inversion H; left; split; reflexivity|].
      intros [[-> _]|[Hc _]]; [reflexivity | discriminate]. }
  destruct (row_get r (Some (lit "kind"))).
  2:{ split; [intros H; inversion H; left; split; reflexivity|].
      intros [[-> _]|[Hc _]]; [reflexivity | discriminate]. }
  destruct v as [rel| |l].
  - destruct (texts (safe_name rel)) as [found|e'] eqn:T; cbn [bind].
    + destruct (@classify_text_literal rules st r
                  (match found with Some t => t | None => [] end) Hl)
        as [st' ->].
      split; [discriminate|].
      intros [[_ Hc]|[_ [(_ & v & Hv & Hs)|(rel' & Hrel & Ht)]]].
      * discriminate.
      * inversion Hv; subst. now contradiction (Hs rel).
      * inversion Hrel; subst. congruence.
    + split.
      * intros H; inversion H; subst. right. split; [reflexivity|].
        right. exists rel. split; [reflexivity | exact T].
      * intros [[_ Hc]|[_ [(_ & v & Hv & Hs)|(rel' & Hrel & Ht)]]].
        -- discriminate.
        -- inversion Hv; subst. now contradiction (Hs rel).
        -- inversion Hrel; subst. congruence.
  - split.
    + intros H; inversion H. right. split; [reflexivity|]. left.
      split; [reflexivity|].
      exists NoneValue. split; [reflexivity | discriminate].
    + intros [[_ Hc]|[_ [(-> & _)|(rel' & Hrel & _)]]];
        [discriminate | reflexivity | discriminate].
  - split.
    + intros H; inversion H. right. split; [reflexivity|]. left.
      split; [reflexivity|].
      exists (Fields l). split; [reflexivity | discriminate].
    + intros [[_ Hc]|[_ [(-> & _)|(rel' & Hrel & _)]]];
        [discriminate | reflexivity | discriminate].
Qed.

Lemma process_rows_readable (texts : text_dir) (rules : rules_t)
    (rows : list row) :
  forall st st',
    process_rows texts rules st rows = Ok st' -> Forall (readable texts) rows.
Proof.
  induction rows as [|r rows IH]; intros st st' H; [constructor|].
  cbn [process_rows] in H.
  destruct (process_row texts rules st r) as [st1|e] eqn:E; [|discriminate H].
  cbn [bind] in H. constructor; [now apply process_row_readable in E|].
  now apply IH in H.
Qed.

Lemma process_rows_ok (texts : text_dir) (rules : rules_t)
    (rows : list row) :
  literal_rules rules = true -> Forall (readable texts) rows ->
  forall st, exists st', process_rows texts rules st rows = Ok st'.
Proof.
  intros Hl. induction 1 as [|r rows Hr _ IH]; intros st;
    [eexists; reflexivity|].
  cbn [process_rows].
  destruct (@process_row_ok texts rules st r Hl Hr) as [st1 ->]. cbn [bind].
  apply IH.
Qed.

Lemma process_rows_raises (texts : text_dir) (rules : rules_t)
    (rows : list row) (e : exn) :
  literal_rules rules = true ->
  forall st,
    process_rows texts rules st rows = Raise e
    <-> exists before r after,
          rows = before ++ r :: after
          /\ Forall (readable texts) before
          /\ process_row_cause texts r e.
Proof.
  intros Hl. induction rows as [|r rows IH]; intros st.
  - split; [discriminate|]. intros (before & r & after & E & _).
    now destruct before.
  - cbn [process_rows]. split.
    + destruct (process_row texts rules st r) as [st1|e1] eqn:E; cbn [bind].
      * intros H. apply IH in H.
        destruct H as (before & r0 & after & -> & Hb & Hc).
        exists (r :: before), r0, after. split; [reflexivity|].
        split; [|assumption].
        constructor; [now apply process_row_readable in E | assumption].
      * intros H; inversion H; subst. exists [], r, rows.
        split; [reflexivity|]. split; [constructor|].
        now apply (@process_row_raises texts rules st r e Hl).
    + intros (before & r0 & after & E & Hb & Hc).
      destruct before as [|b before]; cbn [app] in E; inversion E; subst.
      * apply (@process_row_raises texts rules st r0 e Hl) in Hc. now rewrite Hc.
      * inversion Hb as [|? ? Hr Hb']; subst.
        destruct (@process_row_ok texts rules st b Hl Hr) as [st1 ->].
        cbn [bind].
        apply IH. exists before, r0, after. auto.
Qed.

(** X15.  With rules that hold no regex term, scoring never raises, and
    what stops the run is decided by the manifest and the text files
    alone.  The run stops in the loop, at the first row that is not
    readable: with KeyError when the row lacks the relpath or the kind
    column, with AttributeError when its relpath is not a string (its line
    being shorter than the header), and with the exception that looking
    for its text file or reading it raised.  It stops after the loop, with
    ValueError from the writer, when every row is readable and one of them
    has a field under a key the first row does not have.  It finishes in
    every other case. *)
Theorem literal_rules_crash_causes (texts : text_dir) (rules_text : str)
    (rows : list row) :
  literal_rules (load_rules rules_text) = true ->
  load_rules rules_text <> [] ->
  (forall e,
     run texts rules_text rows = Crashed e
     <-> (exists before r after,
            rows = before ++ r :: after
            /\ Forall (readable texts) before
            /\ process_row_cause texts r e)
         \/ (Forall (readable texts) rows
             /\ e = ValueError /\ surplus_field rows))
  /\ ((exists st, run texts rules_text rows = Finished st)
      <-> Forall (readable texts) rows /\ ~ surplus_field rows).
Proof.
  intros Hl Hn. unfold run.
  destruct (load_rules rules_text) as [|x d] eqn:E; [contradiction|].
  set (st0 := {| out_rows := []; auto := 0; review := 0; no_text := 0 |}).
  pose proof (fun e => @process_rows_raises texts (x :: d) rows e Hl st0)
    as Q.
  destruct (process_rows texts (x :: d) st0 rows) as [st|e1] eqn:P.
  - assert (R : Forall (readable texts) rows)
      by now apply process_rows_readable in P.
    assert (N : forall e,
              ~ exists before r after,
                  rows = before ++ r :: after
                  /\ Forall (readable texts) before
                  /\ process_row_cause texts r e).
    { intros e H. apply Q in H. discriminate. }
    apply process_rows_counts in P.
    destruct P as (outs & Houts & Hf & _). cbn [out_rows app st0] in Houts.
    pose proof (surplus_written Hf) as S.
    destruct (writerows_spec (out_rows st)) as [[W B]|[W B]];
      rewrite W; rewrite Houts in B; cbv zeta in B; rewrite S in B.
    + split.
      * intros e. split.
        -- intros H; inversion H; subst. right. auto.
        -- intros [H|(_ & -> & _)]; [now apply N in H | reflexivity].
      * split; [intros [st' H]; discriminate | intros [_ H]; contradiction].
    + split.
      * intros e. split; [discriminate|].
        intros [H|(_ & _ & H)]; [now apply N in H | contradiction].
      * split; [auto | intros _; eexists; reflexivity].
  - split.
    + intros e. split.
      * intros H; inversion H; subst. left. now apply Q.
      * intros [H|(R & _)].
        -- apply Q in H. congruence.
        -- destruct (@process_rows_ok texts (x :: d) rows Hl R st0)
             as [st' H].
           rewrite P in H. discriminate.
    + split; [intros [st' H]; discriminate|].
      intros [R _].
      destruct (@process_rows_ok texts (x :: d) rows Hl R st0) as [st' H].
      rewrite P in H. discriminate.
Qed.

End Run.

(** ** The loaded rules *)

Lemma split_no_sep (sep : char) (s : str) :
  forall w, In w (split sep s) -> ~ In sep w.
Proof.
  induction s as [|c r IH]; simpl; intros w H.
  - destruct H as [<-|[]]. intros [].
  - destruct (char_eqb c sep) eqn:E.
    + destruct H as [<-|H]; [intros [] | auto].
    + destruct (split sep r) as [|w0 ws].
      * destruct H as [<-|[]]. intros [->|[]].
        unfold char_eqb in E. now rewrite N.eqb_refl in E.
      * destruct H as [<-|H]; [|apply IH; now right].
        intros [->|Hin].
        -- unfold char_eqb in E. now rewrite N.eqb_refl in E.
        -- apply (IH w0); [now left | assumption].
Qed.

Lemma split1_no_sep (sep : char) (s : str) : ~ In sep (fst (split1 sep s)).
Proof.
  induction s as [|c r IH]; simpl; [intros []|].
  destruct (char_eqb c sep) eqn:E; [intros []|].
  destruct (split1 sep r) as [a b]. simpl in *. intros [->|H]; [|auto].
  unfold char_eqb in E. now rewrite N.eqb_refl in E.
Qed.

Lemma dict_set_In {V} (d : pydict V) (k k' : str) (v v' : V) :
  In (k, v) (dict_set d k' v') -> (k, v) = (k', v') \/ In (k, v) d.
Proof.
  induction d as [|[k0 v0] d IH]; simpl.
  - intros [H|[]]; auto.
  - destruct (str_eqb k0 k') eqn:E; simpl.
    + apply str_eqb_eq in E. subst.
      intros [H|H]; [left; exact (eq_sym H) | auto].
    + intros [H|H]; [auto|]. destruct (IH H); auto.
Qed.

Lemma rule_of_line_trimmed (line : str) (ct : str * list str) :
  rule_of_line line = Some ct -> trimmed_rule ct.
Proof.
  unfold rule_of_line. destruct (skipped line); [discriminate|].
  destruct (split1 COLON (strip line)) as [cat rest] eqn:E.
  intros H; inversion H; subst; clear H. unfold trimmed_rule; simpl.
  split; [apply strip_tight|]. split.
  - intros Hin. apply strip_In in Hin.
    apply (split1_no_sep COLON (strip line)). now rewrite E.
  - apply Forall_forall. intros t Ht. apply in_map_iff in Ht.
    destruct Ht as (t0 & <- & Ht0). apply filter_In in Ht0.
    destruct Ht0 as [Hin Htr]. split; [|split; [apply strip_tight|]].
    + intros N. now rewrite N in Htr.
    + intros Hs. apply strip_In in Hs. now apply (split_no_sep _ _ _ Hin).
Qed.

(** X16.  In the loaded rules a category name has no whitespace at its ends
    and no colon, and every term is non-empty, has no whitespace at its
    ends and holds no semicolon. *)
Theorem loaded_rules_are_trimmed (text : str) :
  Forall (fun ct =>
            tight (fst ct) /\ ~ In COLON (fst ct)
            /\ Forall (fun t => t <> [] /\ tight t /\ ~ In SEMICOLON t)
                 (snd ct))
    (load_rules text).
Proof.
  unfold load_rules, load_rules_lines. rewrite fold_load_rules_lines.
  assert (G : forall rs d, Forall trimmed_rule rs -> Forall trimmed_rule d ->
                Forall trimmed_rule (fold_left add_rule rs d)).
  { induction rs as [|r rs IH]; intros d Hr Hd; simpl; [assumption|].
    inversion Hr; subst. apply IH; [assumption|].
    apply Forall_forall. intros [k v] Hin. unfold add_rule in Hin.
    apply dict_set_In in Hin. destruct Hin as [Hin|Hin].
    - inversion Hin; subst. now destruct r.
    - rewrite Forall_forall in Hd. now apply Hd. }
  apply G; [|constructor].
  apply Forall_forall. intros ct Hin. unfold rule_lines in Hin.
  apply in_flat_map in Hin. destruct Hin as (line & _ & Hin).
  destruct (rule_of_line line) as [r|] eqn:E; [|contradiction].
  destruct Hin as [<-|[]]. now apply rule_of_line_trimmed with line.
Qed.

Lemma str_eqb_sym (a b : str) : str_eqb a b = str_eqb b a.
Proof.
  destruct (str_eqb a b) eqn:E.
  - apply str_eqb_eq in E. subst. symmetry. apply str_eqb_refl.
  - destruct (str_eqb b a) eqn:F; [|reflexivity].
    apply str_eqb_eq in F. subst. now rewrite str_eqb_refl in E.
Qed.

Lemma keys_dict_set_eq {V} (d : pydict V) (k : str) (v : V) :
  keys (dict_set d k v) = if mem k (keys d) then keys d else keys d ++ [k].
Proof.
  unfold keys, mem. induction d as [|[k0 v0] d IH]; simpl; [reflexivity|].
  rewrite (str_eqb_sym k k0). destruct (str_eqb k0 k); simpl; [reflexivity|].
  rewrite IH. destruct (existsb (str_eqb k) (map fst d)); reflexivity.
Qed.

Lemma filter_twice {A} (f g : A -> bool) (l : list A) :
  filter f (filter g l) = filter (fun x => g x && f x) l.
Proof.
  induction l as [|x l IH]; simpl; [reflexivity|].
  destruct (g x); simpl; [destruct (f x)|]; now rewrite IH.
Qed.

Lemma keys_fold_add_rule (rs : list (str * list str)) :
  forall d : rules_t,
    keys (fold_left add_rule rs d) =
    keys d ++ filter (fun k => negb (mem k (keys d)))
                (first_appearances (map fst rs)).
Proof.
  induction rs as [|[c t] rs IH]; intros d; simpl.
  - now rewrite app_nil_r.
  - rewrite IH. unfold add_rule. cbn [fst snd].
    rewrite keys_dict_set_eq. destruct (mem c (keys d)) eqn:M; simpl.
    + f_equal. rewrite filter_twice. apply filter_ext. intros x.
      destruct (str_eqb c x) eqn:E; simpl; [|reflexivity].
      apply str_eqb_eq in E. subst. now rewrite M.
    + rewrite <- app_assoc. simpl. f_equal. f_equal.
      rewrite filter_twice. apply filter_ext. intros x.
      unfold mem. rewrite existsb_app. simpl. rewrite orb_false_r.
      rewrite (str_eqb_sym x c).
      destruct (str_eqb c x), (existsb (str_eqb x) (keys d)); reflexivity.
Qed.

(** X17.  The categories of the loaded rules stand in the order in which
    their names first appear in the definition: a later line that names a
    category again changes its terms and not its place. *)
Theorem categories_in_first_appearance_order (text : str) :
  keys (load_rules text)
  = first_appearances (map fst (rule_lines (splitlines text))).
Proof.
  unfold load_rules, load_rules_lines.
  rewrite fold_load_rules_lines, keys_fold_add_rule. simpl.
  induction (first_appearances (map fst (rule_lines (splitlines text))))
    as [|x l IH]; simpl; [reflexivity | now rewrite IH].
Qed.

(** ** The shape of the normaliser's output *)

Lemma hy_ok_suffix (a b : str) : hy_ok (a ++ b) = true -> hy_ok b = true.
Proof.
  induction a as [|c a IH]; [auto|].
  simpl. rewrite andb_true_iff. intros [_ H]. auto.
Qed.

Lemma ws_ok_suffix (a b : str) : ws_ok (a ++ b) = true -> ws_ok b = true.
Proof.
  induction a as [|c a IH]; [auto|].
  simpl. rewrite andb_true_iff. intros [_ H]. auto.
Qed.

Lemma ws_ok_spaces (s : str) :
  ws_ok s = true -> forall x, In x s -> is_space x = true -> x = SPACE.
Proof.
  induction s as [|c r IH]; simpl; [intros _ x []|].
  rewrite andb_true_iff. intros [H1 H2] x [<-|Hx] Hs; [|auto].
  rewrite Hs in H1. simpl in H1. apply andb_true_iff in H1.
  destruct H1 as [H1 _]. now apply N.eqb_eq in H1.
Qed.

Section Shape.

Context {L : PyLib}.

(** X18.  Whatever the text, the cleaned text holds none of the invisible
    marks and no no-break space, its only whitespace character is the
    space, a space is never preceded by a space or a hyphen, and it has no
    whitespace at its ends. *)
Theorem clean_output_shape (t : str) :
  (forall x, In x ghosts -> ~ In x (_clean_unicode_common t))
  /\ (forall x, In x (_clean_unicode_common t) -> is_space x = true ->
                x = SPACE)
  /\ (forall pre a b rest,
        _clean_unicode_common t = pre ++ a :: b :: rest ->
        is_space b = true -> is_space a = false /\ a <> HYPHEN)
  /\ tight (_clean_unicode_common t).
Proof.
  change (_clean_unicode_common t) with (clean_tail (nfkc t)).
  destruct (clean_tail_cleaned (nfkc t)) as (Hg & Hh & Hw & H1 & H2).
  split; [exact Hg|]. split; [now apply ws_ok_spaces|].
  split; [|split; assumption].
  intros pre a b rest E Hb. rewrite E in Hh, Hw.
  apply hy_ok_suffix in Hh. apply ws_ok_suffix in Hw.
  simpl in Hh, Hw. rewrite Hb in Hh, Hw.
  apply andb_true_iff in Hh. destruct Hh as [Hh _].
  apply andb_true_iff in Hw. destruct Hw as [Hw _].
  rewrite andb_true_r in Hh. simpl in Hw. rewrite andb_false_r in Hw.
  rewrite orb_false_r in Hw. apply negb_true_iff in Hw, Hh.
  split; [assumption|]. intros ->. unfold char_eqb in Hh.
  now rewrite N.eqb_refl in Hh.
Qed.

End Shape.

(** ** The first classifier *)

Section FirstClassifier.

Variable lower : str -> str.

Lemma v1_score_terms_grows (text_norm : str) (terms : list str) :
  forall s h, (s <= fst (V1.score_terms lower text_norm terms s h))%Z.
Proof.
  induction terms as [|t terms IH]; simpl; intros s h; [lia|].
  destruct (Z.gtb_spec (V1.term_match_count lower text_norm t) 0).
  - match goal with
    | |- (_ <= fst (V1.score_terms _ _ _ ?a ?b))%Z => specialize (IH a b)
    end.
    lia.
  - apply IH.
Qed.

Lemma v1_fold_best (text_norm : str) (l : rules_t) :
  forall bc bs bh c s h,
    fold_left (V1.best_step lower text_norm) l (bc, bs, bh) = (c, s, h) ->
    let sc := fun ct : str * list str =>
                fst (V1.score_terms lower text_norm (snd ct) 0%Z []) in
    (bs <= s)%Z
    /\ Forall (fun ct => (sc ct <= s)%Z) l
    /\ ((c, s, h) = (bc, bs, bh)
        \/ exists pre terms post,
             l = pre ++ (c, terms) :: post
             /\ sc (c, terms) = s /\ (bs < s)%Z
             /\ Forall (fun ct => (sc ct < s)%Z) pre).
Proof.
  induction l as [|[cat terms] l IH]; intros bc bs bh c s h H sc.
  - simpl in H. inversion H; subst. split; [lia|]. split; [constructor|].
    now left.
  - cbn [fold_left] in H. unfold V1.best_step at 2 in H.
    destruct (V1.score_terms lower text_norm terms 0%Z []) as [v hs] eqn:E.
    assert (Ev : sc (cat, terms) = v) by (unfold sc; simpl; now rewrite E).
    destruct (Z.gtb_spec v bs).
    + apply IH in H. destruct H as (H1 & H2 & H3). fold sc in H2, H3.
      split; [lia|]. split; [constructor; [lia | assumption]|].
      right. destruct H3 as [H3|(pre & t & post & -> & Hs & Hlt & Hpre)].
      * inversion H3; subst. exists [], terms, l.
        split; [reflexivity|]. split; [reflexivity|]. split; [lia|constructor].
      * exists ((cat, terms) :: pre), t, post.
        split; [reflexivity|]. split; [assumption|]. split; [lia|].
        constructor; [lia | assumption].
    + apply IH in H. destruct H as (H1 & H2 & H3). fold sc in H2, H3.
      split; [lia|]. split; [constructor; [lia | assumption]|].
      destruct H3 as [H3|(pre & t & post & -> & Hs & Hlt & Hpre)];
        [now left|].
      right. exists ((cat, terms) :: pre), t, post.
      split; [reflexivity|]. split; [assumption|]. split; [lia|].
      constructor; [lia | assumption].
Qed.

(** X19.  [best_category] of classify.py returns the highest score and the
    first category that reaches it; when no category scores above 0 it
    returns UNKNOWN with score 0 and no hits, and the decision is REVIEW. *)
Theorem v1_best_category_first_maximum (text : str) (rules : rules_t) :
  exists c s h,
    V1.best_category lower text rules = (c, s, h)
    /\ (0 <= s)%Z
    /\ Forall (fun ct => (0 <= V1.cat_score lower text ct <= s)%Z) rules
    /\ (s = 0%Z -> c = lit "UNKNOWN" /\ h = []
                  /\ V1.decide lower text rules = lit "REVIEW")
    /\ ((0 < s)%Z ->
        exists pre terms post,
          rules = pre ++ (c, terms) :: post
          /\ V1.cat_score lower text (c, terms) = s
          /\ Forall (fun ct => (V1.cat_score lower text ct < s)%Z) pre).
Proof.
  destruct (V1.best_category lower text rules) as [[c s] h] eqn:E.
  exists c, s, h. split; [reflexivity|].
  pose proof E as E'. unfold V1.best_category in E'.
  apply v1_fold_best in E'. cbv zeta in E'.
  destruct E' as (H1 & H2 & H3).
  split; [assumption|]. split; [|split].
  - eapply Forall_impl; [|exact H2]. intros ct Hct. unfold V1.cat_score.
    split; [apply v1_score_terms_grows | exact Hct].
  - intros ->. destruct H3 as [H3|(pre & t & post & _ & _ & Hlt & _)];
      [|lia].
    inversion H3; subst. split; [reflexivity|]. split; [reflexivity|].
    unfold V1.decide. now rewrite E.
  - intros Hs. destruct H3 as [H3|(pre & t & post & -> & Hv & _ & Hpre)].
    + inversion H3; subst. lia.
    + exists pre, t, post. split; [reflexivity|]. split; assumption.
Qed.

End FirstClassifier.

(** ** Text extraction *)

Lemma filter_nil_iff {A} (f : A -> bool) (l : list A) :
  filter f l = [] <-> Forall (fun x => f x = false) l.
Proof.
  induction l as [|x l IH]; simpl.
  - split; [constructor | reflexivity].
  - destruct (f x) eqn:E.
    + split; [discriminate | intros H; inversion H; congruence].
    + rewrite IH. split; [now constructor | intros H; now inversion H].
Qed.

Lemma join_blank (sep : str) (out : list str) :
  Forall (fun t => truthy (strip t) = true) out ->
  (truthy (strip (join sep out)) = false <-> out = []).
Proof.
  intros H. destruct H as [|p ps Hp _]; [split; reflexivity|].
  split; [|discriminate]. rewrite truthy_strip in *.
  apply negb_true_iff in Hp. intros E. apply negb_false_iff in E.
  simpl in E. destruct ps.
  - congruence.
  - rewrite forallb_app, Hp in E. discriminate.
Qed.

(** X20.  When the PDF opens, [extract_text_from_pdf] returns the number of
    all its pages, whatever [max_pages], and a text that is blank exactly
    when every page it was asked to read is blank, gives no text or fails;
    when the PDF does not open, the exception leaves the function. *)
Theorem extract_text_blank_iff (pages : list Extract.page)
    (max_pages : option Z) (e : exn) :
  (exists text,
     Extract.extract_text_from_pdf (Ok pages) max_pages
     = Ok (text, List.length pages)
     /\ (truthy (strip text) = false <->
         Forall (fun p => truthy (strip (Extract.page_text p)) = false)
           (match max_pages with
            | Some k => Extract.slice_to k pages
            | None => pages
            end)))
  /\ Extract.extract_text_from_pdf (Raise e) max_pages = Raise e.
Proof.
  split; [|reflexivity].
  unfold Extract.extract_text_from_pdf. simpl bind.
  eexists. split; [reflexivity|].
  set (kept := match max_pages with
               | Some k => Extract.slice_to k pages
               | None => pages
               end).
  rewrite join_blank.
  - rewrite filter_nil_iff, Forall_map. reflexivity.
  - apply Forall_forall. intros t Ht. apply filter_In in Ht. tauto.
Qed.

Lemma option_str_dec (a b : option str) : a = b \/ a <> b.
Proof.
  destruct a as [a|], b as [b|]; try (right; discriminate); [|now left].
  destruct (str_eqb a b) eqn:E.
  - apply str_eqb_eq in E. subst. now left.
  - apply str_eqb_neq in E. right. congruence.
Qed.

Section ExtractRun.

Variable readers : str -> pyres (list Extract.page).
Variable writable : str -> bool.

Lemma extract_row_counts (st st' : Extract.state) (r : row) :
  Extract.extract_row readers writable st r = Ok st' ->
  (Extract.ok st <= Extract.ok st' /\ Extract.empty st <= Extract.empty st'
   /\ Extract.failed st <= Extract.failed st'
   /\ Extract.skipped_ocr st <= Extract.skipped_ocr st')%Z
  /\ (Extract.ok st' + Extract.empty st' + Extract.failed st'
      + Extract.skipped_ocr st'
      = Extract.ok st + Extract.empty st + Extract.failed st
        + Extract.skipped_ocr st
        + (if Extract.is_pdf_row r then 1 else 0))%Z
  /\ (Extract.is_pdf_row r = false -> st' = st)
  /\ (forall name,
        dict_get (Extract.files st') name <> dict_get (Extract.files st) name ->
        exists rel, row_get r (Some (lit "relpath")) = Some (Str rel)
                    /\ name = safe_name rel).
Proof.
  unfold Extract.extract_row, Extract.is_pdf_row.
  destruct (row_get r (Some (lit "kind"))) as [kind|]; [|discriminate].
  destruct (is_str kind (lit "pdf")); simpl negb; cbv iota.
  2:{ intros H; inversion H; subst. repeat split; try lia; auto.
      intros name N. now contradiction N. }
  destruct (row_get r (Some (lit "relpath"))) as [v|]; [|discriminate].
  destruct (row_get r (Some (lit "needs_ocr"))) as [needs|]; [|discriminate].
  destruct v as [rel| |l]; try discriminate.
  assert (W : forall name text,
            dict_get (dict_set (Extract.files st) (safe_name rel) text) name
            <> dict_get (Extract.files st) name ->
            exists rel0, Some (Str rel) = Some (Str rel0)
                         /\ name = safe_name rel0).
  { intros name text N. exists rel. split; [reflexivity|].
    destruct (str_eqb (safe_name rel) name) eqn:E.
    - apply str_eqb_eq in E. now subst.
    - apply str_eqb_neq in E.
      rewrite dict_get_set_other in N by assumption. now contradiction N. }
  assert (K : forall name : str,
            dict_get (Extract.files st) name <> dict_get (Extract.files st) name ->
            exists rel0, Some (Str rel) = Some (Str rel0)
                         /\ name = safe_name rel0).
  { intros name N. now contradiction N. }
  destruct (is_str needs (lit "yes")).
  { intros H; inversion H; subst; simpl.
    split; [lia|]. split; [lia|]. split; [discriminate | exact K]. }
  destruct (Extract.extract_text_from_pdf (readers rel) None)
    as [[text n]|e].
  - destruct (writable (safe_name rel)).
    + destruct (truthy (strip text)); intros H; inversion H; subst; simpl;
        (split; [lia|]; split; [lia|]; split; [discriminate|];
         intros name; apply W).
    + intros H; inversion H; subst; simpl.
      split; [lia|]. split; [lia|]. split; [discriminate | exact K].
  - intros H; inversion H; subst; simpl.
    split; [lia|]. split; [lia|]. split; [discriminate | exact K].
Qed.

(** X21.  A run of the extraction that finishes counts every PDF row of
    the manifest exactly once, as with text, empty, failed or skipped for
    OCR; rows of other kinds change nothing, and a text file is written
    only under the name of a PDF row's path. *)
Theorem extraction_counts_every_pdf (rows : list row) :
  forall st st',
    Extract.extract_rows readers writable st rows = Ok st' ->
    (Extract.ok st <= Extract.ok st' /\ Extract.empty st <= Extract.empty st'
     /\ Extract.failed st <= Extract.failed st'
     /\ Extract.skipped_ocr st <= Extract.skipped_ocr st')%Z
    /\ (Extract.ok st' + Extract.empty st' + Extract.failed st'
        + Extract.skipped_ocr st'
        = Extract.ok st + Extract.empty st + Extract.failed st
          + Extract.skipped_ocr st
          + Z.of_nat (List.length (filter Extract.is_pdf_row rows)))%Z
    /\ (forall name,
          dict_get (Extract.files st') name
          <> dict_get (Extract.files st) name ->
          exists r rel, In r rows /\ Extract.is_pdf_row r = true
                        /\ row_get r (Some (lit "relpath")) = Some (Str rel)
                        /\ name = safe_name rel).
Proof.
  induction rows as [|r rows IH]; intros st st' H.
  - simpl in H. inversion H; subst. simpl. repeat split; try lia.
    intros name N. now contradiction N.
  - cbn [Extract.extract_rows] in H.
    destruct (Extract.extract_row readers writable st r) as [st1|e] eqn:E;
      [|discriminate H].
    cbn [bind] in H. apply IH in H. destruct H as (Hm & Hsum & Hfiles).
    apply extract_row_counts in E. destruct E as (Hm1 & Hsum1 & Hsame & Hf1).
    split; [lia|]. split.
    + simpl filter. destruct (Extract.is_pdf_row r); simpl List.length;
        [rewrite Nat2Z.inj_succ|]; lia.
    + intros name N.
      destruct (Extract.is_pdf_row r) eqn:P.
      * assert (D : dict_get (Extract.files st') name
                    <> dict_get (Extract.files st1) name
                    \/ dict_get (Extract.files st1) name
                       <> dict_get (Extract.files st) name).
        { destruct (option_str_dec (dict_get (Extract.files st') name)
                      (dict_get (Extract.files st1) name)) as [Q|Q];
            [right; congruence | left; exact Q]. }
        destruct D as [D|D].
        -- destruct (Hfiles name D) as (r0 & rel & Hin & Hp & Hr & Hn).
           exists r0, rel. repeat split; auto. now right.
        -- destruct (Hf1 name D) as (rel & Hr & Hn).
           exists r, rel. repeat split; auto. now left.
      * rewrite (Hsame eq_refl) in *.
        destruct (Hfiles name N) as (r0 & rel & Hin & Hp & Hr & Hn).
        exists r0, rel. repeat split; auto. now right.
Qed.

End ExtractRun.

(** ** The inventory *)

Lemma take_firstn {A} (l : list A) :
  forall n, Inventory.take n l = firstn (N.to_nat n) l.
Proof.
  induction l as [|x r IH]; intros n; simpl.
  - now rewrite firstn_nil.
  - destruct (N.eqb_spec n 0) as [->|Hn]; [reflexivity|].
    rewrite IH, N2Nat.inj_pred.
    destruct (N.to_nat n) eqn:E; [lia | reflexivity].
Qed.

Lemma occurs_cons (m : Inventory.bytes) (x : N) (a : Inventory.bytes) :
  Inventory.occurs m (x :: a)
  = startswith (x :: a) m || Inventory.occurs m a.
Proof. reflexivity. Qed.

Lemma occurs_app (m a b : Inventory.bytes) :
  Inventory.occurs m a = true -> Inventory.occurs m (a ++ b) = true.
Proof.
  induction a as [|x a IH].
  - destruct m; [|discriminate]. intros _. destruct b; reflexivity.
  - change ((x :: a) ++ b) with (x :: (a ++ b)).
    rewrite !occurs_cons, !orb_true_iff. intros [H|H]; [left | right; auto].
    change (x :: a ++ b) with ((x :: a) ++ b).
    apply startswith_iff in H. destruct H as [c ->].
    rewrite <- app_assoc. apply startswith_app.
Qed.

Lemma truncated_prefix (n : N) (d e : Inventory.bytes) :
  exists x,
    (if (n <? N.of_nat (List.length (d ++ e)))%N
     then Inventory.take n (d ++ e) else d ++ e)
    = (if (n <? N.of_nat (List.length d))%N then Inventory.take n d else d)
      ++ x.
Proof.
  rewrite !take_firstn, length_app.
  destruct (N.ltb_spec n (N.of_nat (List.length d))) as [H|H].
  - destruct (N.ltb_spec n (N.of_nat (List.length d + List.length e)));
      [|lia].
    exists []. rewrite app_nil_r, firstn_app.
    replace (N.to_nat n - List.length d) with 0 by lia.
    now rewrite firstn_O, app_nil_r.
  - destruct (N.ltb_spec n (N.of_nat (List.length d + List.length e))).
    + exists (firstn (N.to_nat n - List.length d) e).
      rewrite firstn_app. f_equal. apply firstn_all2. lia.
    + now exists e.
Qed.

Lemma filter_length_mono {A} (f g : A -> bool) (l : list A) :
  (forall x, f x = true -> g x = true) ->
  List.length (filter f l) <= List.length (filter g l).
Proof.
  intros H. induction l as [|x l IH]; simpl; [lia|].
  destruct (f x) eqn:E.
  - rewrite (H x E). simpl. lia.
  - destruct (g x); simpl; lia.
Qed.

(** X23.  A PDF that cannot be read is taken for a scan, and a PDF taken
    for text stays so when bytes are appended to it: the markers are looked
    for in the first 40,000,000 bytes, and more data never removes one. *)
Theorem sniff_survives_more_data (d e : Inventory.bytes) (x : exn) :
  Inventory.sniff_pdf_likely_text (Raise x) = false
  /\ (Inventory.sniff_pdf_likely_text (Ok d) = true ->
      Inventory.sniff_pdf_likely_text (Ok (d ++ e)) = true).
Proof.
  split; [reflexivity|]. unfold Inventory.sniff_pdf_likely_text.
  generalize Inventory.LIMIT. intros n. cbv zeta.
  destruct (truncated_prefix n d e) as [y ->].
  rewrite !Nat.leb_le. intros H.
  eapply Nat.le_trans; [exact H|].
  apply filter_length_mono. intros m. apply occurs_app.
Qed.

Lemma inventory_step (st : Inventory.state) (i : Z) (f : Inventory.file)
    (z p im o : Z) :
  Inventory.size f = Ok z ->
  Inventory.counts st = three_counts p im o ->
  exists st' row p' im' o',
    Inventory.step st i f = Ok st'
    /\ Inventory.rows st' = Inventory.rows st ++ [row]
    /\ dict_get row (lit "id") = Some (Inventory.Int i)
    /\ dict_get row (lit "relpath")
       = Some (Inventory.Str (Inventory.relpath f))
    /\ Inventory.counts st' = three_counts p' im' o'
    /\ (p' + im' + o' = p + im + o + 1)%Z
    /\ (p <= p' /\ im <= im' /\ o <= o')%Z
    /\ (Inventory.ocr_unknown st' - Inventory.ocr_unknown st = o' - o)%Z
    /\ (Inventory.ocr_yes st' + Inventory.ocr_no st'
        - (Inventory.ocr_yes st + Inventory.ocr_no st)
        = (p' - p) + (im' - im))%Z
    /\ (im' - im <= Inventory.ocr_yes st' - Inventory.ocr_yes st)%Z
    /\ (0 <= Inventory.ocr_no st' - Inventory.ocr_no st <= p' - p)%Z.
Proof.
  intros Hz Hc. unfold Inventory.step. rewrite Hz, Hc. cbn [bind].
  unfold Inventory.kind_for.
  destruct (existsb (str_eqb (Inventory.ext f)) Inventory.PDF_EXTS).
  - destruct (Inventory.sniff_pdf_likely_text (Inventory.data f));
      eexists; eexists; exists (p + 1)%Z, im, o;
      (split; [reflexivity|]); cbn [Inventory.rows Inventory.counts
        Inventory.ocr_yes Inventory.ocr_no Inventory.ocr_unknown];
      (split; [reflexivity|]); (split; [reflexivity|]);
      (split; [reflexivity|]); (split; [reflexivity|]);
      simpl; lia.
  - destruct (existsb (str_eqb (Inventory.ext f)) Inventory.IMAGE_EXTS);
      eexists; eexists;
      [exists p, (im + 1)%Z, o | exists p, im, (o + 1)%Z];
      (split; [reflexivity|]); cbn [Inventory.rows Inventory.counts
        Inventory.ocr_yes Inventory.ocr_no Inventory.ocr_unknown];
      (split; [reflexivity|]); (split; [reflexivity|]);
      (split; [reflexivity|]); (split; [reflexivity|]);
      simpl; lia.
Qed.

Lemma inventory_loop (files : list Inventory.file) :
  Forall (fun f => exists z, Inventory.size f = Ok z) files ->
  forall st i p im o,
    Inventory.counts st = three_counts p im o ->
    exists st' new p' im' o',
      Inventory.loop st i files = Ok st'
      /\ Inventory.rows st' = Inventory.rows st ++ new
      /\ map (fun r => dict_get r (lit "id")) new
         = map (fun j => Some (Inventory.Int (i + Z.of_nat j)))
             (seq 0 (List.length files))
      /\ map (fun r => dict_get r (lit "relpath")) new
         = map (fun f => Some (Inventory.Str (Inventory.relpath f))) files
      /\ Inventory.counts st' = three_counts p' im' o'
      /\ (p' + im' + o' = p + im + o + Z.of_nat (List.length files))%Z
      /\ (p <= p' /\ im <= im' /\ o <= o')%Z
      /\ (Inventory.ocr_unknown st' - Inventory.ocr_unknown st = o' - o)%Z
      /\ (Inventory.ocr_yes st' + Inventory.ocr_no st'
          - (Inventory.ocr_yes st + Inventory.ocr_no st)
          = (p' - p) + (im' - im))%Z
      /\ (im' - im <= Inventory.ocr_yes st' - Inventory.ocr_yes st)%Z
      /\ (0 <= Inventory.ocr_no st' - Inventory.ocr_no st <= p' - p)%Z.
Proof.
  induction 1 as [|f files [z Hz] _ IH]; intros st i p im o Hc.
  - exists st, [], p, im, o. simpl. rewrite app_nil_r.
    repeat (split; [reflexivity|]). split; [assumption|]. lia.
  - destruct (inventory_step st i f Hz Hc)
      as (st1 & row & p1 & im1 & o1 & Hs & Hr & Hid & Hrel & Hc1 & A1 & A2
          & A3 & A4 & A5 & A6).
    destruct (IH st1 (i + 1)%Z p1 im1 o1 Hc1)
      as (st' & new & p' & im' & o' & Hl & Hr' & Hids & Hrels & Hc' & B1 & B2
          & B3 & B4 & B5 & B6).
    exists st', (row :: new), p', im', o'.
    cbn [Inventory.loop]. rewrite Hs. cbn [bind].
    split; [assumption|].
    split; [rewrite Hr', Hr, <- app_assoc; reflexivity|].
    split.
    { cbn [map List.length seq]. rewrite Hid, Hids. f_equal.
      - f_equal. f_equal. lia.
      - rewrite <- seq_shift, map_map. apply map_ext. intros j.
        f_equal. f_equal. lia. }
    split; [cbn [map]; now rewrite Hrel, Hrels|].
    split; [assumption|].
    rewrite length_cons, Nat2Z.inj_succ. lia.
Qed.


(** ** The further properties at concrete inputs *)

(** X7 at the rules and the text of the examples. *)
Lemma best_two_are_the_highest_witness :
  exists t1 t2 rest,
    @best_two_categories Small.lib Demo.text Demo.rules = Ok (t1, t2)
    /\ (0 <= score_of t2 <= score_of t1)%Z
    /\ Forall (fun x => (score_of x <= score_of t1)%Z) Demo.scored
    /\ Forall (fun x => (score_of x <= score_of t2)%Z) rest
    /\ Permutation Demo.scored (t1 :: t2 :: rest).
Proof.
  apply (@best_two_are_the_highest Small.lib Demo.text Demo.rules Demo.scored).
  vm_compute. reflexivity.
Defined.

(** X8 at the rules and the text of the examples. *)
Lemma hits_empty_iff_score_zero_witness :
  (3%Z = 0%Z <-> lit "ci:invoice(2), ci:nota fiscal(1)" = [])
  /\ (0%Z = 0%Z <-> @nil char = []).
Proof.
  apply (@hits_empty_iff_score_zero Small.lib Demo.text Demo.rules
           (lit "INVOICE", 3%Z, lit "ci:invoice(2), ci:nota fiscal(1)")
           (lit "TAX", 0%Z, [])).
  vm_compute. reflexivity.
Defined.

(** X9 at the rules and the text of the examples. *)
Lemma auto_means_dominant_witness :
  exists st' out,
    @classify_text Small.lib Demo.rules Demo.st0 Demo.row Demo.text = Ok st'
    /\ out_rows st' = out_rows Demo.st0 ++ [out]
    /\ (field out "decision" = Some (lit "AUTO") ->
        exists top others,
          Permutation Demo.scored (top :: others)
          /\ field out "label" = Some (cat_of top)
          /\ (2 <= score_of top)%Z
          /\ Forall (fun x => (score_of x + 1 < score_of top)%Z) others
          /\ auto st' = (auto Demo.st0 + 1)%Z).
Proof.
  apply (@auto_means_dominant Small.lib Demo.rules Demo.st0 Demo.row
           Demo.text Demo.scored).
  - reflexivity.
  - vm_compute. reflexivity.
Defined.


(** X11 at the row of the examples, with a text of one space. *)
Lemma row_passes_manifest_through_witness :
  exists out,
    out_rows Demo.st1 = out_rows Demo.st0 ++ [out]
    /\ (forall k, ~ In k written_fields ->
                  row_get out k = row_get Demo.row k)
    /\ (forall k, In k written_fields -> row_get out k <> None)
    /\ (auto Demo.st0 <= auto Demo.st1 /\ review Demo.st0 <= review Demo.st1
        /\ no_text Demo.st0 <= no_text Demo.st1)%Z
    /\ (auto Demo.st1 + review Demo.st1 + no_text Demo.st1
        = auto Demo.st0 + review Demo.st0 + no_text Demo.st0 + 1)%Z.
Proof.
  apply (@row_passes_manifest_through Small.lib Demo.rules Demo.st0 Demo.st1
           Demo.row [32%N]).
  reflexivity.
Defined.

(** X12 at the manifest of the one row of the examples. *)
Lemma run_accounts_for_every_row_witness :
  Forall2 (fun r out =>
             has_columns r = true
             /\ forall k, ~ In k written_fields ->
                          row_get out k = row_get r k)
    [Demo.row] (out_rows Demo.final)
  /\ (0 <= auto Demo.final /\ 0 <= review Demo.final
      /\ 0 <= no_text Demo.final)%Z
  /\ (auto Demo.final + review Demo.final + no_text Demo.final
      = Z.of_nat (List.length [Demo.row]))%Z.
Proof.
  apply (@run_accounts_for_every_row Small.lib Demo.texts Demo.rules_text
           [Demo.row] Demo.final).
  vm_compute. reflexivity.
Defined.

(** X13 at the row of the examples, with no text file. *)
Lemma missing_text_file_is_no_text_witness :
  exists out,
    @process_row Small.lib Demo.no_texts Demo.rules Demo.st0 Demo.row =
      Ok {| out_rows := out_rows Demo.st0 ++ [out];
            auto := auto Demo.st0;
            review := review Demo.st0;
            no_text := (no_text Demo.st0 + 1)%Z |}
    /\ field out "label" = Some (lit "NO_TEXT")
    /\ field out "decision" = Some (lit "NEEDS_OCR_OR_BETTER_EXTRACT")
    /\ field out "relpath" = Some (lit "input/a.pdf").
Proof.
  apply (@missing_text_file_is_no_text Small.lib Demo.no_texts Demo.rules
           Demo.st0 Demo.row (lit "input/a.pdf") (Str (lit "pdf"))).
  - reflexivity.
  - reflexivity.
  - left. reflexivity.
Defined.

(** X15 at the rules and the row of the examples, in a text directory
    where the operating system refuses every name. *)
Lemma literal_rules_crash_causes_witness :
  (forall e,
     @run Small.lib Demo.refused Demo.rules_text [Demo.row] = Crashed e
     <-> (exists before r after,
            [Demo.row] = before ++ r :: after
            /\ Forall (readable Demo.refused) before
            /\ process_row_cause Demo.refused r e)
         \/ (Forall (readable Demo.refused) [Demo.row]
             /\ e = ValueError /\ surplus_field [Demo.row]))
  /\ ((exists st,
         @run Small.lib Demo.refused Demo.rules_text [Demo.row] = Finished st)
      <-> Forall (readable Demo.refused) [Demo.row]
          /\ ~ surplus_field [Demo.row]).
Proof.
  apply (@literal_rules_crash_causes Small.lib Demo.refused Demo.rules_text
           [Demo.row]).
  - reflexivity.
  - discriminate.
Defined.

(** X21 at a manifest of a PDF and an image. *)
Lemma extraction_counts_every_pdf_witness :
  (Extract.ok Demo.est0 <= Extract.ok Demo.efinal
   /\ Extract.empty Demo.est0 <= Extract.empty Demo.efinal
   /\ Extract.failed Demo.est0 <= Extract.failed Demo.efinal
   /\ Extract.skipped_ocr Demo.est0 <= Extract.skipped_ocr Demo.efinal)%Z
  /\ (Extract.ok Demo.efinal + Extract.empty Demo.efinal
      + Extract.failed Demo.efinal + Extract.skipped_ocr Demo.efinal
      = Extract.ok Demo.est0 + Extract.empty Demo.est0
        + Extract.failed Demo.est0 + Extract.skipped_ocr Demo.est0
        + Z.of_nat (List.length
                      (filter Extract.is_pdf_row [Demo.row; Demo.image_row])))%Z
  /\ (forall name,
        dict_get (Extract.files Demo.efinal) name
        <> dict_get (Extract.files Demo.est0) name ->
        exists r rel, In r [Demo.row; Demo.image_row]
                      /\ Extract.is_pdf_row r = true
                      /\ row_get r (Some (lit "relpath")) = Some (Str rel)
                      /\ name = safe_name rel).
Proof.
  apply (@extraction_counts_every_pdf Demo.readers (fun _ => true)
           [Demo.row; Demo.image_row] Demo.est0 Demo.efinal).
  vm_compute. reflexivity.
Defined.


Example sniff_example :
  Inventory.sniff_pdf_likely_text (Ok (lit "BTj")) = true
  /\ Inventory.sniff_pdf_likely_text (Ok (lit "%PDF-1.4 /Font")) = false
  /\ Inventory.sniff_pdf_likely_text (Ok []) = false.
Proof. repeat split; reflexivity. Qed.

Example inventory_example :
  match Inventory.inventory Demo.files with
  | Ok st =>
      map (fun r => dict_get r (lit "needs_ocr")) (Inventory.rows st)
      = [Some (Inventory.Str (lit "no")); Some (Inventory.Str (lit "yes"));
         Some (Inventory.Str (lit "unknown"))]
      /\ map (fun r => dict_get r (lit "sha1")) (Inventory.rows st)
         = [Some (Inventory.Str (lit "da39"));
            Some (Inventory.Str (lit "ERROR"));
            Some (Inventory.Str (lit "77de"))]
  | Raise _ => False
  end.
Proof. split; reflexivity. Qed.

(** ** When a term raises *)

Section Raising.

Context {L : PyLib}.

(** X25.  [term_match_count] raises exactly when the term is in a regex
    mode, its payload is not empty and the regex engine raises something
    other than [re.error] on it; the exception is then the engine's.  In
    every other case it returns a count, and the count is not negative. *)
Theorem term_match_count_raises_iff (text term : str) (e : exn) :
  (term_match_count text term = Raise e <->
   exists ic : bool,
     fst (parse_term term) = (if ic then m_re_i else m_re)
     /\ unquote_if_needed (snd (parse_term term)) <> []
     /\ re_findall (unquote_if_needed (snd (parse_term term)))
          (_clean_unicode_common text)
          {| MULTILINE := true; IGNORECASE := ic |} = Raise e
     /\ e <> re_error)
  /\ (forall n, term_match_count text term = Ok n -> (0 <= n)%Z).
Proof.
  split; [|intros n; apply term_match_count_nonneg].
  unfold term_match_count, count_literal.
  destruct (parse_term term) as [mode payload]. simpl fst; simpl snd.
  assert (R : forall ic,
            count_regex (_clean_unicode_common text)
              (unquote_if_needed payload) ic = Raise e <->
            unquote_if_needed payload <> []
            /\ re_findall (unquote_if_needed payload)
                 (_clean_unicode_common text)
                 {| MULTILINE := true; IGNORECASE := ic |} = Raise e
            /\ e <> re_error).
  { intros ic. unfold count_regex.
    destruct (unquote_if_needed payload) as [|x p]; simpl negb; cbv iota.
    - split; [discriminate | intros [N _]; contradiction].
    - destruct (re_findall _ _ _) as [found|[]]; split;
        try discriminate; try (intros (_ & E & N); congruence);
        intros E; inversion E; subst;
        (split; [discriminate|]; split; [reflexivity | discriminate]). }
  destruct mode.
  - destruct (negb _); (split; [discriminate|]);
      intros ([] & M & _); discriminate.
  - split; [discriminate|]. intros ([] & M & _); discriminate.
  - split; [discriminate|]. intros ([] & M & _); discriminate.
  - rewrite R. split.
    + intros H. exists false. tauto.
    + intros ([] & M & H); [discriminate | exact H].
  - rewrite R. split.
    + intros H. exists true. tauto.
    + intros ([] & M & H); [exact H | discriminate].
Qed.

End Raising.

(** ** Rule lines written and read back *)

Lemma split1_glue (sep : char) (a b : str) :
  ~ In sep a -> split1 sep (a ++ sep :: b) = (a, b).
Proof.
  induction a as [|c a IH]; simpl; intros H.
  - unfold char_eqb. now rewrite N.eqb_refl.
  - destruct (char_eqb c sep) eqn:E.
    + exfalso. apply H. left. symmetry. now apply N.eqb_eq in E.
    + rewrite IH; [reflexivity|]. intros Hin. apply H. now right.
Qed.

Lemma split_glue (sep : char) (a b : str) :
  ~ In sep a -> split sep (a ++ sep :: b) = a :: split sep b.
Proof.
  induction a as [|c a IH]; simpl; intros H.
  - unfold char_eqb. now rewrite N.eqb_refl.
  - destruct (char_eqb c sep) eqn:E.
    + exfalso. apply H. left. symmetry. now apply N.eqb_eq in E.
    + rewrite IH; [reflexivity|]. intros Hin. apply H. now right.
Qed.

Lemma split_whole (sep : char) (a : str) :
  ~ In sep a -> split sep a = [a].
Proof.
  induction a as [|c a IH]; simpl; intros H; [reflexivity|].
  destruct (char_eqb c sep) eqn:E.
  - exfalso. apply H. left. symmetry. now apply N.eqb_eq in E.
  - rewrite IH; [reflexivity|]. intros Hin. apply H. now right.
Qed.

Lemma split_join (sep : char) (terms : list str) :
  Forall (fun t => ~ In sep t) terms -> terms <> [] ->
  split sep (join [sep] terms) = terms.
Proof.
  induction 1 as [|t ts Ht Hts IH]; intros N; [contradiction|].
  destruct ts as [|u ts].
  - simpl. now apply split_whole.
  - change (join [sep] (t :: u :: ts)) with (t ++ sep :: join [sep] (u :: ts)).
    rewrite split_glue by assumption. f_equal. apply IH. discriminate.
Qed.

Lemma contains_In (c : char) (s : str) : contains c s = true <-> In c s.
Proof.
  unfold contains. rewrite existsb_exists. split.
  - intros (x & Hin & E). apply N.eqb_eq in E. now subst.
  - intros H. exists c. split; [assumption|]. apply N.eqb_refl.
Qed.

Lemma startswith_head (x y : char) (a : str) :
  startswith (x :: a) [y] = char_eqb y x.
Proof. simpl. now rewrite startswith_nil, andb_true_r. Qed.

Lemma tight_strip (s : str) : tight s -> strip s = s.
Proof. intros [H1 H2]. now apply strip_fix. Qed.

Lemma join_last_tight (sep : char) (terms : list str) :
  Forall (fun t => t <> [] /\ tight t /\ ~ In sep t) terms -> terms <> [] ->
  head_space (rev (join [sep] terms)) = false /\ join [sep] terms <> [].
Proof.
  induction 1 as [|t ts (Nt & (_ & Ht) & _) Hts IH]; intros N;
    [contradiction|].
  destruct ts as [|u ts].
  - simpl. split; assumption.
  - change (join [sep] (t :: u :: ts)) with (t ++ sep :: join [sep] (u :: ts)).
    destruct IH as [I1 I2]; [discriminate|].
    set (J := join [sep] (u :: ts)) in *. split.
    + rewrite rev_app_distr. simpl. rewrite <- app_assoc.
      destruct (rev J) eqn:E; [|exact I1].
      apply (f_equal (@rev char)) in E. rewrite rev_involutive in E.
      contradiction.
    + destruct t; [contradiction | discriminate].
Qed.

(** One line, as the loop of [load_rules] reads it: a name, a colon and
    terms joined by semicolons enter exactly the name and the terms. *)
Lemma rule_line_round_trip (d : rules_t) (cat : str) (terms : list str) :
  tight cat -> ~ In COLON cat -> startswith cat (lit "#") = false ->
  Forall (fun t => t <> [] /\ tight t /\ ~ In SEMICOLON t) terms ->
  load_rules_line d (cat ++ [COLON] ++ join [SEMICOLON] terms)
  = dict_set d cat terms.
Proof.
  intros Hc Hn Hh Ht.
  assert (T : strip (cat ++ [COLON] ++ join [SEMICOLON] terms)
              = cat ++ [COLON] ++ join [SEMICOLON] terms).
  { apply strip_fix.
    - destruct cat as [|x c]; [reflexivity | apply Hc].
    - destruct terms as [|t ts].
      + simpl. rewrite rev_app_distr. reflexivity.
      + destruct (@join_last_tight SEMICOLON (t :: ts) Ht) as [J1 J2];
          [discriminate|].
        rewrite !rev_app_distr.
        destruct (rev (join [SEMICOLON] (t :: ts))) eqn:E; [|exact J1].
        apply (f_equal (@rev char)) in E. rewrite rev_involutive in E.
        contradiction. }
  unfold load_rules_line. rewrite T.
  assert (S1 : truthy (cat ++ [COLON] ++ join [SEMICOLON] terms) = true)
    by (destruct cat; reflexivity).
  assert (S2 : startswith (cat ++ [COLON] ++ join [SEMICOLON] terms) (lit "#")
               = false).
  { destruct cat as [|x c]; [reflexivity|].
    change (lit "#") with [35%N] in *. cbn [app].
    rewrite startswith_head in *. exact Hh. }
  assert (S3 : contains COLON (cat ++ [COLON] ++ join [SEMICOLON] terms)
               = true).
  { apply contains_In, in_or_app. right. now left. }
  rewrite S1, S2, S3. simpl negb. simpl orb. cbv iota.
  change (cat ++ [COLON] ++ join [SEMICOLON] terms)
    with (cat ++ COLON :: join [SEMICOLON] terms).
  rewrite split1_glue by assumption.
  rewrite (tight_strip Hc). f_equal.
  destruct terms as [|t ts]; [reflexivity|].
  rewrite split_join.
  - assert (F : forall l,
              Forall (fun t => t <> [] /\ tight t /\ ~ In SEMICOLON t) l ->
              map strip (filter (fun t => truthy (strip t)) l) = l).
    { induction 1 as [|u us (Nu & Tu & _) _ IH]; [reflexivity|].
      cbn [filter]. rewrite (tight_strip Tu).
      destruct u as [|c u]; [contradiction|]. cbn [truthy map].
      rewrite (tight_strip Tu). f_equal. exact IH. }
    now apply F.
  - eapply Forall_impl; [|exact Ht]. simpl. tauto.
  - discriminate.
Qed.

Lemma splitlines_go_line (l : str) :
  one_line l = true ->
  forall cur rest,
    splitlines_go cur (l ++ rest) = splitlines_go (rev l ++ cur) rest.
Proof.
  unfold one_line. induction l as [|c l IH]; intros H cur rest;
    [reflexivity|].
  simpl in H. apply andb_true_iff in H. destruct H as [Hc Hl].
  apply negb_true_iff in Hc. cbn [app splitlines_go]. rewrite Hc.
  rewrite (IH Hl). cbn [rev]. now rewrite <- app_assoc.
Qed.

Lemma splitlines_join (lines : list str) :
  Forall (fun l => l <> [] /\ one_line l = true) lines ->
  splitlines (join [10%N] lines) = lines.
Proof.
  unfold splitlines. induction 1 as [|l ls [Nl Hl] Hls IH]; [reflexivity|].
  destruct ls as [|l' ls].
  - cbn [join]. rewrite <- (app_nil_r l) at 1.
    rewrite (splitlines_go_line l Hl), app_nil_r. cbn [splitlines_go].
    destruct (rev l) eqn:E.
    + apply (f_equal (@rev char)) in E. rewrite rev_involutive in E.
      contradiction.
    + rewrite <- E. now rewrite rev_involutive.
  - change (join [10%N] (l :: l' :: ls))
      with (l ++ 10%N :: join [10%N] (l' :: ls)).
    rewrite (splitlines_go_line l Hl), app_nil_r.
    set (J := join [10%N] (l' :: ls)) in *.
    cbn [splitlines_go]. change (is_linebreak 10%N) with true. cbv iota.
    rewrite rev_involutive.
    change ((10 =? 13)%N) with false. cbn [andb].
    destruct J; rewrite <- IH; reflexivity.
Qed.

Lemma one_line_app (a b : str) :
  one_line (a ++ b) = one_line a && one_line b.
Proof. apply forallb_app. Qed.

Lemma one_line_join (sep : char) (parts : list str) :
  is_linebreak sep = false ->
  Forall (fun t => one_line t = true) parts ->
  one_line (join [sep] parts) = true.
Proof.
  intros Hs. induction 1 as [|t ts Ht Hts IH]; [reflexivity|].
  destruct ts as [|u ts]; [exact Ht|].
  change (join [sep] (t :: u :: ts)) with (t ++ [sep] ++ join [sep] (u :: ts)).
  rewrite !one_line_app, Ht, IH. cbn [one_line forallb]. now rewrite Hs.
Qed.

Lemma format_rule_line (ct : str * list str) :
  writable_rule ct ->
  format_rule ct <> [] /\ one_line (format_rule ct) = true.
Proof.
  intros [(_ & _ & _ & Hc) Ht]. unfold format_rule. split.
  - destruct (fst ct); discriminate.
  - rewrite !one_line_app, Hc.
    rewrite (@one_line_join SEMICOLON); [reflexivity | reflexivity |].
    eapply Forall_impl; [|exact Ht]. simpl. tauto.
Qed.

Lemma dict_set_fresh {V} (d : pydict V) (k : str) (v : V) :
  ~ In k (keys d) -> dict_set d k v = d ++ [(k, v)].
Proof.
  induction d as [|[k' v'] d IH]; intros H; [reflexivity|].
  cbn [dict_set app]. destruct (str_eqb k' k) eqn:E.
  - apply str_eqb_eq in E. exfalso. apply H. now left.
  - rewrite IH; [reflexivity|]. intros Hin. apply H. now right.
Qed.

Lemma fold_add_rule_fresh (rs : list (str * list str)) :
  forall d, NoDup (keys d ++ map fst rs) -> fold_left add_rule rs d = d ++ rs.
Proof.
  induction rs as [|[c t] rs IH]; intros d H; [now rewrite app_nil_r|].
  cbn [fold_left]. unfold add_rule at 2. cbn [fst snd].
  rewrite dict_set_fresh.
  - rewrite IH; [now rewrite <- app_assoc|].
    unfold keys. rewrite map_app. cbn [map fst]. now rewrite <- app_assoc.
  - cbn [map fst] in H. apply NoDup_remove_2 in H.
    intros Hin. apply H. apply in_or_app. now left.
Qed.

(** X26.  The text that holds a line for each rule, as its name, a colon
    and its terms joined by semicolons, is read by [load_rules] as those
    rules entered in their order, a name that comes again replacing the
    terms entered before; with names that differ, the rules read are the
    rules of the text, in their order.  This holds provided no name and
    no term holds a character that ends a line or has whitespace at its
    ends, no name holds a colon or starts with a hash sign, and no term
    is empty or holds a semicolon. *)
Theorem rules_round_trip (rules : rules_t) :
  Forall writable_rule rules ->
  load_rules (format_rules rules) = fold_left add_rule rules []
  /\ (NoDup (map fst rules) -> load_rules (format_rules rules) = rules).
Proof.
  intros H.
  assert (E : load_rules (format_rules rules) = fold_left add_rule rules []).
  { unfold load_rules, format_rules. rewrite splitlines_join.
    - unfold load_rules_lines. generalize (@nil (str * list str)) as d.
      induction H as [|[c t] rs [(Hc & Hn & Hh & _) Ht] Hrs IH]; intros d;
        [reflexivity|].
      cbn [map fold_left]. cbn [fst snd] in *.
      change (format_rule (c, t)) with (c ++ [COLON] ++ join [SEMICOLON] t).
      rewrite (@rule_line_round_trip d c t); try assumption.
      + apply IH.
      + eapply Forall_impl; [|exact Ht]. simpl. tauto.
    - apply Forall_map. eapply Forall_impl; [|exact H].
      intros ct. apply format_rule_line. }
  split; [exact E|]. intros N. rewrite E.
  now apply (fold_add_rule_fresh rules []).
Qed.

(** X26 at the rules of the examples. *)
Lemma rules_round_trip_witness :
  load_rules (format_rules Demo.rules) = fold_left add_rule Demo.rules []
  /\ (NoDup (map fst Demo.rules) ->
      load_rules (format_rules Demo.rules) = Demo.rules).
Proof.
  apply (@rules_round_trip Demo.rules).
  repeat constructor; try discriminate; simpl; intuition discriminate.
Defined.
